(** * EDI-to-JSON converter: parser, structural matcher and TA1 acknowledgements

    A shallow embedding of [src/src/cdm.py], [src/src/edi_schema_models.py],
    [src/src/edi_parser.py], [src/src/ta1_validator.py],
    [src/src/ta1_generator.py] and the validation entry point of
    [src/src/validation_service.py] (with the schema lookup of
    [src/src/schema_manager.py]), with the properties of the specification
    and further properties of the code stated over it.

    Conventions of the embedding.
    - A Python [str] is a Rocq [string]; a character is read as the code
      point 0..255 it carries (Latin-1).  The character classes of [str]
      ([isspace], [isalnum], [isdigit]) are tabulated for that range.
    - A Python [int] is a [Z]; list indices coming from [enumerate] are [nat].
    - [CdmSegment] objects are mutable and shared by reference: they live in
      a store ([heap]) and are named by their address ([loc]).  A raised
      exception keeps the store it was raised in.
    - Logging calls are dropped: none of their arguments can raise.
    - [int] refuses a literal of more than 4300 digits, the limit of the
      interpreter when it is not configured otherwise. *)

From Stdlib Require Import ZArith List String Ascii Bool Lia DecimalString.
From stdpp Require Import gmap strings list fin_maps.

Set Warnings "-register-all".

Local Open Scope string_scope.
Local Open Scope list_scope.
Local Open Scope Z_scope.

(** ** Python strings *)

Module PyStr.

Definition code (c : ascii) : Z := Z.of_N (N_of_ascii c).

Definition chr (n : Z) : ascii := ascii_of_N (Z.to_N n).

Definition LF : ascii := chr 10.
Definition CR : ascii := chr 13.

Definition of_char (c : ascii) : string := String c EmptyString.

(** [str.isspace] on one character. *)
Definition isspace (c : ascii) : bool :=
  let n := code c in
  ((9 <=? n) && (n <=? 13)) || ((28 <=? n) && (n <=? 32))
  || (n =? 133) || (n =? 160).

(** The digits [0-9]: [str.isdecimal], and [\d] of [re]. *)
Definition isdecimal (c : ascii) : bool :=
  let n := code c in (48 <=? n) && (n <=? 57).

(** [str.isdigit]: the decimal digits and the superscripts 1, 2, 3. *)
Definition isdigit (c : ascii) : bool :=
  let n := code c in
  isdecimal c || (n =? 178) || (n =? 179) || (n =? 185).

(** [str.isalnum] on one character. *)
Definition isalnum (c : ascii) : bool :=
  let n := code c in
  isdigit c
  || ((65 <=? n) && (n <=? 90)) || ((97 <=? n) && (n <=? 122))
  || (n =? 170) || (n =? 181) || (n =? 186)
  || ((188 <=? n) && (n <=? 190))
  || ((192 <=? n) && (n <=? 214)) || ((216 <=? n) && (n <=? 246))
  || ((248 <=? n) && (n <=? 255)).

Fixpoint forallb (p : ascii -> bool) (s : string) : bool :=
  match s with
  | EmptyString => true
  | String c r => p c && forallb p r
  end.

(** [s.isdigit()]: false on the empty string. *)
Definition str_isdigit (s : string) : bool :=
  negb (String.eqb s "") && forallb isdigit s.

Definition len (s : string) : Z := Z.of_nat (String.length s).

Fixpoint lstrip_by (p : ascii -> bool) (s : string) : string :=
  match s with
  | EmptyString => EmptyString
  | String c r => if p c then lstrip_by p r else s
  end.

Fixpoint rstrip_by (p : ascii -> bool) (s : string) : string :=
  match s with
  | EmptyString => EmptyString
  | String c r =>
      match rstrip_by p r with
      | EmptyString => if p c then EmptyString else String c EmptyString
      | r' => String c r'
      end
  end.

(** [s.strip()] *)
Definition strip (s : string) : string := rstrip_by isspace (lstrip_by isspace s).

(** [s.startswith(p)] *)
Definition startswith (p s : string) : bool := String.prefix p s.

(** [s[i]] for an index known to be in range; [None] models [IndexError]. *)
Definition index (s : string) (i : nat) : option ascii := String.get i s.

(** [s[i:]] and [s[:i]] for [0 <= i]. *)
Fixpoint drop (i : nat) (s : string) : string :=
  match i, s with
  | O, _ => s
  | S _, EmptyString => EmptyString
  | S j, String _ r => drop j r
  end.

Fixpoint take (i : nat) (s : string) : string :=
  match i, s with
  | O, _ => EmptyString
  | S _, EmptyString => EmptyString
  | S j, String c r => String c (take j r)
  end.

(** [s.split(sep)] for a separator of one character: the pieces between
    the occurrences of [sep], one more than there are occurrences. *)
Fixpoint split (sep : ascii) (s : string) : list string :=
  match s with
  | EmptyString => [EmptyString]
  | String c r =>
      if Ascii.eqb c sep then EmptyString :: split sep r
      else match split sep r with
           | [] => [String c EmptyString]
           | p :: ps => String c p :: ps
           end
  end.

(** [sep.join(l)] *)
Fixpoint join (sep : string) (l : list string) : string :=
  match l with
  | [] => EmptyString
  | [x] => x
  | x :: r => x +:+ sep +:+ join sep r
  end.

(** [s.replace('\r\n', '\n')] *)
Fixpoint replace_crlf (s : string) : string :=
  match s with
  | EmptyString => EmptyString
  | String c r =>
      match r with
      | String d r' =>
          if Ascii.eqb c CR && Ascii.eqb d LF
          then String LF (replace_crlf r')
          else String c (replace_crlf r)
      | EmptyString => s
      end
  end.

(** [s.replace(a, b)] for characters [a] and [b]. *)
Fixpoint replace_char (a b : ascii) (s : string) : string :=
  match s with
  | EmptyString => EmptyString
  | String c r => String (if Ascii.eqb c a then b else c) (replace_char a b r)
  end.

(** [s.replace(a, '')] for a character [a]. *)
Fixpoint remove_char (a : ascii) (s : string) : string :=
  match s with
  | EmptyString => EmptyString
  | String c r => if Ascii.eqb c a then remove_char a r else String c (remove_char a r)
  end.

(** [re.sub(r'\D', '', s)] *)
Fixpoint only_digits (s : string) : string :=
  match s with
  | EmptyString => EmptyString
  | String c r => if isdecimal c then String c (only_digits r) else only_digits r
  end.

(** [s.zfill(n)]: the zeros go after a leading sign. *)
Definition zfill (n : nat) (s : string) : string :=
  let zeros := string_of_list_ascii (repeat "0"%char (n - String.length s)) in
  match s with
  | String c r =>
      if Ascii.eqb c "+"%char || Ascii.eqb c "-"%char
      then String c (zeros +:+ r)
      else zeros +:+ s
  | EmptyString => zeros
  end.

(** [' ' * n] *)
Definition spaces (n : nat) : string := string_of_list_ascii (repeat " "%char n).

(** The value of a string of decimal digits. *)
Fixpoint digits_value (acc : Z) (s : string) : Z :=
  match s with
  | EmptyString => acc
  | String c r => digits_value (10 * acc + (code c - 48)) r
  end.

(** Digits with single underscores between them, as [int] and [float]
    accept: the digits that remain, or [None]. *)
Fixpoint digit_group (prev_digit : bool) (s : string) : option string :=
  match s with
  | EmptyString => if prev_digit then Some EmptyString else None
  | String c r =>
      if isdecimal c then
        match digit_group true r with
        | Some d => Some (String c d)
        | None => None
        end
      else if Ascii.eqb c "_"%char then
        if prev_digit then
          match r with
          | String d _ => if isdecimal d then digit_group false r else None
          | EmptyString => None
          end
        else None
      else None
  end.

(** The characters [int] and [float] skip at both ends of a [str]. *)
Definition isnumspace (c : ascii) : bool :=
  let n := code c in
  ((9 <=? n) && (n <=? 13)) || (n =? 32) || (n =? 133) || (n =? 160).

Definition num_strip (s : string) : string :=
  rstrip_by isnumspace (lstrip_by isnumspace s).

(** A leading sign: [(negative, rest)]. *)
Definition split_sign (s : string) : bool * string :=
  match s with
  | String c r =>
      if Ascii.eqb c "-"%char then (true, r)
      else if Ascii.eqb c "+"%char then (false, r)
      else (false, s)
  | EmptyString => (false, s)
  end.

(** The limit [int] puts on the number of digits of a literal:
    [sys.get_int_max_str_digits()], 4300 unless the interpreter is told
    otherwise. *)
Definition int_max_str_digits : Z := 4300.

(** [int(s)] in base 10; [None] models [ValueError], which [int] raises
    on what is no literal and on a literal of more digits than the
    limit (the zeros at the head count, the sign and the underscores do
    not). *)
Definition py_int (s : string) : option Z :=
  let '(neg, body) := split_sign (num_strip s) in
  match digit_group false body with
  | Some d =>
      if len d <=? int_max_str_digits
      then let v := digits_value 0 d in Some (if neg then - v else v)
      else None
  | None => None
  end.

(** The digits [int] counts before it converts: those of the run of
    digits and underscores after the sign; [None] when an underscore is
    doubled in the run or ends it. *)
Fixpoint count_digits (prev_underscore : bool) (s : string) : option Z :=
  match s with
  | String c r =>
      if isdecimal c then
        match count_digits false r with
        | Some n => Some (n + 1)
        | None => None
        end
      else if Ascii.eqb c "_"%char then
        if prev_underscore then None else count_digits true r
      else if prev_underscore then None else Some 0
  | EmptyString => if prev_underscore then None else Some 0
  end.

(** The number of digits of [s] when [int] refuses it for its length:
    the count is checked once the run of digits is read, before what
    follows the run is looked at. *)
Definition int_over_limit (s : string) : option Z :=
  let '(_, body) := split_sign (num_strip s) in
  match body with
  | String c _ =>
      if Ascii.eqb c "_"%char then None
      else match count_digits false body with
           | Some n => if int_max_str_digits <? n then Some n else None
           | None => None
           end
  | EmptyString => None
  end.

(** [str(n)] for an [int]. *)
Definition of_pos (p : positive) : string :=
  NilEmpty.string_of_uint (Pos.to_uint p).

Definition of_Z (n : Z) : string :=
  match n with
  | Z0 => "0"
  | Zpos p => of_pos p
  | Zneg p => "-" +:+ of_pos p
  end.

(** [repr(s)] for a string that needs no escape. *)
Definition repr (s : string) : string := "'" +:+ s +:+ "'".

End PyStr.


(** ** Number and date syntax of the Python library *)

Module PyLib.
Import PyStr.

Definition lower (c : ascii) : ascii :=
  let n := code c in if (65 <=? n) && (n <=? 90) then chr (n + 32) else c.

Fixpoint lower_str (s : string) : string :=
  match s with
  | EmptyString => EmptyString
  | String c r => String (lower c) (lower_str r)
  end.

(** The text before the first character that satisfies [p], and the
    text after it when there is one. *)
Fixpoint break_at (p : ascii -> bool) (s : string) : string * option string :=
  match s with
  | EmptyString => (EmptyString, None)
  | String c r =>
      if p c then (EmptyString, Some r)
      else let '(a, b) := break_at p r in (String c a, b)
  end.

Definition digits_ok (s : string) : bool :=
  match digit_group false s with Some _ => true | None => false end.

Definition mantissa_ok (m : string) : bool :=
  match break_at (Ascii.eqb "."%char) m with
  | (ip, None) => digits_ok ip
  | (ip, Some fp) =>
      (String.eqb ip "" || digits_ok ip) && (String.eqb fp "" || digits_ok fp)
      && negb (String.eqb ip "" && String.eqb fp "")
  end.

Definition exponent_ok (e : string) : bool := digits_ok (snd (split_sign e)).

(** Whether [float(s)] returns ([true]) or raises [ValueError]. *)
Definition py_float_ok (s : string) : bool :=
  let body := snd (split_sign (num_strip s)) in
  let lb := lower_str body in
  if String.eqb lb "inf" || String.eqb lb "infinity" || String.eqb lb "nan" then true
  else
    match break_at (fun c => Ascii.eqb (lower c) "e"%char) body with
    | (m, None) => mantissa_ok m
    | (m, Some e) => mantissa_ok m && exponent_ok e
    end.

(** *** [datetime.strptime]

    A directive is the ordered list of the ways its regular expression
    matches a prefix of the text; the first way through the whole format
    is the match, and it has to consume the whole text. *)

Definition directive := string -> list (Z * string).

Definition dval (c : ascii) : Z := code c - 48.

Definition in_range (lo hi : Z) (c : ascii) : bool :=
  (lo <=? dval c) && (dval c <=? hi).

(** Two characters [a] in [la..ha] then [b] in [lb..hb], read as a number. *)
Definition two (la ha lb hb : Z) : directive := fun s =>
  match s with
  | String a (String b r) =>
      if in_range la ha a && in_range lb hb b then [(10 * dval a + dval b, r)] else []
  | _ => []
  end.

Definition one (lo hi : Z) : directive := fun s =>
  match s with
  | String a r => if in_range lo hi a then [(dval a, r)] else []
  | _ => []
  end.

Definition space_then (d : directive) : directive := fun s =>
  match s with
  | String c r => if Ascii.eqb c " "%char then d r else []
  | _ => []
  end.

Definition alt (ds : list directive) : directive := fun s =>
  concat (map (fun d => d s) ds).

(** [%y] is [\d\d], [%Y] is [\d\d\d\d]. *)
Definition dir_y : directive := two 0 9 0 9.

Definition dir_Y : directive := fun s =>
  flat_map (fun '(hi, r) => map (fun '(lo, r') => (100 * hi + lo, r')) (two 0 9 0 9 r))
           (two 0 9 0 9 s).

(** [%m] is [1[0-2]|0[1-9]|[1-9]]. *)
Definition dir_m : directive := alt [two 1 1 0 2; two 0 0 1 9; one 1 9].

(** [%d] is [3[0-1]|[1-2]\d|0[1-9]|[1-9]| [1-9]]. *)
Definition dir_d : directive :=
  alt [two 3 3 0 1; two 1 2 0 9; two 0 0 1 9; one 1 9; space_then (one 1 9)].

(** [%H] is [2[0-3]|[0-1]\d|\d]. *)
Definition dir_H : directive := alt [two 2 2 0 3; two 0 1 0 9; one 0 9].

(** [%M] is [[0-5]\d|\d]. *)
Definition dir_M : directive := alt [two 0 5 0 9; one 0 9].

Definition is_leap (y : Z) : bool :=
  ((y mod 4 =? 0) && negb (y mod 100 =? 0)) || (y mod 400 =? 0).

Definition days_in_month (y m : Z) : Z :=
  if m =? 2 then (if is_leap y then 29 else 28)
  else if (m =? 4) || (m =? 6) || (m =? 9) || (m =? 11) then 30 else 31.

(** [datetime.date(y, m, d)] does not raise. *)
Definition date_ok (y m d : Z) : bool :=
  (1 <=? y) && (y <=? 9999) && (1 <=? m) && (m <=? 12)
  && (1 <=? d) && (d <=? days_in_month y m).

(** The first match of three directives in a row. *)
Definition match3 (a b c : directive) (s : string) : option (Z * Z * Z * string) :=
  head (flat_map (fun '(x, r1) =>
          flat_map (fun '(y, r2) =>
            map (fun '(z, r3) => (x, y, z, r3)) (c r2)) (b r1)) (a s)).

Definition match2 (a b : directive) (s : string) : option (Z * Z * string) :=
  head (flat_map (fun '(x, r1) => map (fun '(y, r2) => (x, y, r2)) (b r1)) (a s)).

(** Whether [datetime.strptime(s, '%y%m%d')] returns. *)
Definition strptime_ymd_ok (s : string) : bool :=
  match match3 dir_y dir_m dir_d s with
  | Some (y, m, d, r) =>
      String.eqb r "" && date_ok (if y <=? 68 then y + 2000 else y + 1900) m d
  | None => false
  end.

(** Whether [datetime.strptime(s, '%Y%m%d')] returns. *)
Definition strptime_Ymd_ok (s : string) : bool :=
  match match3 dir_Y dir_m dir_d s with
  | Some (y, m, d, r) => String.eqb r "" && date_ok y m d
  | None => false
  end.

(** Whether [datetime.strptime(s, '%H%M')] returns. *)
Definition strptime_HM_ok (s : string) : bool :=
  match match2 dir_H dir_M s with
  | Some (_, _, r) => String.eqb r ""
  | None => false
  end.

End PyLib.

(** ** The canonical data model ([cdm.py]) *)

Record CdmValidationError := mkError {
  message : string;
  err_line_number : option Z;
  err_segment_id : option string;
  element_xid : option string;
  is_identifier_error : bool
}.

(** [CdmValidationError(message=m)] *)
Definition error_of_message (m : string) : CdmValidationError :=
  mkError m None None None false.

Record CdmElement := mkElement {
  value : string;
  position : Z
}.

Record CdmSegment := mkSegment {
  segment_id : string;
  elements : list CdmElement;
  line_number : Z;
  raw_segment : string;
  errors : list CdmValidationError
}.

(** The address of a [CdmSegment] object. *)
Abbreviation loc := nat (only parsing).

(** A loop holds references to its segments; [loops] is a [dict], kept in
    the order in which its keys were inserted. *)
Inductive CdmLoop := mkLoop {
  loop_id : string;
  segments : list loc;
  loops : list (string * list CdmLoop);
  loop_errors : list CdmValidationError
}.

(** [CdmLoop(loop_id=x)] *)
Definition new_loop (x : string) : CdmLoop := mkLoop x [] [] [].

(** [loops[k].append(l)] for a key that is present. *)
Fixpoint loops_append (k : string) (l : CdmLoop) (d : list (string * list CdmLoop))
  : list (string * list CdmLoop) :=
  match d with
  | [] => []
  | (k', ls) :: r =>
      if String.eqb k' k then (k', ls ++ [l]) :: r else (k', ls) :: loops_append k l r
  end.

Definition loops_has (k : string) (d : list (string * list CdmLoop)) : bool :=
  existsb (fun kv => String.eqb (fst kv) k) d.

(** [CdmLoop.add_loop] *)
Definition add_loop (self : CdmLoop) (loop : CdmLoop) : CdmLoop :=
  let d := if loops_has (loop_id loop) (loops self)
           then loops self
           else loops self ++ [(loop_id loop, [])] in
  mkLoop (loop_id self) (segments self) (loops_append (loop_id loop) loop d) (loop_errors self).

Definition loop_add_segment (self : CdmLoop) (l : loc) : CdmLoop :=
  mkLoop (loop_id self) (segments self ++ [l]) (loops self) (loop_errors self).

Definition loop_add_errors (self : CdmLoop) (es : list CdmValidationError) : CdmLoop :=
  mkLoop (loop_id self) (segments self) (loops self) (loop_errors self ++ es).

Record CdmTransaction := mkTransaction {
  txn_header : loc;
  txn_trailer : loc;
  body : CdmLoop;
  txn_errors : list CdmValidationError
}.

Record CdmFunctionalGroup := mkGroup {
  grp_header : loc;
  grp_trailer : loc;
  transactions : list CdmTransaction;
  grp_errors : list CdmValidationError
}.

Record CdmInterchange := mkInterchange {
  header : loc;
  trailer : loc;
  functional_groups : list CdmFunctionalGroup;
  ich_errors : list CdmValidationError
}.

(** ** The schema model ([edi_schema_models.py]) *)

(** A value of type [Any] in a syntax rule: a string or an integer. *)
Inductive PyVal := PyS (s : string) | PyI (n : Z).

Definition py_str (v : PyVal) : string :=
  match v with PyS s => s | PyI n => PyStr.of_Z n end.

Inductive Operator := IS | IS_NOT | IS_PRESENT | IS_NOT_PRESENT.

Record ConditionClause := mkClause {
  cl_element : string;
  operator : Operator;
  cl_value : option PyVal
}.

Record Conditions := mkConditions {
  ALL_OF : option (list ConditionClause);
  ANY_OF : option (list ConditionClause)
}.

Inductive Assertion :=
  MUST_BE_FORMAT | MUST_HAVE_LENGTH | MUST_BE_PRESENT | MUST_NOT_BE_PRESENT
| ANY_OF_MUST_BE_PRESENT.

Record AssertionClause := mkAssertion {
  as_element : option string;
  as_elements : option (list string);
  assertion : Assertion;
  as_value : option PyVal
}.

Record SyntaxRule := mkRule {
  ruleId : string;
  conditions : Conditions;
  then_ : list AssertionClause
}.

Record CodeDefinition := mkCode {
  code : string;
  code_description : string
}.

(** [format: Optional[Union[str, List[str]]]] *)
Inductive Format := FmtStr (s : string) | FmtList (l : list string).

(** The entry [sub_elements] of an element dictionary: absent, a list of
    element dictionaries, or a value that is not a list. *)
Inductive SubVal (E : Type) := NoSub | SubList (l : list E) | SubOther.
Arguments NoSub {E}.
Arguments SubList {E} l.
Arguments SubOther {E}.

(** [BaseElement], and the dictionary [model_dump(exclude_none=True)] makes
    of it: an optional field that is [None] is a key that is absent.  The
    fields [data_ele], [name] and [description] are never read. *)
Inductive BaseElement := mkBaseElement {
  el_xid : string;
  el_usage : string;
  el_seq : Z;
  dataType : string;
  minLength : option Z;
  maxLength : option Z;
  format : option Format;
  valid_codes : option (list CodeDefinition);
  sub_elements : SubVal BaseElement;
  is_identifier : bool
}.

Record SegmentDefinition := mkSegmentDefinition {
  sd_id : string;
  sd_name : string;
  sd_usage : string;
  sd_max_use : Z;
  sd_elements : list BaseElement;
  rules : option (list SyntaxRule)
}.

(** The override of one element in a [ContextualDefinition]: the source
    types it [Any]; the model covers the overrides that are dictionaries
    whose entries have the types of the [BaseElement] fields, with
    [sub_elements] a dictionary keyed by sub-element xid or a list. *)
Inductive SubOverride (O : Type) :=
  SubOvDict (d : gmap string O) | SubOvList (l : list BaseElement).
Arguments SubOvDict {O} d.
Arguments SubOvList {O} l.

Inductive ElemOverride := mkOverride {
  o_xid : option string;
  o_usage : option string;
  o_seq : option Z;
  o_dataType : option string;
  o_minLength : option Z;
  o_maxLength : option Z;
  o_format : option Format;
  o_valid_codes : option (list CodeDefinition);
  o_sub_elements : option (SubOverride ElemOverride);
  o_is_identifier : option bool
}.

Record ContextualDefinition := mkContextualDefinition {
  cd_id : string;
  cd_name : string;
  cd_elements : option (gmap string ElemOverride)
}.

Record StructureSegment := mkStructureSegment {
  ss_xid : string;
  ss_name : option string;
  ss_usage : string;
  max_use : Z;
  segmentDefinitionId : option string;
  baseDefinitionId : option string;
  contextDefinitionId : option string
}.

(** [repeat: Union[str, int]] *)
Inductive Repeat := RepeatInt (n : Z) | RepeatStr (s : string).

(** [StructureChild = Union[StructureLoop, StructureSegment]] *)
Inductive StructureChild :=
| Seg (s : StructureSegment)
| Loop (xid : string) (name : string) (usage : string) (repeat : Repeat)
       (children : list StructureChild).

Definition node_xid (n : StructureChild) : string :=
  match n with Seg s => ss_xid s | Loop x _ _ _ _ => x end.

(** [node.name] as an f-string prints it: [None] for an absent name. *)
Definition node_name_str (n : StructureChild) : string :=
  match n with
  | Seg s => default "None" (ss_name s)
  | Loop _ nm _ _ _ => nm
  end.

Definition node_usage (n : StructureChild) : string :=
  match n with Seg s => ss_usage s | Loop _ _ u _ _ => u end.

Record ImplementationGuideSchema := mkSchema {
  transactionName : string;
  version : string;
  contextualDefinitions : gmap string ContextualDefinition;
  segmentDefinitions : gmap string SegmentDefinition;
  structure : list StructureChild
}.

(** ** Exceptions and the store *)

Inductive exn :=
| ValueError (msg : string)
| KeyError (key : string)
| IndexError (msg : string)
| AttributeError (msg : string).

(** [str(e)] *)
Definition exn_str (e : exn) : string :=
  match e with
  | ValueError m => m
  | KeyError k => PyStr.repr k
  | IndexError m => m
  | AttributeError m => m
  end.

(** A computation that reads no object: a value or an exception. *)
Inductive result (A : Type) := Ok (a : A) | Err (e : exn).
Arguments Ok {A} a.
Arguments Err {A} e.

Definition rbind {A B} (r : result A) (k : A -> result B) : result B :=
  match r with Ok a => k a | Err e => Err e end.

(** [int(s)] where a failure is not caught. *)
Definition int_or_raise (s : string) : result Z :=
  match PyStr.py_int s with
  | Some n => Ok n
  | None =>
      match PyStr.int_over_limit s with
      | Some n =>
          Err (ValueError ("Exceeds the limit (4300 digits) for integer string conversion: "
                           +:+ "value has " +:+ PyStr.of_Z n
                           +:+ " digits; use sys.set_int_max_str_digits() to increase the limit"))
      | None =>
          Err (ValueError ("invalid literal for int() with base 10: " +:+ PyStr.repr s))
      end
  end.

Abbreviation heap := (list CdmSegment) (only parsing).

Inductive outcome (A : Type) :=
| Ret (a : A) (h : heap)
| Raise (e : exn) (h : heap)
| OutOfFuel.
Arguments Ret {A} a h.
Arguments Raise {A} e h.
Arguments OutOfFuel {A}.

(** A computation over the store. *)
Definition M (A : Type) := heap -> outcome A.

Definition ret {A} (a : A) : M A := fun h => Ret a h.

Definition bind {A B} (m : M A) (k : A -> M B) : M B := fun h =>
  match m h with
  | Ret a h' => k a h'
  | Raise e h' => Raise e h'
  | OutOfFuel => OutOfFuel
  end.

Definition raise {A} (e : exn) : M A := fun h => Raise e h.

Definition lift {A} (r : result A) : M A :=
  match r with Ok a => ret a | Err e => raise e end.

Declare Scope m_scope.
Delimit Scope m_scope with M.
Notation "'let*' x := m 'in' k" := (bind m (fun x => k))
  (at level 10, x pattern, m at level 100, k at level 200) : m_scope.
Notation "'let+' x := r 'in' k" := (rbind r (fun x => k))
  (at level 10, x pattern, r at level 100, k at level 200) : m_scope.
Local Open Scope m_scope.

Definition dummy_segment : CdmSegment := mkSegment "" [] 0 "" [].

(** Reading the object at an address. *)
Definition deref (h : heap) (l : loc) : CdmSegment := nth l h dummy_segment.

Definition read (l : loc) : M CdmSegment := fun h => Ret (deref h l) h.

(** Allocating a new object. *)
Definition alloc (s : CdmSegment) : M loc := fun h => Ret (length h) (h ++ [s]).

Definition extend_errors (es : list CdmValidationError) (s : CdmSegment) : CdmSegment :=
  mkSegment (segment_id s) (elements s) (line_number s) (raw_segment s) (errors s ++ es).

(** [segment.errors.extend(es)] *)
Definition errors_extend (l : loc) (es : list CdmValidationError) : M unit :=
  fun h => Ret tt (alter (extend_errors es) l h).

(** [CdmSegment.get_element] *)
Definition seg_get_element (s : CdmSegment) (pos : Z) : option string :=
  if (1 <=? pos) && (pos <=? Z.of_nat (length (elements s)))
  then option_map value (nth_error (elements s) (Z.to_nat (pos - 1)))
  else None.

Definition get_element (l : loc) (pos : Z) : M (option string) :=
  let* s := read l in ret (seg_get_element s pos).

(** [x or d] for an optional string [x]. *)
Definition or_str (x : option string) (d : string) : string :=
  match x with
  | Some s => if String.eqb s "" then d else s
  | None => d
  end.

(** ** Validation helpers ([edi_parser.py]) *)

Definition str_in (x : string) (l : list string) : bool :=
  existsb (String.eqb x) l.

(** [_validate_data_type] *)
Definition _validate_data_type (value data_type : string) : bool :=
  if String.eqb data_type "Composite" then true
  else if str_in data_type ["AN"; "ID"] then true
  else if str_in data_type ["N0"; "N1"; "N2"; "R"] then
    if String.eqb value "" then true else PyLib.py_float_ok value
  else if str_in data_type ["DT"; "TM"] then true
  else false.

(** [_validate_format]: the [HHMM] branch calls [int] on the two halves of
    a value that passed [isdigit], outside any [try]. *)
Definition _validate_format (value : string) (data_format : Format) : result bool :=
  if String.eqb value "" then Ok true
  else match data_format with
  | FmtStr f =>
      if String.eqb f "CCYYMMDD" then
        if negb ((PyStr.len value =? 8) && PyStr.str_isdigit value) then Ok false
        else Ok (PyLib.strptime_Ymd_ok value)
      else if String.eqb f "HHMM" then
        if negb ((PyStr.len value =? 4) && PyStr.str_isdigit value) then Ok false
        else
          let+ hh := int_or_raise (PyStr.take 2 value) in
          if negb ((0 <=? hh) && (hh <=? 23)) then Ok false
          else
            let+ mm := int_or_raise (PyStr.drop 2 value) in
            Ok ((0 <=? mm) && (mm <=? 59))
      else Ok true
  | FmtList _ => Ok true
  end.

(** Writing the entries of an override into an element dictionary; the
    entry [sub_elements] is written as it is. *)
Definition apply_override (ov : ElemOverride) (e : BaseElement) : BaseElement :=
  mkBaseElement
    (default (el_xid e) (o_xid ov))
    (default (el_usage e) (o_usage ov))
    (default (el_seq e) (o_seq ov))
    (default (dataType e) (o_dataType ov))
    (match o_minLength ov with Some n => Some n | None => minLength e end)
    (match o_maxLength ov with Some n => Some n | None => maxLength e end)
    (match o_format ov with Some f => Some f | None => format e end)
    (match o_valid_codes ov with Some c => Some c | None => valid_codes e end)
    (match o_sub_elements ov with
     | Some (SubOvList l) => SubList l
     | Some (SubOvDict _) => SubOther
     | None => sub_elements e
     end)
    (default (is_identifier e) (o_is_identifier ov)).

Definition set_sub_elements (e : BaseElement) (v : SubVal BaseElement) : BaseElement :=
  mkBaseElement (el_xid e) (el_usage e) (el_seq e) (dataType e) (minLength e)
    (maxLength e) (format e) (valid_codes e) v (is_identifier e).

(** [del overrides['sub_elements']] *)
Definition del_sub_elements (ov : ElemOverride) : ElemOverride :=
  mkOverride (o_xid ov) (o_usage ov) (o_seq ov) (o_dataType ov) (o_minLength ov)
    (o_maxLength ov) (o_format ov) (o_valid_codes ov) None (o_is_identifier ov).

(** The update of the base sub-elements by the overrides keyed by their
    xid: only a list is updated, and only by a dictionary. *)
Definition merge_sub_elements (base_sub : SubVal BaseElement)
    (override_sub : SubOverride ElemOverride) : SubVal BaseElement :=
  match base_sub, override_sub with
  | SubList bs, SubOvDict d =>
      SubList (map (fun b => match d !! el_xid b with
                             | Some ov => apply_override ov b
                             | None => b
                             end) bs)
  | _, _ => base_sub
  end.

Definition has_sub (e : BaseElement) : bool :=
  match sub_elements e with NoSub => false | _ => true end.

(** The loop of [_get_effective_definition] over the base elements; the
    override dictionary is threaded through, since the loop deletes from
    it. *)
Fixpoint merge_elements (context_elements : gmap string ElemOverride)
    (els : list BaseElement) : list BaseElement :=
  match els with
  | [] => []
  | base_el :: r =>
      match context_elements !! el_xid base_el with
      | Some overrides =>
          match o_sub_elements overrides with
          | Some osub =>
              if has_sub base_el then
                let base_el' := set_sub_elements base_el (merge_sub_elements (sub_elements base_el) osub) in
                let overrides' := del_sub_elements overrides in
                apply_override overrides' base_el'
                  :: merge_elements (<[el_xid base_el := overrides']> context_elements) r
              else apply_override overrides base_el :: merge_elements context_elements r
          | None => apply_override overrides base_el :: merge_elements context_elements r
          end
      | None => base_el :: merge_elements context_elements r
      end
  end.

(** [_get_effective_definition] *)
Definition _get_effective_definition (base_def : SegmentDefinition)
    (context_def : option ContextualDefinition) : SegmentDefinition :=
  match context_def with
  | None => base_def
  | Some cd =>
      match cd_elements cd with
      | None => base_def
      | Some context_elements =>
          if decide (context_elements = ∅) then base_def
          else mkSegmentDefinition (sd_id base_def) (sd_name base_def) (sd_usage base_def)
                 (sd_max_use base_def) (merge_elements context_elements (sd_elements base_def))
                 (rules base_def)
      end
  end.

(** [l[k]] for a Python list, with the negative indices. *)
Definition py_list_index (l : list string) (k : Z) : result string :=
  let n := Z.of_nat (length l) in
  let k' := if k <? 0 then k + n else k in
  if (0 <=? k') && (k' <? n)
  then Ok (nth (Z.to_nat k') l "")
  else Err (IndexError "list index out of range").

Fixpoint insert_sorted (x : string) (l : list string) : list string :=
  match l with
  | [] => [x]
  | y :: r =>
      if String.eqb x y then l
      else if String.ltb x y then x :: l
      else y :: insert_sorted x r
  end.

(** [sorted(list(set(l)))] *)
Definition sorted_set (l : list string) : list string :=
  fold_right insert_sorted [] l.

Definition format_truthy (f : Format) : bool :=
  match f with
  | FmtStr s => negb (String.eqb s "")
  | FmtList l => match l with [] => false | _ => true end
  end.

(** [str(f)] *)
Definition format_str (f : Format) : string :=
  match f with
  | FmtStr s => s
  | FmtList l => "[" +:+ PyStr.join ", " (map PyStr.repr l) +:+ "]"
  end.

Definition element_error (m full_xid : string) (is_id : bool) : CdmValidationError :=
  mkError m None None (Some full_xid) is_id.

(** The checks of [_validate_element_recursively] on a value that is
    present and not a composite. *)
Definition scalar_checks (e : BaseElement) (full_xid value : string)
    (errors0 : list CdmValidationError) : result (list CdmValidationError) :=
  let is_id := is_identifier e in
  let errors1 := errors0 ++
    match minLength e with
    | Some min_len =>
        if PyStr.len value <? min_len
        then [element_error ("Element '" +:+ full_xid +:+ "': Value is shorter than min length "
                             +:+ PyStr.of_Z min_len +:+ ".") full_xid is_id]
        else []
    | None => []
    end in
  let errors2 := errors1 ++
    match maxLength e with
    | Some max_len =>
        if max_len <? PyStr.len value
        then [element_error ("Element '" +:+ full_xid +:+ "': Value is longer than max length "
                             +:+ PyStr.of_Z max_len +:+ ".") full_xid is_id]
        else []
    | None => []
    end in
  let data_type := dataType e in
  let errors3 := errors2 ++
    (if negb (String.eqb data_type "") && negb (_validate_data_type value data_type)
     then [element_error ("Element '" +:+ full_xid +:+ "': Value does not match expected data type '"
                          +:+ data_type +:+ "'.") full_xid is_id]
     else []) in
  let+ format_errors :=
    match format e with
    | Some data_format =>
        if format_truthy data_format then
          let+ ok := _validate_format value data_format in
          Ok (if ok then []
              else [element_error ("Element '" +:+ full_xid +:+ "': Value does not match expected format '"
                                   +:+ format_str data_format +:+ "'.") full_xid is_id])
        else Ok []
    | None => Ok []
    end in
  let errors4 := errors3 ++ format_errors in
  Ok (errors4 ++
      match valid_codes e with
      | Some (c :: cs) =>
          let allowed_codes := map code (c :: cs) in
          if str_in value allowed_codes then []
          else [element_error ("Element '" +:+ full_xid +:+ "': Invalid code value. Allowed: "
                               +:+ PyStr.join ", " (sorted_set allowed_codes) +:+ ".") full_xid is_id]
      | _ => []
      end).

(** [SegmentValidator._validate_element_recursively] *)
Fixpoint _validate_element_recursively (component_separator : ascii)
    (element_def : BaseElement) (value : string) (parent_xid : option string)
    {struct element_def} : result (list CdmValidationError) :=
  let xid := el_xid element_def in
  let full_xid :=
    match parent_xid with
    | Some p => if String.eqb p "" then xid else p +:+ "-" +:+ xid
    | None => xid
    end in
  let usage := el_usage element_def in
  let is_present := negb (String.eqb value "") in
  let is_id := is_identifier element_def in
  if String.eqb usage "R" && negb is_present then
    Ok [element_error ("Required element '" +:+ full_xid +:+ "' is missing.") full_xid is_id]
  else
    let errors :=
      if String.eqb usage "N" && is_present
      then [element_error ("Element '" +:+ full_xid +:+ "' is Not Used and should not contain data.")
                          full_xid is_id]
      else [] in
    if negb is_present then Ok errors
    else if String.eqb (dataType element_def) "Composite" then
      let sub_element_values := PyStr.split component_separator value in
      match sub_elements element_def with
      | SubList sub_element_defs =>
          (fix each (defs : list BaseElement) (errors : list CdmValidationError)
             : result (list CdmValidationError) :=
             match defs with
             | [] => Ok errors
             | sub_def :: rest =>
                 let sub_pos := el_seq sub_def in
                 if sub_pos =? 0 then each rest errors
                 else
                   let+ sub_value :=
                     (if sub_pos - 1 <? Z.of_nat (length sub_element_values)
                      then py_list_index sub_element_values (sub_pos - 1)
                      else Ok "") in
                   let+ es := _validate_element_recursively component_separator sub_def sub_value
                                (Some full_xid) in
                   each rest (errors ++ es)
             end) sub_element_defs errors
      | _ => Ok errors
      end
    else scalar_checks element_def full_xid value errors.

(** ** The segment validator *)

Record SegmentValidator := mkValidator {
  sv_schema : ImplementationGuideSchema;
  sv_component_separator : ascii
}.

(** [int(re.sub(r'\D', '', element_id))] *)
Definition element_position (element_id : string) : result Z :=
  int_or_raise (PyStr.only_digits element_id).

(** [value == v] for a string [value]. *)
Definition str_eq_val (value : string) (v : PyVal) : bool :=
  match v with PyS s => String.eqb value s | PyI _ => false end.

(** [SegmentValidator._evaluate_condition_clause] *)
Definition _evaluate_condition_clause (segment : loc) (clause : ConditionClause) : M bool :=
  let* pos := lift (element_position (cl_element clause)) in
  let* v := get_element segment pos in
  let value := or_str v "" in
  match operator clause with
  | IS_PRESENT => ret (negb (String.eqb (PyStr.strip value) ""))
  | IS_NOT_PRESENT => ret (String.eqb (PyStr.strip value) "")
  | IS =>
      match cl_value clause with
      | Some cv => ret (str_eq_val value cv)
      | None => raise (KeyError "value")
      end
  | IS_NOT =>
      match cl_value clause with
      | Some cv => ret (negb (str_eq_val value cv))
      | None => raise (KeyError "value")
      end
  end.

(** [all(... for clause in clauses)] and [any(...)]: they stop at the
    first clause that decides. *)
Fixpoint all_clauses (segment : loc) (clauses : list ConditionClause) : M bool :=
  match clauses with
  | [] => ret true
  | c :: r =>
      let* b := _evaluate_condition_clause segment c in
      if b then all_clauses segment r else ret false
  end.

Fixpoint any_clause (segment : loc) (clauses : list ConditionClause) : M bool :=
  match clauses with
  | [] => ret false
  | c :: r =>
      let* b := _evaluate_condition_clause segment c in
      if b then ret true else any_clause segment r
  end.

(** [SegmentValidator._evaluate_conditions] *)
Definition _evaluate_conditions (segment : loc) (conds : Conditions) : M bool :=
  match ALL_OF conds with
  | Some cls => all_clauses segment cls
  | None =>
      match ANY_OF conds with
      | Some cls => any_clause segment cls
      | None => ret true
      end
  end.

(** [[int(re.sub(...)) for el_id in element_ids]] *)
Fixpoint element_positions (element_ids : list string) : result (list Z) :=
  match element_ids with
  | [] => Ok []
  | x :: r =>
      let+ p := element_position x in
      let+ ps := element_positions r in
      Ok (p :: ps)
  end.

(** [any(segment.get_element(pos) for pos in positions)] *)
Fixpoint any_present (segment : loc) (positions : list Z) : M bool :=
  match positions with
  | [] => ret false
  | p :: r =>
      let* v := get_element segment p in
      if negb (String.eqb (or_str v "") "") then ret true else any_present segment r
  end.

Definition assertion_result (failed : bool) (rule_id log_detail : string)
  : list CdmValidationError :=
  if failed
  then [error_of_message ("Syntax Rule Failed (" +:+ rule_id +:+ "): " +:+ log_detail)]
  else [].

Definition required_key {A} (k : string) (x : option A) : M A :=
  match x with Some a => ret a | None => raise (KeyError k) end.

(** [SegmentValidator._execute_assertion] *)
Definition _execute_assertion (segment : loc) (a : AssertionClause) (rule_id : string)
  : M (list CdmValidationError) :=
  match assertion a with
  | MUST_BE_PRESENT =>
      let* element_id := required_key "element" (as_element a) in
      let* pos := lift (element_position element_id) in
      let* v := get_element segment pos in
      let value := or_str v "" in
      ret (assertion_result (String.eqb (PyStr.strip value) "") rule_id
             ("Asserting " +:+ element_id +:+ " MUST BE PRESENT. Data='" +:+ value +:+ "'"))
  | MUST_HAVE_LENGTH =>
      let* element_id := required_key "element" (as_element a) in
      let* pos := lift (element_position element_id) in
      let* v := get_element segment pos in
      let value := or_str v "" in
      let* expected_length := required_key "value" (as_value a) in
      let failed :=
        match expected_length with
        | PyI n => negb (PyStr.len value =? n)
        | PyS _ => true
        end in
      ret (assertion_result failed rule_id
             ("Asserting " +:+ element_id +:+ " MUST HAVE LENGTH " +:+ py_str expected_length
              +:+ ". Data='" +:+ value +:+ "' (length=" +:+ PyStr.of_Z (PyStr.len value) +:+ ")"))
  | ANY_OF_MUST_BE_PRESENT =>
      let* element_ids := required_key "elements" (as_elements a) in
      let* positions := lift (element_positions element_ids) in
      let* found := any_present segment positions in
      ret (assertion_result (negb found) rule_id
             ("Asserting ANY OF " +:+ PyStr.join ", " element_ids +:+ " MUST BE PRESENT."))
  | MUST_BE_FORMAT | MUST_NOT_BE_PRESENT => ret []
  end.

Fixpoint execute_assertions (segment : loc) (asserts : list AssertionClause)
    (rule_id : string) : M (list CdmValidationError) :=
  match asserts with
  | [] => ret []
  | a :: r =>
      let* es := _execute_assertion segment a rule_id in
      let* es' := execute_assertions segment r rule_id in
      ret (es ++ es')
  end.

Fixpoint each_rule (segment : loc) (rs : list SyntaxRule) : M (list CdmValidationError) :=
  match rs with
  | [] => ret []
  | rule :: r =>
      let* conditions_met := _evaluate_conditions segment (conditions rule) in
      let* es := (if conditions_met
                  then execute_assertions segment (then_ rule) (ruleId rule)
                  else ret []) in
      let* es' := each_rule segment r in
      ret (es ++ es')
  end.

(** [SegmentValidator._validate_syntax_rules] *)
Definition _validate_syntax_rules (segment : loc) (effective_def : SegmentDefinition)
  : M (list CdmValidationError) :=
  each_rule segment (default [] (rules effective_def)).

(** [{el.position: el.value for el in segment.elements}] *)
Definition elements_in_data (els : list CdmElement) : gmap Z string :=
  fold_left (fun m el => <[position el := value el]> m) els ∅.

Fixpoint each_element (component_separator : ascii) (data : gmap Z string)
    (defs : list BaseElement) : result (list CdmValidationError) :=
  match defs with
  | [] => Ok []
  | element_def :: r =>
      let el_pos := el_seq element_def in
      if el_pos =? 0 then each_element component_separator data r
      else
        let value_in_data := default "" (data !! el_pos) in
        let+ es := _validate_element_recursively component_separator element_def
                     value_in_data None in
        let+ es' := each_element component_separator data r in
        Ok (es ++ es')
  end.

(** The contextual definition [validate] looks up: none for an absent or
    empty context id. *)
Definition lookup_context (schema : ImplementationGuideSchema) (context_id : option string)
  : option ContextualDefinition :=
  match context_id with
  | Some c => if String.eqb c "" then None else contextualDefinitions schema !! c
  | None => None
  end.

(** [SegmentValidator.validate] *)
Definition validate (self : SegmentValidator) (segment : loc) (context_id : option string)
  : M (list CdmValidationError) :=
  let* seg := read segment in
  match segmentDefinitions (sv_schema self) !! segment_id seg with
  | None =>
      ret [error_of_message ("Base definition for segment '" +:+ segment_id seg
                             +:+ "' not found in schema.")]
  | Some base_def =>
      let context_def := lookup_context (sv_schema self) context_id in
      let effective_def := _get_effective_definition base_def context_def in
      let* seg' := read segment in
      let data := elements_in_data (elements seg') in
      let* errors := lift (each_element (sv_component_separator self) data
                             (sd_elements effective_def)) in
      let* rule_errors := _validate_syntax_rules segment effective_def in
      ret (errors ++ rule_errors)
  end.

(** ** The parser ([EdiParser]) *)

Record EdiParser := mkParser {
  schema : ImplementationGuideSchema;
  element_delimiter : ascii;
  segment_terminator : ascii;
  component_separator : ascii;
  all_segments : list loc;
  validator : SegmentValidator
}.

(** [EdiParser._detect_delimiters]: element, segment and component
    delimiters, in this order. *)
Definition _detect_delimiters (edi_string : string) : ascii * ascii * ascii :=
  let clean_edi := PyStr.strip edi_string in
  if PyStr.startswith "ISA" clean_edi && (106 <=? PyStr.len clean_edi) then
    match PyStr.index clean_edi 3, PyStr.index clean_edi 105, PyStr.index clean_edi 104 with
    | Some e, Some t, Some c => (e, t, c)
    | _, _, _ => ("*"%char, "~"%char, ":"%char)
    end
  else ("*"%char, "~"%char, ":"%char).

(** [[CdmElement(value=value, position=idx + 1) for idx, value in enumerate(parts)]] *)
Fixpoint enumerate_elements (idx : Z) (parts : list string) : list CdmElement :=
  match parts with
  | [] => []
  | v :: r => mkElement v (idx + 1) :: enumerate_elements (idx + 1) r
  end.

(** The loop of [_segmentize] over the raw pieces, from index [i]. *)
Fixpoint segmentize_from (element_delimiter : ascii) (i : Z) (raw_segments : list string)
  : list CdmSegment :=
  match raw_segments with
  | [] => []
  | seg_str :: r =>
      let clean_seg := PyStr.strip seg_str in
      if String.eqb clean_seg "" then segmentize_from element_delimiter (i + 1) r
      else
        let parts := PyStr.split element_delimiter clean_seg in
        let segment_id := hd "" parts in
        let seg := mkSegment segment_id (enumerate_elements 0 (tl parts)) (i + 1) clean_seg [] in
        if String.eqb segment_id "IEA" then [seg]
        else seg :: segmentize_from element_delimiter (i + 1) r
  end.

(** [EdiParser._segmentize]: the segment objects, not yet allocated. *)
Definition _segmentize (element_delimiter segment_terminator : ascii) (edi_string : string)
  : list CdmSegment :=
  let edi_content :=
    PyStr.replace_char PyStr.CR PyStr.LF (PyStr.replace_crlf (PyStr.strip edi_string)) in
  let edi_content :=
    if negb (Ascii.eqb segment_terminator PyStr.LF)
    then PyStr.remove_char PyStr.LF edi_content
    else edi_content in
  segmentize_from element_delimiter 0 (PyStr.split segment_terminator edi_content).

Fixpoint alloc_all (segs : list CdmSegment) : M (list loc) :=
  match segs with
  | [] => ret []
  | s :: r =>
      let* l := alloc s in
      let* ls := alloc_all r in
      ret (l :: ls)
  end.

(** [EdiParser.__init__] *)
Definition EdiParser_init (edi_string : string) (sch : ImplementationGuideSchema) : M EdiParser :=
  let '(e, t, c) := _detect_delimiters edi_string in
  let* segs := alloc_all (_segmentize e t edi_string) in
  ret (mkParser sch e t c segs (mkValidator sch c)).

(** [EdiParser._find_next_segment]: [None] stands for the result [-1]. *)
Fixpoint find_from (sid : string) (i : nat) (segs : list loc) : M (option nat) :=
  match segs with
  | [] => ret None
  | l :: r =>
      let* s := read l in
      if String.eqb (segment_id s) sid then ret (Some i) else find_from sid (S i) r
  end.

Definition _find_next_segment (sid : string) (segs : list loc) (start_index : nat)
  : M (option nat) :=
  find_from sid start_index (drop start_index segs).

(** [EdiParser._get_starting_segment_id] *)
Fixpoint _get_starting_segment_id (node : StructureChild) : option string :=
  match node with
  | Seg s => Some (ss_xid s)
  | Loop _ _ _ _ (first :: _) => _get_starting_segment_id first
  | Loop _ _ _ _ [] => None
  end.

(** The repeat limit of a node in [_find_best_schema_match]: [max_use] of
    a segment, [int(repeat)] of a loop, and 99999 when [int] raises. *)
Definition max_repeats (node : StructureChild) : Z :=
  match node with
  | Seg s => max_use s
  | Loop _ _ _ (RepeatInt n) _ => n
  | Loop _ _ _ (RepeatStr r) _ => default 99999 (PyStr.py_int r)
  end.

(** The context id of the trial validation. *)
Definition trial_context_id (node : StructureChild) : option string :=
  match node with
  | Seg s => contextDefinitionId s
  | Loop _ _ _ _ (Seg first :: _) => contextDefinitionId first
  | Loop _ _ _ _ _ => None
  end.

Definition usage_of (usage_counts : gmap nat Z) (i : nat) : Z :=
  default 0 (usage_counts !! i).

Definition opt_str_eqb (a : option string) (b : string) : bool :=
  match a with Some x => String.eqb x b | None => false end.

(** The loop of [_find_best_schema_match] over the nodes, from index [i]. *)
Fixpoint find_best_from (v : SegmentValidator) (current_segment : loc)
    (usage_counts : gmap nat Z) (i : nat) (nodes : list StructureChild)
  : M (option (StructureChild * nat)) :=
  match nodes with
  | [] => ret None
  | schema_node :: rest =>
      if max_repeats schema_node <=? usage_of usage_counts i
      then find_best_from v current_segment usage_counts (S i) rest
      else
        let* seg := read current_segment in
        if negb (opt_str_eqb (_get_starting_segment_id schema_node) (segment_id seg))
        then find_best_from v current_segment usage_counts (S i) rest
        else
          let* trial_errors := validate v current_segment (trial_context_id schema_node) in
          match filter (fun e => is_identifier_error e = true) trial_errors with
          | [] => ret (Some (schema_node, i))
          | _ :: _ => find_best_from v current_segment usage_counts (S i) rest
          end
  end.

(** [EdiParser._find_best_schema_match]: [None] stands for [(None, -1)]. *)
Definition _find_best_schema_match (self : EdiParser) (current_segment : loc)
    (schema_nodes : list StructureChild) (usage_counts : gmap nat Z)
  : M (option (StructureChild * nat)) :=
  find_best_from (validator self) current_segment usage_counts 0%nat schema_nodes.

(** [{i: 0 for i in range(n)}] *)
Fixpoint zero_counts (n : nat) : gmap nat Z :=
  match n with
  | O => ∅
  | S k => <[k := 0]> (zero_counts k)
  end.

Definition required_missing_message (node : StructureChild) (parent_loop_id : string) : string :=
  "Required segment or loop '" +:+ node_xid node +:+ "' (" +:+ node_name_str node
  +:+ ") is missing from loop '" +:+ parent_loop_id +:+ "'.".

(** The check after the loop of [_build_tree], from index [i]. *)
Fixpoint required_missing_from (parent_loop_id : string) (usage_counts : gmap nat Z)
    (i : nat) (nodes : list StructureChild) : list CdmValidationError :=
  match nodes with
  | [] => []
  | node :: rest =>
      (if String.eqb (node_usage node) "R" && (usage_of usage_counts i =? 0)
       then [error_of_message (required_missing_message node parent_loop_id)]
       else [])
      ++ required_missing_from parent_loop_id usage_counts (S i) rest
  end.

Definition required_missing (parent_loop_id : string) (usage_counts : gmap nat Z)
    (nodes : list StructureChild) : list CdmValidationError :=
  required_missing_from parent_loop_id usage_counts 0%nat nodes.

(** The state of the [while] loop of [_build_tree]: the loop under
    construction, the cursor and the usage counts. *)
Definition tree_state : Type := CdmLoop * nat * gmap nat Z.

(** The end of [_build_tree]: the findings for the required nodes that
    were never used, and the result. *)
Definition build_tree_finish (schema_nodes : list StructureChild) (parent_loop_id : string)
    (st : tree_state) : CdmLoop * nat :=
  let '(cdm_loop, cursor, usage_counts) := st in
  (loop_add_errors cdm_loop (required_missing parent_loop_id usage_counts schema_nodes), cursor).

(** [usage_counts[i] += 1] *)
Definition increment (usage_counts : gmap nat Z) (i : nat) : gmap nat Z :=
  <[i := usage_of usage_counts i + 1]> usage_counts.

(** The [while] loop of [_build_tree], from a state to the state in which
    it exits.  The recursive call of [_build_tree] on a sub-loop is the
    loop on the children from the initial state, followed by
    [build_tree_finish].  One unit of fuel is spent per iteration. *)
Fixpoint build_tree_while (fuel : nat) (self : EdiParser) (segs : list loc)
    (schema_nodes : list StructureChild) (cdm_loop : CdmLoop) (cursor : nat)
    (usage_counts : gmap nat Z) : M tree_state :=
  match fuel with
  | O => fun _ => OutOfFuel
  | S fuel' =>
      match segs !! cursor with
      | None => ret (cdm_loop, cursor, usage_counts)
      | Some current_segment =>
          let* found := _find_best_schema_match self current_segment schema_nodes usage_counts in
          match found with
          | Some (Seg s, schema_node_index) =>
              let* validation_errors :=
                validate (validator self) current_segment (contextDefinitionId s) in
              let* _ := errors_extend current_segment validation_errors in
              build_tree_while fuel' self segs schema_nodes
                (loop_add_segment cdm_loop current_segment) (S cursor)
                (increment usage_counts schema_node_index)
          | Some (Loop xid _ _ _ children, schema_node_index) =>
              let* st := build_tree_while fuel' self (drop cursor segs) children
                           (new_loop xid) 0%nat (zero_counts (length children)) in
              let '(sub_loop, segments_consumed) := build_tree_finish children xid st in
              build_tree_while fuel' self segs schema_nodes
                (loop_add_errors (add_loop cdm_loop sub_loop) (loop_errors sub_loop))
                (cursor + segments_consumed)%nat
                (increment usage_counts schema_node_index)
          | None => ret (cdm_loop, cursor, usage_counts)
          end
      end
  end.

(** [EdiParser._build_tree] *)
Definition _build_tree (fuel : nat) (self : EdiParser) (segs : list loc)
    (schema_nodes : list StructureChild) (parent_loop_id : string) : M (CdmLoop * nat) :=
  let* st := build_tree_while fuel self segs schema_nodes (new_loop parent_loop_id)
               0%nat (zero_counts (length schema_nodes)) in
  ret (build_tree_finish schema_nodes parent_loop_id st).

(** [try: m except Exception as e: handler(e)] *)
Definition try_except {A} (m : M A) (handler : exn -> M A) : M A := fun h =>
  match m h with
  | Raise e h' => handler e h'
  | r => r
  end.

(** [next((n for n in nodes if isinstance(n, StructureLoop) and n.xid == x), None)]:
    the children of the loop that is found. *)
Fixpoint find_loop (x : string) (nodes : list StructureChild) : option (list StructureChild) :=
  match nodes with
  | [] => None
  | Loop xid _ _ _ children :: r => if String.eqb xid x then Some children else find_loop x r
  | Seg _ :: r => find_loop x r
  end.

(** The children of [ST_LOOP], at the top of the structure or under
    [ISA_LOOP] and [GS_LOOP]. *)
Definition st_loop_children_of (sch : ImplementationGuideSchema)
  : result (list StructureChild) :=
  match find_loop "ST_LOOP" (structure sch) with
  | Some children => Ok children
  | None =>
      match find_loop "ISA_LOOP" (structure sch) with
      | Some (c :: cs) =>
          match find_loop "GS_LOOP" (c :: cs) with
          | Some (g :: gs) =>
              match find_loop "ST_LOOP" (g :: gs) with
              | Some children => Ok children
              | None => Err (ValueError "ST_LOOP not found in schema structure")
              end
          | _ => Err (ValueError "GS_LOOP not found in schema structure")
          end
      | _ => Err (ValueError "ISA_LOOP not found in schema structure")
      end
  end.

Definition unparsed_message (n : nat) (sid : string) (line : Z) : string :=
  "Transaction parsing incomplete. Could not process " +:+ PyStr.of_Z (Z.of_nat n)
  +:+ " remaining segments starting with '" +:+ sid +:+ "' (line " +:+ PyStr.of_Z line
  +:+ "). This may indicate an unsupported structure or validation issue.".

(** [segments[1:-1]] *)
Definition middle {A} (l : list A) : list A := removelast (tl l).

(** [EdiParser._parse_transaction_set] *)
Definition _parse_transaction_set (fuel : nat) (self : EdiParser) (segs : list loc)
  : M CdmTransaction :=
  match segs with
  | [] => raise (IndexError "list index out of range")
  | st_segment :: _ =>
      let se_segment := List.last segs st_segment in
      let transaction_body_segments := middle segs in
      try_except
        (let* st_loop_children0 := lift (st_loop_children_of (schema self)) in
         let st_loop_children :=
           filter (fun child => negb (str_in (node_xid child) ["ST"; "SE"]) = true)
                  st_loop_children0 in
         let* built := _build_tree fuel self transaction_body_segments st_loop_children
                         "ST_LOOP" in
         let '(body_loop, consumed_count) := built in
         let errs := loop_errors body_loop in
         match drop consumed_count transaction_body_segments with
         | problematic_segment :: rest =>
             let* p := read problematic_segment in
             ret (mkTransaction st_segment se_segment body_loop
                    (errs ++ [mkError (unparsed_message (S (length rest)) (segment_id p)
                                         (line_number p))
                                      (Some (line_number p)) (Some (segment_id p)) None false]))
         | [] => ret (mkTransaction st_segment se_segment body_loop errs)
         end)
        (fun e =>
           let* st := read st_segment in
           ret (mkTransaction st_segment se_segment (new_loop "ST_LOOP")
                  [mkError ("Critical parsing error: " +:+ exn_str e)
                           (Some (line_number st)) (Some (segment_id st)) None false]))
  end.

(** [segs[a:b]] for [0 <= a]. *)
Definition slice {A} (a b : nat) (l : list A) : list A := take (b - a) (drop a l).

(** The inner [while] loop of [parse], over the transaction sets of a
    group; [ich_errors] are the findings of the interchange so far. *)
Fixpoint parse_transactions (fuel : nat) (self : EdiParser) (transaction_segments : list loc)
    (ts_cursor : nat) (txns : list CdmTransaction) (ich_errs : list CdmValidationError)
  : M (list CdmTransaction * list CdmValidationError) :=
  match fuel with
  | O => fun _ => OutOfFuel
  | S fuel' =>
      if (ts_cursor <? length transaction_segments)%nat then
        let* st := _find_next_segment "ST" transaction_segments ts_cursor in
        match st with
        | None => ret (txns, ich_errs)
        | Some st_idx =>
            let* se := _find_next_segment "SE" transaction_segments st_idx in
            match se with
            | None =>
                let* s := read (nth st_idx transaction_segments 0%nat) in
                ret (txns, ich_errs ++ [error_of_message
                       ("Unclosed transaction set at line " +:+ PyStr.of_Z (line_number s) +:+ ".")])
            | Some se_idx =>
                let* cdm_transaction :=
                  _parse_transaction_set fuel' self (slice st_idx (S se_idx) transaction_segments) in
                parse_transactions fuel' self transaction_segments (S se_idx)
                  (txns ++ [cdm_transaction]) ich_errs
            end
        end
      else ret (txns, ich_errs)
  end.

(** The outer [while] loop of [parse], over the functional groups. *)
Fixpoint parse_groups (fuel : nat) (self : EdiParser) (group_segments : list loc)
    (cursor : nat) (groups : list CdmFunctionalGroup) (ich_errs : list CdmValidationError)
  : M (list CdmFunctionalGroup * list CdmValidationError) :=
  match fuel with
  | O => fun _ => OutOfFuel
  | S fuel' =>
      if (cursor <? length group_segments)%nat then
        let* gs := _find_next_segment "GS" group_segments cursor in
        match gs with
        | None => ret (groups, ich_errs)
        | Some gs_idx =>
            let* ge := _find_next_segment "GE" group_segments gs_idx in
            match ge with
            | None =>
                let* s := read (nth gs_idx group_segments 0%nat) in
                ret (groups, ich_errs ++ [error_of_message
                       ("Unclosed functional group at line " +:+ PyStr.of_Z (line_number s) +:+ ".")])
            | Some ge_idx =>
                let gs_segment := nth gs_idx group_segments 0%nat in
                let ge_segment := nth ge_idx group_segments 0%nat in
                let* gs_errors := validate (validator self) gs_segment None in
                let* _ := errors_extend gs_segment gs_errors in
                let* ge_errors := validate (validator self) ge_segment None in
                let* _ := errors_extend ge_segment ge_errors in
                let* r := parse_transactions fuel' self (slice (S gs_idx) ge_idx group_segments)
                            0%nat [] ich_errs in
                let '(txns, ich_errs') := r in
                parse_groups fuel' self group_segments (S ge_idx)
                  (groups ++ [mkGroup gs_segment ge_segment txns []]) ich_errs'
            end
        end
      else ret (groups, ich_errs)
  end.

(** [EdiParser.parse] *)
Definition parse (fuel : nat) (self : EdiParser) : M CdmInterchange :=
  let* isa := _find_next_segment "ISA" (all_segments self) 0%nat in
  let* iea := _find_next_segment "IEA" (all_segments self) (default 0%nat isa) in
  match isa, iea with
  | Some isa_idx, Some iea_idx =>
      let isa_segment := nth isa_idx (all_segments self) 0%nat in
      let iea_segment := nth iea_idx (all_segments self) 0%nat in
      let* isa_errors := validate (validator self) isa_segment None in
      let* _ := errors_extend isa_segment isa_errors in
      let* iea_errors := validate (validator self) iea_segment None in
      let* _ := errors_extend iea_segment iea_errors in
      let* r := parse_groups fuel self (slice (S isa_idx) iea_idx (all_segments self))
                  0%nat [] [] in
      let '(groups, ich_errs) := r in
      ret (mkInterchange isa_segment iea_segment groups ich_errs)
  | _, _ =>
      let* dummy_isa := alloc (mkSegment "ISA" [] 0 "" []) in
      let* dummy_iea := alloc (mkSegment "IEA" [] 0 "" []) in
      ret (mkInterchange dummy_isa dummy_iea []
             [error_of_message "ISA/IEA envelope not found."])
  end.

(** The entry point of the core: a parser is built on the input and run,
    from an empty store. *)
Definition parse_edi (fuel : nat) (edi_string : string) (sch : ImplementationGuideSchema)
  : outcome CdmInterchange :=
  (let* p := EdiParser_init edi_string sch in parse fuel p) [].

(** ** TA1 definitions

    Modelled from the spec: the module [ta1_defs] ([TA1NoteCode],
    [TA1AcknowledgementCode], [InterchangeError]) is not among the sources.
    The note codes are those the specification lists for the envelope
    checks, [000] for no error and [024], which the tests use; the
    acknowledgement codes are [A] and [R]. *)

Inductive TA1NoteCode :=
| NO_ERROR
| ICN_MISMATCH_IN_HEADER_TRAILER
| INVALID_SEGMENT_TERMINATOR
| INVALID_SENDER_ID_QUALIFIER
| INVALID_SENDER_ID
| INVALID_RECEIVER_ID_QUALIFIER
| INVALID_RECEIVER_ID
| INVALID_AUTH_QUALIFIER
| INVALID_AUTH_VALUE
| INVALID_SECURITY_QUALIFIER
| INVALID_SECURITY_VALUE
| INVALID_INTERCHANGE_DATE
| INVALID_INTERCHANGE_TIME
| INVALID_INTERCHANGE_STANDARDS_ID
| INVALID_INTERCHANGE_VERSION_ID
| INVALID_INTERCHANGE_CONTROL_NUMBER
| INVALID_ACKNOWLEDGMENT_REQUESTED
| INVALID_TEST_INDICATOR
| INVALID_GROUP_COUNT
| INVALID_CONTROL_STRUCTURE
| INVALID_INTERCHANGE_CONTENT
| INVALID_ELEMENT_SEPARATOR
| INVALID_COMPONENT_SEPARATOR.

(** Modelled from the spec: the three-digit value of a note code. *)
Definition note_code_value (c : TA1NoteCode) : string :=
  match c with
  | NO_ERROR => "000"
  | ICN_MISMATCH_IN_HEADER_TRAILER => "001"
  | INVALID_SEGMENT_TERMINATOR => "004"
  | INVALID_SENDER_ID_QUALIFIER => "005"
  | INVALID_SENDER_ID => "006"
  | INVALID_RECEIVER_ID_QUALIFIER => "007"
  | INVALID_RECEIVER_ID => "008"
  | INVALID_AUTH_QUALIFIER => "010"
  | INVALID_AUTH_VALUE => "011"
  | INVALID_SECURITY_QUALIFIER => "012"
  | INVALID_SECURITY_VALUE => "013"
  | INVALID_INTERCHANGE_DATE => "014"
  | INVALID_INTERCHANGE_TIME => "015"
  | INVALID_INTERCHANGE_STANDARDS_ID => "016"
  | INVALID_INTERCHANGE_VERSION_ID => "017"
  | INVALID_INTERCHANGE_CONTROL_NUMBER => "018"
  | INVALID_ACKNOWLEDGMENT_REQUESTED => "019"
  | INVALID_TEST_INDICATOR => "020"
  | INVALID_GROUP_COUNT => "021"
  | INVALID_CONTROL_STRUCTURE => "022"
  | INVALID_INTERCHANGE_CONTENT => "024"
  | INVALID_ELEMENT_SEPARATOR => "026"
  | INVALID_COMPONENT_SEPARATOR => "027"
  end.

Definition note_code_eqb (a b : TA1NoteCode) : bool :=
  String.eqb (note_code_value a) (note_code_value b).

(** Modelled from the spec: the enumeration [TA1AcknowledgementCode] of
    [ta1_defs]. *)
Inductive TA1AcknowledgementCode := ACCEPTED | REJECTED.

(** Modelled from the spec: the value of an acknowledgement code. *)
Definition ack_code_value (c : TA1AcknowledgementCode) : string :=
  match c with ACCEPTED => "A" | REJECTED => "R" end.

(** Modelled from the spec: the record [InterchangeError] of [ta1_defs],
    of which the generator and the validator use the note code. *)
Record InterchangeError := mkInterchangeError { note_code : TA1NoteCode }.

(** ** The envelope validator ([ta1_validator.py]) *)

(** [add_error]: a note code is listed once. *)
Definition add_error (errs : list InterchangeError) (c : TA1NoteCode) : list InterchangeError :=
  if existsb (fun e => note_code_eqb (note_code e) c) errs then errs
  else errs ++ [mkInterchangeError c].

Definition add_error_if (b : bool) (c : TA1NoteCode) (errs : list InterchangeError)
  : list InterchangeError :=
  if b then add_error errs c else errs.

(** The checks of the three delimiters, on the trimmed input: the
    characters at the offsets 3, 105 and 104. *)
Definition delimiter_errors (element_sep segment_term component_sep : ascii)
  : list InterchangeError :=
  let errs := add_error_if (PyStr.isalnum element_sep
                            || Ascii.eqb element_sep PyStr.CR || Ascii.eqb element_sep PyStr.LF)
                INVALID_ELEMENT_SEPARATOR [] in
  let errs := add_error_if (PyStr.isalnum segment_term) INVALID_SEGMENT_TERMINATOR errs in
  add_error_if (PyStr.isalnum component_sep) INVALID_COMPONENT_SEPARATOR errs.

(** [seg.get_element(pos).strip()]: an [AttributeError] on [None]. *)
Definition get_strip (l : loc) (pos : Z) : M string :=
  let* v := get_element l pos in
  match v with
  | Some s => ret (PyStr.strip s)
  | None => raise (AttributeError "'NoneType' object has no attribute 'strip'")
  end.

(** [not x or not x.strip()] for an optional string [x]. *)
Definition blank (x : option string) : bool :=
  match x with
  | Some s => String.eqb s "" || String.eqb (PyStr.strip s) ""
  | None => true
  end.

Definition id_qualifiers : list string :=
  ["01"; "14"; "20"; "27"; "28"; "29"; "30"; "33"; "ZZ"].

(** The checks on the decoded envelope, after the delimiters were found
    valid. *)
Definition envelope_checks (interchange : CdmInterchange) : M (list InterchangeError) :=
  let isa := header interchange in
  let iea := trailer interchange in
  let* h := read isa in
  let* t := read iea in
  match elements h, elements t with
  | [], _ | _, [] => ret [mkInterchangeError INVALID_CONTROL_STRUCTURE]
  | _, _ =>
      let errs := [] in
      let* isa13 := get_strip isa 13 in
      let* iea02 := get_strip iea 2 in
      let errs := add_error_if (negb (String.eqb isa13 iea02)) ICN_MISMATCH_IN_HEADER_TRAILER errs in
      let* isa05 := get_strip isa 5 in
      let errs := add_error_if (negb (str_in isa05 id_qualifiers)) INVALID_SENDER_ID_QUALIFIER errs in
      let* isa06 := get_element isa 6 in
      let errs := add_error_if (blank isa06) INVALID_SENDER_ID errs in
      let* isa07 := get_strip isa 7 in
      let errs := add_error_if (negb (str_in isa07 id_qualifiers)) INVALID_RECEIVER_ID_QUALIFIER errs in
      let* isa08 := get_element isa 8 in
      let errs := add_error_if (blank isa08) INVALID_RECEIVER_ID errs in
      let* isa01 := get_strip isa 1 in
      let errs := add_error_if (negb (str_in isa01 ["00"; "03"])) INVALID_AUTH_QUALIFIER errs in
      let* isa02 := get_element isa 2 in
      let errs := add_error_if (String.eqb isa01 "03" && blank isa02) INVALID_AUTH_VALUE errs in
      let* filled02 := (if String.eqb isa01 "00"
                        then (let* x := get_strip isa 2 in ret (negb (String.eqb x "")))
                        else ret false) in
      let errs := add_error_if filled02 INVALID_AUTH_VALUE errs in
      let* isa03 := get_strip isa 3 in
      let errs := add_error_if (negb (str_in isa03 ["00"; "01"])) INVALID_SECURITY_QUALIFIER errs in
      let* isa04 := get_element isa 4 in
      let errs := add_error_if (String.eqb isa03 "01" && blank isa04) INVALID_SECURITY_VALUE errs in
      let* filled04 := (if String.eqb isa03 "00"
                        then (let* x := get_strip isa 4 in ret (negb (String.eqb x "")))
                        else ret false) in
      let errs := add_error_if filled04 INVALID_SECURITY_VALUE errs in
      let* isa09 := get_element isa 9 in
      let errs := add_error_if (negb (match isa09 with
                                      | Some d => PyLib.strptime_ymd_ok d
                                      | None => false
                                      end)) INVALID_INTERCHANGE_DATE errs in
      let* isa10 := get_element isa 10 in
      let errs := add_error_if (negb (match isa10 with
                                      | Some d => PyLib.strptime_HM_ok d
                                      | None => false
                                      end)) INVALID_INTERCHANGE_TIME errs in
      let* isa11 := get_element isa 11 in
      let errs := add_error_if (negb (match isa11 with
                                      | Some x => String.eqb x "^"
                                      | None => false
                                      end)) INVALID_INTERCHANGE_STANDARDS_ID errs in
      let* version_id := get_element isa 12 in
      let errs := add_error_if (match version_id with
                                | Some x => negb (PyStr.len x =? 5) || negb (PyStr.str_isdigit x)
                                | None => true
                                end) INVALID_INTERCHANGE_VERSION_ID errs in
      let* icn := get_element isa 13 in
      let errs := add_error_if (match icn with
                                | Some x => String.eqb x ""
                                            || negb (PyStr.str_isdigit (PyStr.strip x))
                                            || negb (PyStr.len (PyStr.strip x) =? 9)
                                | None => true
                                end) INVALID_INTERCHANGE_CONTROL_NUMBER errs in
      let* isa14 := get_element isa 14 in
      let errs := add_error_if (negb (match isa14 with
                                      | Some x => str_in x ["0"; "1"]
                                      | None => false
                                      end)) INVALID_ACKNOWLEDGMENT_REQUESTED errs in
      let* isa15 := get_element isa 15 in
      let errs := add_error_if (negb (match isa15 with
                                      | Some x => str_in x ["T"; "P"]
                                      | None => false
                                      end)) INVALID_TEST_INDICATOR errs in
      let gs_count := Z.of_nat (length (functional_groups interchange)) in
      let* iea01 := get_element iea 1 in
      let errs := add_error_if (match iea01 with
                                | Some x => match PyStr.py_int x with
                                            | Some n => negb (gs_count =? n)
                                            | None => true
                                            end
                                | None => true
                                end) INVALID_GROUP_COUNT errs in
      ret errs
  end.

(** [validate_interchange_envelope] *)
Definition validate_interchange_envelope (interchange : CdmInterchange)
    (raw_edi_string : string) : M (list InterchangeError) :=
  let clean_edi := PyStr.strip raw_edi_string in
  if negb (PyStr.startswith "ISA" clean_edi && (106 <=? PyStr.len clean_edi))
  then ret [mkInterchangeError INVALID_CONTROL_STRUCTURE]
  else
    match PyStr.index clean_edi 3, PyStr.index clean_edi 105, PyStr.index clean_edi 104 with
    | Some element_sep, Some segment_term, Some component_sep =>
        match delimiter_errors element_sep segment_term component_sep with
        | [] => envelope_checks interchange
        | e :: es => ret (e :: es)
        end
    | _, _, _ => raise (IndexError "string index out of range")
    end.

(** ** The TA1 generator ([ta1_generator.py]) *)

(** The fields of [datetime.now()] the generator prints. *)
Record datetime := mkDatetime {
  dt_year : Z;
  dt_month : Z;
  dt_day : Z;
  dt_hour : Z;
  dt_minute : Z
}.

(** A number printed on two digits, as [%y], [%m], [%d], [%H] and [%M] do. *)
Definition two_digits (n : Z) : string := PyStr.zfill 2 (PyStr.of_Z n).

(** [now.strftime("%y%m%d")] and [now.strftime("%H%M")] *)
Definition strftime_ymd (now : datetime) : string :=
  two_digits (dt_year now mod 100) +:+ two_digits (dt_month now) +:+ two_digits (dt_day now).

Definition strftime_HM (now : datetime) : string :=
  two_digits (dt_hour now) +:+ two_digits (dt_minute now).

Module TA1Generator.

(** [TA1Generator.generate]; [now] is the value of [datetime.now()]. *)
Definition generate (now : datetime) (isa_header : CdmSegment)
    (errs : list InterchangeError) (force_generation : bool) : option string :=
  if (length (elements isa_header) <? 16)%nat then None
  else
    let get pos := seg_get_element isa_header pos in
    let ack_requested :=
      match get 14 with
      | Some v => negb (String.eqb v "") && String.eqb (PyStr.strip v) "1"
      | None => false
      end in
    let has_errors := match errs with [] => false | _ => true end in
    if negb has_errors && negb ack_requested && negb force_generation then None
    else
      let '(ack_code, note) :=
        match errs with
        | [] => (ACCEPTED, NO_ERROR)
        | e :: _ => (REJECTED, note_code e)
        end in
      let original_icn := PyStr.zfill 9 (PyStr.strip (default "" (get 13))) in
      let original_date_str := default "" (get 9) in
      let original_time_str := default "" (get 10) in
      let ta1_date :=
        if PyStr.len original_date_str =? 8 then PyStr.drop 2 original_date_str
        else original_date_str in
      let ta1_time := original_time_str in
      let response_date := strftime_ymd now in
      let response_time := strftime_HM now in
      let response_icn := PyStr.zfill 9 (strftime_ymd now +:+ strftime_HM now) in
      let original_auth_qual := or_str (get 1) "00" in
      let original_auth_info := or_str (get 2) (PyStr.spaces 10) in
      let original_security_qual := or_str (get 3) "00" in
      let original_security_info := or_str (get 4) (PyStr.spaces 10) in
      let original_sender_qual := or_str (get 5) "ZZ" in
      let original_sender_id := or_str (get 6) (PyStr.spaces 15) in
      let original_receiver_qual := or_str (get 7) "ZZ" in
      let original_receiver_id := or_str (get 8) (PyStr.spaces 15) in
      let original_standards_id := or_str (get 11) "^" in
      let original_version := or_str (get 12) "00501" in
      let original_test_indicator := or_str (get 15) "P" in
      let original_component_separator := or_str (get 16) ">" in
      let ta1_segment :=
        "TA1*" +:+ original_icn +:+ "*" +:+ ta1_date +:+ "*" +:+ ta1_time +:+ "*"
        +:+ ack_code_value ack_code +:+ "*" +:+ note_code_value note in
      let isa_response :=
        "ISA*" +:+ original_auth_qual +:+ "*" +:+ original_auth_info +:+ "*"
        +:+ original_security_qual +:+ "*" +:+ original_security_info +:+ "*"
        +:+ original_receiver_qual +:+ "*" +:+ original_receiver_id +:+ "*"
        +:+ original_sender_qual +:+ "*" +:+ original_sender_id +:+ "*"
        +:+ response_date +:+ "*" +:+ response_time +:+ "*" +:+ original_standards_id +:+ "*"
        +:+ original_version +:+ "*" +:+ response_icn +:+ "*0*" +:+ original_test_indicator
        +:+ "*" +:+ original_component_separator +:+ "~" in
      let iea_response := "IEA*1*" +:+ response_icn +:+ "~" in
      Some (isa_response +:+ ta1_segment +:+ "~" +:+ iea_response).

End TA1Generator.

(** * Further code of the core *)

(** ** Lookups of a loop ([cdm.py]) *)

(** [CdmLoop.get_segment]: the first segment of the loop with the given
    id, [None] when there is none. *)
Fixpoint get_segment_from (segs : list loc) (sid : string) : M (option loc) :=
  match segs with
  | [] => ret None
  | l :: r =>
      let* s := read l in
      if String.eqb (segment_id s) sid then ret (Some l) else get_segment_from r sid
  end.

Definition get_segment (self : CdmLoop) (sid : string) : M (option loc) :=
  get_segment_from (segments self) sid.

(** [CdmLoop.get_segments]: the segments of the loop with the given id. *)
Fixpoint get_segments_from (segs : list loc) (sid : string) : M (list loc) :=
  match segs with
  | [] => ret []
  | l :: r =>
      let* s := read l in
      let* rest := get_segments_from r sid in
      ret (if String.eqb (segment_id s) sid then l :: rest else rest)
  end.

Definition get_segments (self : CdmLoop) (sid : string) : M (list loc) :=
  get_segments_from (segments self) sid.

(** [d.get(k)] on the dictionary of child loops. *)
Fixpoint dict_get (k : string) (d : list (string * list CdmLoop)) : option (list CdmLoop) :=
  match d with
  | [] => None
  | (k', ls) :: r => if String.eqb k' k then Some ls else dict_get k r
  end.

(** [CdmLoop.get_loops] *)
Definition get_loops (self : CdmLoop) (k : string) : list CdmLoop :=
  default [] (dict_get k (loops self)).

(** [CdmLoop.get_loop]: [self.loops.get(loop_id, [None])[0]] raises an
    [IndexError] on a key whose list is empty. *)
Definition get_loop (self : CdmLoop) (k : string) : result (option CdmLoop) :=
  match dict_get k (loops self) with
  | None => Ok None
  | Some (l :: _) => Ok (Some l)
  | Some [] => Err (IndexError "list index out of range")
  end.

(** ** The version of the guide ([get_guide_version_from_edi]) *)




(** ** The summary of the findings ([EdiParser._collect_all_errors]) *)

(** The label of the findings of a segment. *)
Definition segment_label (s : CdmSegment) : string :=
  "Segment " +:+ raw_segment s +:+ " (Line: " +:+ PyStr.of_Z (line_number s) +:+ ")".

(** [collect_loop_errors]: the findings of the loop, those of its
    segments, then those of its child loops, in the order of the
    dictionary; the store is only read. *)
Fixpoint collect_loop_errors (h : heap) (loop : CdmLoop) (path : string)
    {struct loop} : list (string * CdmValidationError) :=
  map (fun error => ("Loop " +:+ path, error)) (loop_errors loop)
  ++ flat_map (fun l => map (fun error => (segment_label (deref h l), error))
                            (errors (deref h l)))
              (segments loop)
  ++ (fix each_key (d : list (string * list CdmLoop)) : list (string * CdmValidationError) :=
        match d with
        | [] => []
        | (loop_id, sub_loops) :: r =>
            (fix each (i : Z) (ls : list CdmLoop) : list (string * CdmValidationError) :=
               match ls with
               | [] => []
               | sub_loop :: rest =>
                   collect_loop_errors h sub_loop
                     (path +:+ "/" +:+ loop_id +:+ "[" +:+ PyStr.of_Z i +:+ "]")
                   ++ each (i + 1) rest
               end) 0 sub_loops
            ++ each_key r
        end) (loops loop).

Definition collect_transaction_errors (h : heap) (transaction : CdmTransaction)
  : list (string * CdmValidationError) :=
  map (fun error => ("Transaction", error)) (txn_errors transaction)
  ++ collect_loop_errors h (body transaction) "ST_LOOP".

Definition collect_group_errors (h : heap) (group : CdmFunctionalGroup)
  : list (string * CdmValidationError) :=
  map (fun error => ("Functional Group", error)) (grp_errors group)
  ++ flat_map (collect_transaction_errors h) (transactions group).

(** [EdiParser._collect_all_errors] *)
Definition _collect_all_errors (interchange : CdmInterchange)
  : M (list (string * CdmValidationError)) := fun h =>
  Ret (map (fun error => ("Interchange", error)) (ich_errors interchange)
       ++ flat_map (collect_group_errors h) (functional_groups interchange)) h.

(** ** The validation service ([validation_service.py], [schema_manager.py]) *)

(** The dictionary [location] of a [ValidationFinding]. *)
Record FindingLocation := mkLocation {
  loc_context : string;
  loc_segment_id : string;
  loc_line_number : Z
}.

Record ValidationFinding := mkFinding {
  vf_level : string;
  vf_code : string;
  vf_message : string;
  vf_location : FindingLocation
}.

Record ValidationResult := mkResult {
  valid : bool;
  findings : list ValidationFinding
}.

(** The base schemas a [SchemaManager] has loaded, by file name. *)
Record SchemaManager := mkSchemaManager {
  _base_schemas : gmap string ImplementationGuideSchema
}.

(** [SchemaManager.get_base_schema] *)
Definition get_base_schema (self : SchemaManager) (schema_name : string)
  : option ImplementationGuideSchema :=
  _base_schemas self !! schema_name.

Record EDIValidationService := mkService {
  schema_manager : SchemaManager
}.

(** [x or 1] for an optional line number. *)
Definition or_one (x : option Z) : Z :=
  match x with
  | Some n => if n =? 0 then 1 else n
  | None => 1
  end.

(** The finding [validate_edi] makes of a collected error. *)
Definition finding_of (p : string * CdmValidationError) : ValidationFinding :=
  let '(location, error) := p in
  mkFinding "error" (or_str (element_xid error) "VALIDATION_ERROR") (message error)
    (mkLocation location (or_str (err_segment_id error) "UNKNOWN")
                (or_one (err_line_number error))).

(** [EDIValidationService.validate_edi] *)
Definition validate_edi (fuel : nat) (self : EDIValidationService)
    (edi_content schema_name : string) (snip_level : Z) : M ValidationResult :=
  try_except
    (match get_base_schema (schema_manager self) schema_name with
     | None => raise (ValueError ("Schema not found: " +:+ schema_name))
     | Some schema =>
         let* parser := EdiParser_init edi_content schema in
         let* interchange := parse fuel parser in
         let* all_errors := _collect_all_errors interchange in
         let findings := map finding_of all_errors in
         ret (mkResult (Nat.eqb (length findings) 0) findings)
     end)
    (fun e =>
       ret (mkResult false
              [mkFinding "error" "VALIDATION_ERROR" ("Validation failed: " +:+ exn_str e)
                         (mkLocation "DOCUMENT" "DOCUMENT" 1)])).

(** * Definitions for the statements *)

(** ** Read-only computations and the gates of the selection *)

(** A computation is read-only when it returns or raises in the store it
    was started in; in particular it does not run out of fuel. *)
Definition read_only {A} (m : M A) : Prop :=
  forall h, (exists a, m h = Ret a h) \/ (exists e, m h = Raise e h).

Section Gates.

Variable v : SegmentValidator.
Variable h : heap.
Variable current_segment : loc.
Variable usage_counts : gmap nat Z.

(** The usage of the node at index [i] is below its repeat limit. *)
Definition usage_gate (i : nat) (node : StructureChild) : Prop :=
  usage_of usage_counts i < max_repeats node.

(** The node starts with the identifier of the current segment. *)
Definition start_gate (node : StructureChild) : Prop :=
  _get_starting_segment_id node = Some (segment_id (deref h current_segment)).

(** The trial validation returns, with no identifier finding. *)
Definition trial_gate (node : StructureChild) : Prop :=
  exists errs,
    validate v current_segment (trial_context_id node) h = Ret errs h
    /\ Forall (fun e => is_identifier_error e = false) errs.

Definition all_gates (i : nat) (node : StructureChild) : Prop :=
  usage_gate i node /\ start_gate node /\ trial_gate node.

(** No node before position [j] of [nodes], counted from [i], passes. *)
Definition none_before (i j : nat) (nodes : list StructureChild) : Prop :=
  forall j' m, (j' < j)%nat -> nodes !! j' = Some m -> ~ all_gates (i + j') m.

End Gates.

(** ** Loops and their segments *)

(** The child loops of a loop, in the order of the dictionary. *)
Definition child_loops (l : CdmLoop) : list CdmLoop := flat_map snd (loops l).

(** The segments of a loop at all depths, in pre-order: the segments of
    the loop itself, then those of its child loops, in the order in which
    [_collect_all_errors] walks a loop. *)
Fixpoint loop_preorder (l : CdmLoop) : list loc :=
  segments l ++ flat_map (fun '(_, ls) => flat_map loop_preorder ls) (loops l).

(** A loop and the loops below it. *)
Fixpoint all_loops (l : CdmLoop) : list CdmLoop :=
  l :: flat_map (fun '(_, ls) => flat_map all_loops ls) (loops l).

(** The loop [loop] at cursor [c] comes from [loop0] at cursor [c0] by
    placing the segments of the window between the two cursors: [own] go
    to the loop itself, in the order of the window, the others to the new
    child loops [new], whose findings the loop inherits. *)
Definition grows (segs : list loc) (loop0 : CdmLoop) (c0 : nat)
    (loop : CdmLoop) (c : nat) : Prop :=
  (c0 <= c)%nat /\ ((c0 <= length segs)%nat -> (c <= length segs)%nat)
  /\ loop_id loop = loop_id loop0
  /\ exists own new,
       segments loop = segments loop0 ++ own
       /\ sublist own (slice c0 c segs)
       /\ child_loops loop ≡ₚ child_loops loop0 ++ new
       /\ loop_errors loop = loop_errors loop0 ++ flat_map loop_errors new
       /\ own ++ flat_map loop_preorder new ≡ₚ slice c0 c segs
       /\ Forall (fun lp => sublist (segments lp) (drop c0 segs)) (flat_map all_loops new).

(** ** Measures for the termination of the matcher *)

(** What the repeat limits leave to the nodes from index [i] on. *)
Fixpoint budget_from (usage_counts : gmap nat Z) (i : nat) (nodes : list StructureChild) : nat :=
  match nodes with
  | [] => 0
  | n :: r => Z.to_nat (max_repeats n - usage_of usage_counts i)
              + budget_from usage_counts (S i) r
  end.

Fixpoint node_depth (n : StructureChild) : nat :=
  match n with
  | Seg _ => 0
  | Loop _ _ _ _ children =>
      S (fold_right (fun c acc => Nat.max (node_depth c) acc) 0%nat children)
  end.

Definition nodes_depth (nodes : list StructureChild) : nat :=
  fold_right (fun c acc => Nat.max (node_depth c) acc) 0%nat nodes.

(** ** The repeat limit of the specification, and a service-line loop *)

(** The usage gate as the specification words it: a repeat token that is
    not an integer is no limit at all. *)
Definition spec_usage_gate (usage_counts : gmap nat Z) (i : nat) (node : StructureChild) : Prop :=
  match node with
  | Seg s => usage_of usage_counts i < max_use s
  | Loop _ _ _ (RepeatInt n) _ => usage_of usage_counts i < n
  | Loop _ _ _ (RepeatStr r) _ =>
      match PyStr.py_int r with
      | Some n => usage_of usage_counts i < n
      | None => True
      end
  end.

(** A service-line loop that repeats [">1"] times, and one [LX] segment. *)
Definition lx_node : StructureChild :=
  Seg (mkStructureSegment "LX" (Some "Service Line Number") "R" 1 None None None).

Definition loop_2400 : StructureChild :=
  Loop "2400" "Service Line" "S" (RepeatStr ">1") [lx_node].

Definition lx_schema : ImplementationGuideSchema :=
  mkSchema "837" "005010X222A1" ∅
    {["LX" := mkSegmentDefinition "LX" "Service Line Number" "R" 1 [] None]} [].

Definition lx_parser : EdiParser :=
  mkParser lx_schema "*"%char "~"%char ":"%char [0%nat] (mkValidator lx_schema ":"%char).

Definition lx_heap : heap := [mkSegment "LX" [mkElement "1" 1] 1 "LX*1" []].

(** ** Required nodes *)





(** ** Traversals, findings of a transaction set, sample interchanges *)






(** A claim loop with a diagnosis segment and service lines. *)
Definition plain_segment (x : string) (usage : string) (m : Z) : StructureChild :=
  Seg (mkStructureSegment x None usage m None None None).

Definition plain_definition (x : string) : SegmentDefinition :=
  mkSegmentDefinition x x "R" 1 [] None.

Definition claim_schema : ImplementationGuideSchema :=
  mkSchema "837" "005010X222A1" ∅
    (list_to_map (map (fun x => (x, plain_definition x))
                      ["ISA"; "IEA"; "GS"; "GE"; "ST"; "SE"; "CLM"; "HI"; "LX"; "SV1"]))
    [Loop "ST_LOOP" "TRANSACTION SET" "R" (RepeatInt 1)
       [plain_segment "ST" "R" 1;
        Loop "2300" "CLAIM" "R" (RepeatStr ">1")
          [plain_segment "CLM" "R" 1;
           plain_segment "HI" "S" 4;
           Loop "2400" "SERVICE LINE" "R" (RepeatInt 50)
             [plain_segment "LX" "R" 1; plain_segment "SV1" "R" 1]];
        plain_segment "SE" "R" 1]].


(** A segment between the group header and the group trailer, outside any
    transaction set. *)
Definition stray_segment_edi : string := "ISA*00~GS*HC~XX*1~GE*0*1~IEA*1*1~".

(** ** Changes of the store *)

(** The object [s'] is the object [s] with findings added. *)
Definition findings_added (s s' : CdmSegment) : Prop :=
  segment_id s' = segment_id s /\ elements s' = elements s
  /\ line_number s' = line_number s /\ raw_segment s' = raw_segment s
  /\ exists es, errors s' = errors s ++ es.

(** From the store [h] to the store [h'] objects only gained findings,
    and only the objects at the addresses [ls] did. *)
Definition touched (ls : list loc) (h h' : heap) : Prop :=
  forall l, findings_added (deref h l) (deref h' l)
            /\ (l ∉ ls -> deref h' l = deref h l).

(** ** An interchange time that [int] rejects *)

Definition superscript_two : ascii := PyStr.chr 178.

(** A schema whose [ISA] definition gives the interchange time the format
    [HHMM]. *)
Definition isa_time_schema : ImplementationGuideSchema :=
  mkSchema "837" "005010X222A1" ∅
    {["ISA" := mkSegmentDefinition "ISA" "Interchange Control Header" "R" 1
                 [mkBaseElement "ISA10" "R" 10 "TM" (Some 4) (Some 4)
                                (Some (FmtStr "HHMM")) None NoSub false]
                 None]} [].

(** An interchange whose time is [12] followed by two superscript digits
    two, which [str.isdigit] accepts and [int] rejects. *)
Definition superscript_time_edi : string :=
  "ISA*00*          *00*          *ZZ*SENDER         *ZZ*RECEIVER       *240718*12"
  +:+ String superscript_two (String superscript_two
        "*^*00501*000000001*0*P*:~IEA*0*000000001~").

(** ** Fields of the acknowledgement, sample headers *)

(** The text of a segment: its fields joined by [*], closed by [~]. *)
Definition segment_text (fields : list string) : string :=
  PyStr.join "*" fields +:+ "~".

(** The two fields the generator derives from the errors. *)
Definition ack_field (errs : list InterchangeError) : string :=
  match errs with [] => "A" | _ :: _ => "R" end.

Definition note_field (errs : list InterchangeError) : string :=
  match errs with [] => "000" | e :: _ => note_code_value (note_code e) end.

(** The string holds no [*]. *)
Definition star_free (s : string) : Prop := PyStr.forallb (fun c => negb (Ascii.eqb c "*"%char)) s = true.

(** The [ISA] header of the generator's tests, with the receiver
    qualifier, the acknowledgement request and the elements after it left
    open. *)
Definition isa_header (isa07 : string) (isa14 : string) (tail : list string) : CdmSegment :=
  mkSegment "ISA"
    (enumerate_elements 0
       (["00"; "          "; "00"; "          "; "ZZ"; "SENDERID       "; isa07;
         "RECEIVERID     "; "240718"; "1200"; "^"; "00501"; "000000001"; isa14] ++ tail))
    1 "" [].

Definition a_time : datetime := mkDatetime 2024 7 18 12 0.

(** [ack_requested] of [generate]: ISA14, trimmed, is [1]. *)
Definition ack_requested (isa : CdmSegment) : Prop :=
  exists v, seg_get_element isa 14 = Some v /\ PyStr.strip v = "1".

(** ** Delimiters as the specification words them, sample inputs *)






Definition codes (errs : list InterchangeError) : list TA1NoteCode := map note_code errs.


(** * Definitions for the further properties *)

(** ** Stores that differ by findings only *)

(** From the store [h] to the store [h'] the objects only gained
    findings. *)
Definition only_findings (h h' : heap) : Prop :=
  forall l, findings_added (deref h l) (deref h' l).

(** The envelope segments of a transaction set and of a functional group
    carry the identifiers of their kind. *)
Definition transaction_enveloped (h : heap) (t : CdmTransaction) : Prop :=
  segment_id (deref h (txn_header t)) = "ST" /\ segment_id (deref h (txn_trailer t)) = "SE".

Definition group_enveloped (h : heap) (g : CdmFunctionalGroup) : Prop :=
  segment_id (deref h (grp_header g)) = "GS" /\ segment_id (deref h (grp_trailer g)) = "GE"
  /\ Forall (transaction_enveloped h) (transactions g).

(** The exception [e] comes out of [validate], called without a context
    in the store [h'] on a segment of [segs] whose identifier is one of
    [ids]; [h'] differs from [h] by findings only. *)
Definition raised_by_validation (self : EdiParser) (segs : list loc) (ids : list string)
    (h : heap) (e : exn) (h' : heap) : Prop :=
  exists l, l ∈ segs /\ segment_id (deref h l) ∈ ids /\ only_findings h h'
            /\ validate (validator self) l None h' = Raise e h'.

(** The character [c] does not occur in the string. *)
Definition char_free (c : ascii) (s : string) : Prop :=
  PyStr.forallb (fun x => negb (Ascii.eqb x c)) s = true.

(** The dictionary of the child loops of a loop is a dictionary (no key
    twice) whose lists are not empty and hold, under a key, loops with
    that identifier. *)
Definition filed_by_id (l : CdmLoop) : Prop :=
  NoDup (map fst (loops l))
  /\ Forall (fun kv => kv.2 <> [] /\ Forall (fun c => loop_id c = kv.1) kv.2) (loops l).

(** The findings a loop carries itself: its own, then those of its
    segments. *)
Definition own_findings (h : heap) (lp : CdmLoop) : list CdmValidationError :=
  loop_errors lp ++ flat_map (fun l => errors (deref h l)) (segments lp).

(** The findings of a transaction set, of a group and of an interchange
    that are in the summary. *)
Definition transaction_findings (h : heap) (t : CdmTransaction) : list CdmValidationError :=
  txn_errors t ++ flat_map (own_findings h) (all_loops (body t)).

Definition group_findings (h : heap) (g : CdmFunctionalGroup) : list CdmValidationError :=
  grp_errors g ++ flat_map (transaction_findings h) (transactions g).

Definition interchange_findings (h : heap) (ic : CdmInterchange) : list CdmValidationError :=
  ich_errors ic ++ flat_map (group_findings h) (functional_groups ic).


(** The control number [generate] gives its response: the date and the
    time on ten digits, which [zfill(9)] leaves as they are. *)
Definition response_icn (now : datetime) : string :=
  PyStr.zfill 9 (strftime_ymd now +:+ strftime_HM now).

(** ** Usage counts *)

(** The sum of the usage counts of the nodes, from index [i] on. *)
Fixpoint total_usage (usage_counts : gmap nat Z) (i : nat) (nodes : list StructureChild) : Z :=
  match nodes with
  | [] => 0
  | _ :: r => usage_of usage_counts i + total_usage usage_counts (S i) r
  end.

(** What the repeat limits of the nodes allow in all. *)
Definition capacity (nodes : list StructureChild) : Z :=
  fold_right (fun n acc => Z.max 0 (max_repeats n) + acc) 0 nodes.

(** The members of a loop: its segments and its child loops. *)
Definition members (l : CdmLoop) : nat := (length (segments l) + length (child_loops l))%nat.

(** The usage counts are between 0 and the repeat limits. *)
Definition within_limits (nodes : list StructureChild) (usage_counts : gmap nat Z) : Prop :=
  forall i, 0 <= usage_of usage_counts i
            /\ forall n, nodes !! i = Some n -> usage_of usage_counts i <= Z.max 0 (max_repeats n).

(** ** Findings of the validator *)

(** The element, or one of the sub-elements below it, has the identifier
    flag [b]. *)
Fixpoint flag_in (b : bool) (e : BaseElement) : Prop :=
  is_identifier e = b
  \/ match sub_elements e with
     | SubList l =>
         (fix any (l : list BaseElement) : Prop :=
            match l with
            | [] => False
            | s :: r => flag_in b s \/ any r
            end) l
     | _ => False
     end.

(** A finding of an element: it names the element, and neither a line
    nor a segment. *)
Definition element_finding (f : CdmValidationError) : Prop :=
  err_line_number f = None /\ err_segment_id f = None /\ element_xid f <> None.

(** A finding of a syntax rule or of a missing definition: a message
    only. *)
Definition message_finding (f : CdmValidationError) : Prop :=
  err_line_number f = None /\ err_segment_id f = None /\ element_xid f = None
  /\ is_identifier_error f = false.

(** ** Inputs of ASCII characters, plain definitions *)

(** The string holds characters below 128 only. *)
Definition ascii_only (s : string) : Prop :=
  PyStr.forallb (fun c => PyStr.code c <? 128) s = true.

(** No sub-element below the element has a negative [seq]. *)
Fixpoint subs_nonneg (e : BaseElement) : Prop :=
  match sub_elements e with
  | SubList l =>
      (fix all (l : list BaseElement) : Prop :=
         match l with
         | [] => True
         | s :: r => 0 <= el_seq s /\ subs_nonneg s /\ all r
         end) l
  | _ => True
  end.

(** A segment definition with no syntax rule and no negative [seq] below
    its elements. *)
Definition plain_definition_of (base : SegmentDefinition) : Prop :=
  default [] (rules base) = [] /\ Forall subs_nonneg (sd_elements base).

(** The definitions of the envelope segments, which [parse] validates
    outside any [try], are plain. *)
Definition envelope_definitions_plain (sch : ImplementationGuideSchema) : Prop :=
  forall id base,
    id ∈ ["ISA"; "IEA"; "GS"; "GE"] -> segmentDefinitions sch !! id = Some base ->
    plain_definition_of base.

(** * Properties *)

(** ** The models of the Python library, on the values the interpreter gives *)

Example split_keeps_empty_pieces :
  PyStr.split "~"%char "a~b~" = ["a"; "b"; ""] /\ PyStr.split "~"%char "" = [""].
Proof. by split. Qed.

Example strip_both_ends :
  PyStr.strip (String PyStr.LF "  a b " +:+ String PyStr.CR "") = "a b".
Proof. reflexivity. Qed.

Example int_of_strings :
  map PyStr.py_int ["1_0"; "_1"; " 12 "; "-5"; "+-5"; ""; "1__0"; "00"; "1_"; "+ 5"]
  = [Some 10; None; Some 12; Some (-5); None; None; None; Some 0; None; None].
Proof. reflexivity. Qed.

Example int_rejects_superscripts :
  PyStr.str_isdigit (String (PyStr.chr 178) "") = true
  /\ PyStr.py_int (String (PyStr.chr 178) "") = None.
Proof. by split. Qed.

Example zfill_pads_after_sign :
  PyStr.zfill 9 "123" = "000000123" /\ PyStr.zfill 5 "+12" = "+0012".
Proof. by split. Qed.

Example float_of_strings :
  map PyLib.py_float_ok
    ["1."; ".5"; "."; "1e5"; "1e"; "e5"; "1_0.5"; "1._5"; "1_.5"; "inf"; "-Infinity"; "+nan";
     "in"; "1e+5"; "0x10"; " 1 "; "1e5_0"; "1_e5"; "--1"; "+.5"; "-."; "1.e5"; ".e5"; "1.5.";
     ""; "a"; "12"]
  = [true; true; false; true; false; false; true; false; false; true; true; true;
     false; true; false; true; true; false; false; true; false; true; false; false;
     false; false; true].
Proof. reflexivity. Qed.

Example strptime_two_digit_year :
  map PyLib.strptime_ymd_ok
    ["240718"; "24021"; "2411"; "24111"; "2413"; "2410"; "240230"; "000229"; "990229";
     "24 101"; "2401 1"; "24011 "; "240100"; "241301"; ""; "2401"; "2400101"]
  = [true; true; true; true; true; false; false; true; false;
     false; true; false; false; false; false; false; false].
Proof. reflexivity. Qed.

Example strptime_hour_minute :
  map PyLib.strptime_HM_ok
    ["1200"; "9999"; "2400"; "2359"; "120"; "12"; "1"; "0"; "000"; "1260"; "1259"; "125";
     "25"; "60"; "6"; "12 00"; "00000"; "2459"; "246"]
  = [true; false; false; true; true; true; false; false; true; false; true; true;
     true; true; false; false; false; false; true].
Proof. reflexivity. Qed.

Example strptime_four_digit_year :
  map PyLib.strptime_Ymd_ok
    ["20240229"; "20230229"; "00010101"; "00000101"; "99991231"; "20241301"; "20240100";
     "2024011 "; "2024 101"]
  = [true; false; true; false; true; false; false; false; false].
Proof. reflexivity. Qed.

(** The limit of a loop whose repeat token [int] does not accept. *)
Lemma max_repeats_not_integer (x nm u r : string) (children : list StructureChild) :
  PyStr.py_int r = None -> max_repeats (Loop x nm u (RepeatStr r) children) = 99999.
Proof. intros Hr. simpl. by rewrite Hr. Qed.

(** ** Computations that leave the store as it is *)

Lemma bind_unfold {A B} (m : M A) (k : A -> M B) (h : heap) :
  bind m k h = match m h with
               | Ret a h' => k a h'
               | Raise e h' => Raise e h'
               | OutOfFuel => OutOfFuel
               end.
Proof. reflexivity. Qed.

Lemma read_only_ret {A} (a : A) : read_only (ret a).
Proof. intros h. left. by exists a. Qed.

Lemma read_only_raise {A} (e : exn) : read_only (@raise A e).
Proof. intros h. right. by exists e. Qed.

Lemma read_only_lift {A} (r : result A) : read_only (lift r).
Proof. destruct r; [apply read_only_ret | apply read_only_raise]. Qed.

Lemma read_only_read (l : loc) : read_only (read l).
Proof. intros h. left. by eexists. Qed.

Lemma read_only_bind {A B} (m : M A) (k : A -> M B) :
  read_only m -> (forall a, read_only (k a)) -> read_only (bind m k).
Proof.
  intros Hm Hk h. unfold bind.
  destruct (Hm h) as [[a ->] | [e ->]]; [apply Hk | right; by exists e].
Qed.

Lemma read_only_required_key {A} (k : string) (x : option A) : read_only (required_key k x).
Proof. destruct x; [apply read_only_ret | apply read_only_raise]. Qed.

Ltac ro_step :=
  first [ apply read_only_bind; [| intros ? ]
        | apply read_only_ret | apply read_only_raise | apply read_only_lift
        | apply read_only_read | apply read_only_required_key ].

Lemma read_only_get_element (l : loc) (pos : Z) : read_only (get_element l pos).
Proof. unfold get_element. repeat ro_step. Qed.

Lemma read_only_evaluate_condition_clause (l : loc) (c : ConditionClause) :
  read_only (_evaluate_condition_clause l c).
Proof.
  unfold _evaluate_condition_clause.
  ro_step; [ro_step |]. ro_step; [apply read_only_get_element |].
  destruct (operator c); try ro_step; destruct (cl_value c); ro_step.
Qed.

Lemma read_only_all_clauses (l : loc) (cs : list ConditionClause) :
  read_only (all_clauses l cs).
Proof.
  induction cs as [| c cs IH]; simpl; [ro_step |].
  ro_step; [apply read_only_evaluate_condition_clause |].
  match goal with b : bool |- _ => destruct b end; [apply IH | ro_step].
Qed.

Lemma read_only_any_clause (l : loc) (cs : list ConditionClause) :
  read_only (any_clause l cs).
Proof.
  induction cs as [| c cs IH]; simpl; [ro_step |].
  ro_step; [apply read_only_evaluate_condition_clause |].
  match goal with b : bool |- _ => destruct b end; [ro_step | apply IH].
Qed.

Lemma read_only_evaluate_conditions (l : loc) (c : Conditions) :
  read_only (_evaluate_conditions l c).
Proof.
  unfold _evaluate_conditions.
  destruct (ALL_OF c); [apply read_only_all_clauses |].
  destruct (ANY_OF c); [apply read_only_any_clause | ro_step].
Qed.

Lemma read_only_any_present (l : loc) (ps : list Z) : read_only (any_present l ps).
Proof.
  induction ps as [| p ps IH]; simpl; [ro_step |].
  ro_step; [apply read_only_get_element |].
  match goal with |- read_only (if ?b then _ else _) => destruct b end; [ro_step | apply IH].
Qed.

Lemma read_only_execute_assertion (l : loc) (a : AssertionClause) (rule_id : string) :
  read_only (_execute_assertion l a rule_id).
Proof.
  unfold _execute_assertion.
  destruct (assertion a);
    repeat first [ apply read_only_get_element | apply read_only_any_present | ro_step ].
Qed.

Lemma read_only_execute_assertions (l : loc) (asserts : list AssertionClause) (rule_id : string) :
  read_only (execute_assertions l asserts rule_id).
Proof.
  induction asserts as [| a r IH]; simpl; [ro_step |].
  ro_step; [apply read_only_execute_assertion |].
  ro_step; [apply IH | ro_step].
Qed.

Lemma read_only_each_rule (l : loc) (rs : list SyntaxRule) : read_only (each_rule l rs).
Proof.
  induction rs as [| rule r IH]; simpl; [ro_step |].
  ro_step; [apply read_only_evaluate_conditions |].
  ro_step.
  - match goal with b : bool |- _ => destruct b end;
      [apply read_only_execute_assertions | ro_step].
  - ro_step; [apply IH | ro_step].
Qed.

Lemma read_only_validate (v : SegmentValidator) (l : loc) (context_id : option string) :
  read_only (validate v l context_id).
Proof.
  unfold validate. ro_step; [ro_step |].
  destruct (segmentDefinitions (sv_schema v) !! segment_id a); [| ro_step].
  ro_step; [ro_step |]. ro_step; [ro_step |].
  ro_step; [apply read_only_each_rule | ro_step].
Qed.

Lemma read_only_find_best_from (v : SegmentValidator) (l : loc) (usage_counts : gmap nat Z)
    (nodes : list StructureChild) :
  forall i, read_only (find_best_from v l usage_counts i nodes).
Proof.
  induction nodes as [| n r IH]; intros i; simpl; [ro_step |].
  destruct (max_repeats n <=? usage_of usage_counts i); [apply IH |].
  ro_step; [ro_step |].
  destruct (negb (opt_str_eqb (_get_starting_segment_id n) (segment_id a))); [apply IH |].
  ro_step; [apply read_only_validate |].
  destruct (filter _ _); [ro_step | apply IH].
Qed.

Lemma read_only_find_from (sid : string) (segs : list loc) :
  forall i, read_only (find_from sid i segs).
Proof.
  induction segs as [| l r IH]; intros i; simpl; [ro_step |].
  ro_step; [ro_step |].
  destruct (String.eqb (segment_id a) sid); [ro_step | apply IH].
Qed.

(** ** The three gates of the best-match selection *)

Section GatesFacts.

Variable v : SegmentValidator.
Variable h : heap.
Variable current_segment : loc.
Variable usage_counts : gmap nat Z.

Lemma none_before_cons i j n r :
  ~ all_gates v h current_segment usage_counts i n -> none_before v h current_segment usage_counts (S i) j r -> none_before v h current_segment usage_counts i (S j) (n :: r).
Proof.
  intros Hn Hr [| j'] m Hlt Hm; simpl in Hm.
  - injection Hm as <-. by rewrite Nat.add_0_r.
  - rewrite Nat.add_succ_r. apply (Hr j' m); [lia | done].
Qed.

Lemma filter_identifier_nil (errs : list CdmValidationError) :
  filter (fun e => is_identifier_error e = true) errs = []
  <-> Forall (fun e => is_identifier_error e = false) errs.
Proof.
  induction errs as [| e r IH]; simpl.
  - split; [constructor | done].
  - rewrite filter_cons. destruct (is_identifier_error e) eqn:He.
    + rewrite decide_True by done. split; [done |]. intros HF. inversion HF; congruence.
    + rewrite decide_False by done. rewrite IH. split.
      * intros HF. by constructor.
      * intros HF. by inversion HF.
Qed.

(** What the scan of the siblings returns, from any position. *)
Lemma find_best_from_spec (nodes : list StructureChild) : forall i,
  match find_best_from v current_segment usage_counts i nodes h with
  | Ret (Some (n, k)) h' =>
      h' = h /\ exists j, k = (i + j)%nat /\ nodes !! j = Some n
                          /\ all_gates v h current_segment usage_counts k n /\ none_before v h current_segment usage_counts i j nodes
  | Ret None h' =>
      h' = h /\ none_before v h current_segment usage_counts i (length nodes) nodes
  | Raise e h' =>
      h' = h /\ exists j m, nodes !! j = Some m
                /\ usage_gate usage_counts (i + j) m /\ start_gate h current_segment m
                /\ validate v current_segment (trial_context_id m) h = Raise e h
                /\ none_before v h current_segment usage_counts i j nodes
  | OutOfFuel => False
  end.
Proof.
  induction nodes as [| n r IH]; intros i; simpl.
  - split; [done |]. intros j' m Hlt. simpl in Hlt. lia.
  - assert (Hskip : ~ all_gates v h current_segment usage_counts i n ->
      match find_best_from v current_segment usage_counts (S i) r h with
      | Ret (Some (n0, k)) h' =>
          h' = h /\ exists j, k = (i + j)%nat /\ (n :: r) !! j = Some n0
                              /\ all_gates v h current_segment usage_counts k n0 /\ none_before v h current_segment usage_counts i j (n :: r)
      | Ret None h' => h' = h /\ none_before v h current_segment usage_counts i (S (length r)) (n :: r)
      | Raise e h' =>
          h' = h /\ exists j m, (n :: r) !! j = Some m
                    /\ usage_gate usage_counts (i + j) m /\ start_gate h current_segment m
                    /\ validate v current_segment (trial_context_id m) h = Raise e h
                    /\ none_before v h current_segment usage_counts i j (n :: r)
      | OutOfFuel => False
      end).
    { intros Hn. specialize (IH (S i)).
      destruct (find_best_from v current_segment usage_counts (S i) r h)
        as [[[n0 k] |] h' | e h' |]; [| | | done].
      - destruct IH as (-> & j & -> & Hj & Hg & Hb). split; [done |].
        exists (S j). rewrite Nat.add_succ_r. split_and!; try done.
        by apply none_before_cons.
      - destruct IH as (-> & Hb). split; [done |]. by apply none_before_cons.
      - destruct IH as (-> & j & m & Hj & Hu & Hs & Hv & Hb). split; [done |].
        exists (S j), m. rewrite Nat.add_succ_r. split_and!; try done.
        by apply none_before_cons. }
    destruct (max_repeats n <=? usage_of usage_counts i) eqn:Hu.
    { apply Hskip. intros (Hg & _). unfold usage_gate in Hg. lia. }
    unfold bind at 1. unfold read at 1.
    destruct (negb (opt_str_eqb (_get_starting_segment_id n)
                      (segment_id (deref h current_segment)))) eqn:Hs.
    { apply Hskip. intros (_ & Hg & _). unfold start_gate in Hg.
      rewrite Hg in Hs. simpl in Hs. by rewrite String.eqb_refl in Hs. }
    assert (Hstart : start_gate h current_segment n).
    { unfold start_gate. apply negb_false_iff in Hs.
      destruct (_get_starting_segment_id n) as [x |]; [| done].
      simpl in Hs. apply String.eqb_eq in Hs. by subst. }
    assert (Husage : usage_gate usage_counts i n) by (unfold usage_gate; lia).
    unfold bind at 1.
    destruct (read_only_validate v current_segment (trial_context_id n) h)
      as [[errs Hv] | [e Hv]]; rewrite Hv.
    + destruct (filter (fun e => is_identifier_error e = true) errs) eqn:Hf.
      * split; [done |]. exists 0%nat. rewrite Nat.add_0_r. split_and!; try done.
        -- refine (conj Husage (conj Hstart _)).
           exists errs. split; [done |]. by apply filter_identifier_nil.
        -- intros j' m Hlt. lia.
      * apply Hskip. intros (_ & _ & errs' & Hv' & HF).
        rewrite Hv in Hv'. injection Hv' as <-.
        apply filter_identifier_nil in HF. congruence.
    + split; [done |]. exists 0%nat, n. rewrite Nat.add_0_r. split_and!; try done.
      intros j' m Hlt. lia.
Qed.

End GatesFacts.

(** ** The shape of the loops the matcher builds *)

Lemma flat_map_dict {A} (f : CdmLoop -> list A) (d : list (string * list CdmLoop)) :
  flat_map (fun '(_, ls) => flat_map f ls) d = flat_map f (flat_map snd d).
Proof.
  induction d as [| [k ls] r IH]; simpl; [done |].
  by rewrite flat_map_app, IH.
Qed.

Lemma loop_preorder_eq (l : CdmLoop) :
  loop_preorder l = segments l ++ flat_map loop_preorder (child_loops l).
Proof. destruct l. simpl. by rewrite flat_map_dict. Qed.

Lemma all_loops_eq (l : CdmLoop) :
  all_loops l = l :: flat_map all_loops (child_loops l).
Proof. destruct l. simpl. by rewrite flat_map_dict. Qed.

Lemma flat_map_perm {A B} (f : A -> list B) (l1 l2 : list A) :
  l1 ≡ₚ l2 -> flat_map f l1 ≡ₚ flat_map f l2.
Proof.
  induction 1; simpl; [done | by f_equiv | | by etrans].
  rewrite !app_assoc. f_equiv. apply Permutation_app_comm.
Qed.

Lemma loops_append_present (k : string) (l : CdmLoop) (d : list (string * list CdmLoop)) :
  loops_has k d = true -> flat_map snd (loops_append k l d) ≡ₚ flat_map snd d ++ [l].
Proof.
  induction d as [| [k' ls] r IH]; simpl; [done |].
  destruct (String.eqb k' k) eqn:Hk; simpl.
  - intros _. rewrite <- !app_assoc. f_equiv. apply Permutation_app_comm.
  - intros Hr. rewrite IH by done. by rewrite app_assoc.
Qed.

Lemma loops_has_app (k : string) (d1 d2 : list (string * list CdmLoop)) :
  loops_has k (d1 ++ d2) = loops_has k d1 || loops_has k d2.
Proof. unfold loops_has. apply existsb_app. Qed.

Lemma child_loops_add_loop (self sub : CdmLoop) :
  child_loops (add_loop self sub) ≡ₚ child_loops self ++ [sub].
Proof.
  unfold child_loops, add_loop. simpl.
  destruct (loops_has (loop_id sub) (loops self)) eqn:Hh.
  - by apply loops_append_present.
  - rewrite loops_append_present.
    + by rewrite flat_map_app; simpl; rewrite app_nil_r.
    + rewrite loops_has_app. simpl. by rewrite String.eqb_refl, orb_true_r.
Qed.

Lemma slice_nil {A} (c : nat) (l : list A) : slice c c l = [].
Proof. unfold slice. by rewrite Nat.sub_diag. Qed.

Lemma slice_app {A} (a b c : nat) (l : list A) :
  (a <= b)%nat -> (b <= c)%nat -> slice a c l = slice a b l ++ slice b c l.
Proof.
  intros Hab Hbc. unfold slice.
  replace (c - a)%nat with ((b - a) + (c - b))%nat by lia.
  rewrite <- take_take_drop, drop_drop.
  by replace (a + (b - a))%nat with b by lia.
Qed.

Lemma slice_one {A} (c : nat) (l : list A) (x : A) :
  l !! c = Some x -> slice c (S c) l = [x].
Proof.
  intros Hx. unfold slice. replace (S c - c)%nat with 1%nat by lia.
  by rewrite (drop_S _ _ _ Hx).
Qed.

Lemma slice_sublist_drop {A} (a b : nat) (l : list A) : sublist (slice a b l) (drop a l).
Proof. apply sublist_take. Qed.

Lemma slice_drop {A} (c n : nat) (l : list A) :
  slice 0 n (drop c l) = slice c (c + n) l.
Proof.
  unfold slice. rewrite Nat.sub_0_r, drop_0.
  by replace (c + n - c)%nat with n by lia.
Qed.

Lemma drop_sublist_drop {A} (a b : nat) (l : list A) :
  (a <= b)%nat -> sublist (drop b l) (drop a l).
Proof.
  intros Hab. replace b with (a + (b - a))%nat by lia.
  rewrite <- drop_drop. apply sublist_drop.
Qed.

Lemma grows_refl (segs : list loc) (loop : CdmLoop) (c : nat) : grows segs loop c loop c.
Proof.
  split_and!; [done | done | done |]. exists [], []. simpl.
  rewrite !app_nil_r, slice_nil. by split_and!.
Qed.

Lemma grows_trans (segs : list loc) (l0 l1 l2 : CdmLoop) (c0 c1 c2 : nat) :
  grows segs l0 c0 l1 c1 -> grows segs l1 c1 l2 c2 -> grows segs l0 c0 l2 c2.
Proof.
  intros (H01 & Hb1 & Hid1 & own1 & new1 & Hs1 & Hsub1 & Hc1 & He1 & Hp1 & Hf1)
         (H12 & Hb2 & Hid2 & own2 & new2 & Hs2 & Hsub2 & Hc2 & He2 & Hp2 & Hf2).
  split_and!; [lia | intros; apply Hb2, Hb1; done | congruence |].
  exists (own1 ++ own2), (new1 ++ new2).
  rewrite (slice_app c0 c1 c2) by done.
  split_and!.
  - by rewrite Hs2, Hs1, app_assoc.
  - by apply sublist_app.
  - by rewrite Hc2, Hc1, app_assoc.
  - by rewrite He2, He1, flat_map_app, app_assoc.
  - rewrite flat_map_app, <- Hp1, <- Hp2, <- !app_assoc. f_equiv.
    rewrite !app_assoc. f_equiv. apply Permutation_app_comm.
  - rewrite flat_map_app. apply Forall_app. split; [done |].
    eapply Forall_impl; [exact Hf2 |]. simpl. intros lp Hlp.
    etrans; [exact Hlp |]. by apply drop_sublist_drop.
Qed.

Lemma grows_segment (segs : list loc) (loop : CdmLoop) (c : nat) (l : loc) :
  segs !! c = Some l -> grows segs loop c (loop_add_segment loop l) (S c).
Proof.
  intros Hl. split_and!; [lia | | done |].
  - intros _. apply lookup_lt_Some in Hl. lia.
  - exists [l], []. simpl. rewrite !app_nil_r, (slice_one _ _ _ Hl).
    by split_and!.
Qed.

Lemma grows_errors (segs : list loc) (l0 l1 : CdmLoop) (c0 c1 : nat)
    (es : list CdmValidationError) :
  grows segs l0 c0 l1 c1 ->
  loop_id (loop_add_errors l1 es) = loop_id l0
  /\ segments (loop_add_errors l1 es) = segments l1
  /\ child_loops (loop_add_errors l1 es) = child_loops l1
  /\ loop_errors (loop_add_errors l1 es) = loop_errors l1 ++ es.
Proof. intros (_ & _ & Hid & _). by split_and!. Qed.

(** A sub-loop built on the rest of the window, closed by
    [build_tree_finish], and added to the loop under construction. *)
Lemma grows_loop (segs : list loc) (loop : CdmLoop) (c : nat) (xid : string)
    (sub : CdmLoop) (n : nat) (es : list CdmValidationError) :
  grows (drop c segs) (new_loop xid) 0 sub n ->
  let sub' := loop_add_errors sub es in
  grows segs loop c (loop_add_errors (add_loop loop sub') (loop_errors sub')) (c + n).
Proof.
  intros (_ & Hb & Hid & own & new & Hs & Hsub & Hc & He & Hp & Hf) sub'.
  simpl in Hs, Hc, He. rewrite slice_drop in Hsub, Hp. rewrite drop_0 in Hf.
  assert (Hpre : loop_preorder sub' ≡ₚ slice c (c + n) segs).
  { rewrite loop_preorder_eq. subst sub'. simpl.
    change (child_loops (loop_add_errors sub es)) with (child_loops sub).
    by rewrite Hs, (flat_map_perm _ _ _ Hc). }
  split_and!; [lia | | done |].
  - intros Hc'. specialize (Hb ltac:(lia)). rewrite length_drop in Hb. lia.
  - exists [], [sub']. cbn [flat_map app]. rewrite !app_nil_r.
    split_and!; try done.
    + apply sublist_nil_l.
    + apply child_loops_add_loop.
    + rewrite all_loops_eq. constructor.
      * subst sub'. simpl. rewrite Hs. etrans; [exact Hsub |]. apply slice_sublist_drop.
      * subst sub'. change (child_loops (loop_add_errors sub es)) with (child_loops sub).
        rewrite (flat_map_perm _ _ _ Hc). exact Hf.
Qed.

Lemma read_only_find_best_schema_match (self : EdiParser) (l : loc)
    (nodes : list StructureChild) (usage_counts : gmap nat Z) :
  read_only (_find_best_schema_match self l nodes usage_counts).
Proof. apply read_only_find_best_from. Qed.

(** Unfolding one iteration of the loop. *)
Lemma build_tree_while_S (fuel : nat) (self : EdiParser) (segs : list loc)
    (nodes : list StructureChild) (cdm_loop : CdmLoop) (cursor : nat)
    (usage_counts : gmap nat Z) :
  build_tree_while (S fuel) self segs nodes cdm_loop cursor usage_counts =
  match segs !! cursor with
  | None => ret (cdm_loop, cursor, usage_counts)
  | Some current_segment =>
      let* found := _find_best_schema_match self current_segment nodes usage_counts in
      match found with
      | Some (Seg s, schema_node_index) =>
          let* validation_errors :=
            validate (validator self) current_segment (contextDefinitionId s) in
          let* _ := errors_extend current_segment validation_errors in
          build_tree_while fuel self segs nodes
            (loop_add_segment cdm_loop current_segment) (S cursor)
            (increment usage_counts schema_node_index)
      | Some (Loop xid _ _ _ children, schema_node_index) =>
          let* st := build_tree_while fuel self (drop cursor segs) children
                       (new_loop xid) 0%nat (zero_counts (length children)) in
          let '(sub_loop, segments_consumed) := build_tree_finish children xid st in
          build_tree_while fuel self segs nodes
            (loop_add_errors (add_loop cdm_loop sub_loop) (loop_errors sub_loop))
            (cursor + segments_consumed)%nat
            (increment usage_counts schema_node_index)
      | None => ret (cdm_loop, cursor, usage_counts)
      end
  end.
Proof. reflexivity. Qed.

(** The state in which the loop exits comes from the state it started in
    by placing segments of the window, in order. *)
Lemma build_tree_while_grows (fuel : nat) (self : EdiParser) :
  forall segs nodes loop0 c0 usage0 h,
    match build_tree_while fuel self segs nodes loop0 c0 usage0 h with
    | Ret (loop, c, _) _ => grows segs loop0 c0 loop c
    | _ => True
    end.
Proof.
  induction fuel as [| fuel IH]; intros; [done |].
  rewrite build_tree_while_S.
  destruct (segs !! c0) as [cur |] eqn:Hcur; [| apply grows_refl].
  unfold bind at 1.
  destruct (read_only_find_best_schema_match self cur nodes usage0 h)
    as [[found Hf] | [e Hf]]; rewrite Hf; [| done].
  destruct found as [[[s | xid nm us rp children] i] |]; [| | apply grows_refl].
  - unfold bind at 1.
    destruct (read_only_validate (validator self) cur (contextDefinitionId s) h)
      as [[errs Hv] | [e Hv]]; rewrite Hv; [| done].
    unfold bind at 1, errors_extend at 1.
    specialize (IH segs nodes (loop_add_segment loop0 cur) (S c0) (increment usage0 i)
                  (alter (extend_errors errs) cur h)).
    destruct (build_tree_while fuel self segs nodes _ _ _ _) as [[[loop c] usage] h' | |];
      [| done | done].
    eapply grows_trans; [by apply grows_segment | exact IH].
  - unfold bind at 1.
    pose proof (IH (drop c0 segs) children (new_loop xid) 0%nat
                  (zero_counts (length children)) h) as IHsub.
    destruct (build_tree_while fuel self (drop c0 segs) children _ _ _ _)
      as [[[sub n] us'] h1 | |]; [| done | done].
    cbn [build_tree_finish].
    match goal with
    | |- match build_tree_while fuel self segs nodes ?l ?c ?u ?hh with _ => _ end =>
        specialize (IH segs nodes l c u hh);
        destruct (build_tree_while fuel self segs nodes l c u hh)
          as [[[loop c'] usage] h' | |]; [| done | done]
    end.
    eapply grows_trans; [| exact IH].
    exact (grows_loop segs loop0 c0 xid sub n _ IHsub).
Qed.

(** ** Termination of the matcher *)

(** More fuel does not change a result that was reached. *)
Lemma build_tree_while_mono (self : EdiParser) (fuel : nat) :
  forall fuel' segs nodes loop0 c0 usage0 h,
    (fuel <= fuel')%nat ->
    build_tree_while fuel self segs nodes loop0 c0 usage0 h <> OutOfFuel ->
    build_tree_while fuel' self segs nodes loop0 c0 usage0 h
    = build_tree_while fuel self segs nodes loop0 c0 usage0 h.
Proof.
  induction fuel as [| fuel IH]; intros fuel' segs nodes loop0 c0 usage0 h Hle Hr; [done |].
  destruct fuel' as [| fuel']; [lia |].
  rewrite build_tree_while_S in Hr. rewrite !build_tree_while_S.
  destruct (segs !! c0) as [cur |]; [| done].
  rewrite bind_unfold in Hr. rewrite !bind_unfold.
  destruct (_find_best_schema_match self cur nodes usage0 h) as [found h1 | |];
    [| done | done].
  destruct found as [[[s | xid nm us rp children] i] |]; [| | done].
  - rewrite bind_unfold in Hr. rewrite !bind_unfold.
    destruct (validate (validator self) cur (contextDefinitionId s) h1)
      as [errs h2 | |]; [| done | done].
    rewrite bind_unfold in Hr. rewrite !bind_unfold.
    destruct (errors_extend cur errs h2) as [u h3 | |]; [| done | done].
    apply IH; [lia | done].
  - rewrite bind_unfold in Hr. rewrite !bind_unfold.
    assert (Hsub : build_tree_while fuel self (drop c0 segs) children (new_loop xid) 0%nat
                     (zero_counts (length children)) h1 <> OutOfFuel).
    { intros Hs. by rewrite Hs in Hr. }
    rewrite (IH fuel' _ _ _ _ _ _ ltac:(lia) Hsub).
    destruct (build_tree_while fuel self (drop c0 segs) children _ _ _ _)
      as [[[sub n] us'] h2 | |]; [| done | done].
    cbn [build_tree_finish] in *.
    apply IH; [lia | done].
Qed.

Lemma usage_of_increment (usage_counts : gmap nat Z) (i k : nat) :
  usage_of (increment usage_counts i) k
  = if decide (i = k) then usage_of usage_counts i + 1 else usage_of usage_counts k.
Proof.
  unfold usage_of at 1, increment. rewrite lookup_insert.
  destruct (decide (i = k)); done.
Qed.

Lemma budget_from_increment_other (usage_counts : gmap nat Z) (k : nat)
    (nodes : list StructureChild) :
  forall i, (k < i)%nat ->
    budget_from (increment usage_counts k) i nodes = budget_from usage_counts i nodes.
Proof.
  induction nodes as [| n r IH]; intros i Hlt; simpl; [done |].
  rewrite usage_of_increment, decide_False by lia.
  by rewrite IH by lia.
Qed.

Lemma budget_from_increment (usage_counts : gmap nat Z) (nodes : list StructureChild) :
  forall i j n,
    nodes !! j = Some n ->
    usage_of usage_counts (i + j) < max_repeats n ->
    (S (budget_from (increment usage_counts (i + j)) i nodes)
     <= budget_from usage_counts i nodes)%nat.
Proof.
  induction nodes as [| m r IH]; intros i j n Hj Hu; [done |].
  destruct j as [| j]; simpl in Hj; simpl.
  - injection Hj as ->. rewrite Nat.add_0_r in *.
    rewrite usage_of_increment, decide_True by done.
    rewrite budget_from_increment_other by lia. lia.
  - rewrite usage_of_increment, decide_False by lia.
    specialize (IH (S i) j n Hj). replace (S i + j)%nat with (i + S j)%nat in IH by lia.
    specialize (IH Hu). lia.
Qed.

Lemma nodes_depth_lookup (nodes : list StructureChild) (j : nat) (n : StructureChild) :
  nodes !! j = Some n -> (node_depth n <= nodes_depth nodes)%nat.
Proof.
  revert j. induction nodes as [| m r IH]; intros j Hj; [done |].
  destruct j as [| j]; simpl in Hj.
  - injection Hj as ->. unfold nodes_depth. simpl. lia.
  - specialize (IH j Hj). unfold nodes_depth in *. simpl. lia.
Qed.

(** What [_find_best_schema_match] returns is a node of the list whose
    usage is below its limit. *)
Lemma find_best_found (self : EdiParser) (l : loc) (nodes : list StructureChild)
    (usage_counts : gmap nat Z) (h h' : heap) (n : StructureChild) (i : nat) :
  _find_best_schema_match self l nodes usage_counts h = Ret (Some (n, i)) h' ->
  h' = h /\ nodes !! i = Some n /\ usage_of usage_counts i < max_repeats n.
Proof.
  intros Hf. pose proof (find_best_from_spec (validator self) h l usage_counts nodes 0) as Hs.
  unfold _find_best_schema_match in Hf. rewrite Hf in Hs.
  destruct Hs as (-> & j & -> & Hj & (Hu & _) & _). by split_and!.
Qed.

(** With enough fuel the loop of the matcher exits or raises, from any
    state. *)
Lemma build_tree_while_terminates (self : EdiParser) (d : nat) :
  forall nodes, (nodes_depth nodes <= d)%nat ->
  forall segs m loop0 c0 usage0 h,
    (length segs - c0 + budget_from usage0 0 nodes <= m)%nat ->
    exists n, forall fuel, (n <= fuel)%nat ->
      build_tree_while fuel self segs nodes loop0 c0 usage0 h <> OutOfFuel.
Proof.
  induction d as [d IHd] using lt_wf_ind.
  intros nodes Hd segs m. induction m as [m IHm] using lt_wf_ind.
  intros loop0 c0 usage0 h Hm.
  destruct (segs !! c0) as [cur |] eqn:Hcur.
  2: { exists 1%nat. intros [| fuel] Hf; [lia |]. by rewrite build_tree_while_S, Hcur. }
  pose proof (lookup_lt_Some _ _ _ Hcur) as Hlt.
  destruct (read_only_find_best_schema_match self cur nodes usage0 h)
    as [[found Hf] | [e Hf]].
  2: { exists 1%nat. intros [| fuel] Hfu; [lia |].
       rewrite build_tree_while_S, Hcur. unfold bind. by rewrite Hf. }
  destruct found as [[[s | xid nm us rp children] i] |].
  3: { exists 1%nat. intros [| fuel] Hfu; [lia |].
       rewrite build_tree_while_S, Hcur. unfold bind. by rewrite Hf. }
  - destruct (find_best_found _ _ _ _ _ _ _ _ Hf) as (_ & Hi & Hu).
    destruct (read_only_validate (validator self) cur (contextDefinitionId s) h)
      as [[errs Hv] | [e Hv]].
    2: { exists 1%nat. intros [| fuel] Hfu; [lia |].
         rewrite build_tree_while_S, Hcur. unfold bind. by rewrite Hf, Hv. }
    pose proof (budget_from_increment usage0 nodes 0 i _ Hi Hu) as Hb. simpl in Hb.
    destruct (IHm (m - 1)%nat ltac:(lia) (loop_add_segment loop0 cur) (S c0)
                (increment usage0 i) (alter (extend_errors errs) cur h) ltac:(lia))
      as [n Hn].
    exists (S n). intros [| fuel] Hfu; [lia |].
    rewrite build_tree_while_S, Hcur. unfold bind. rewrite Hf, Hv.
    unfold errors_extend. apply Hn. lia.
  - destruct (find_best_found _ _ _ _ _ _ _ _ Hf) as (_ & Hi & Hu).
    pose proof (nodes_depth_lookup _ _ _ Hi) as Hdepth. simpl in Hdepth.
    pose proof (budget_from_increment usage0 nodes 0 i _ Hi Hu) as Hb. simpl in Hb.
    destruct (IHd (d - 1)%nat ltac:(lia) children ltac:(unfold nodes_depth; lia)
                (drop c0 segs) _ (new_loop xid) 0%nat (zero_counts (length children)) h
                (Nat.le_refl _)) as [n1 Hn1].
    pose proof (Hn1 n1 (Nat.le_refl _)) as Hsub.
    destruct (build_tree_while n1 self (drop c0 segs) children (new_loop xid) 0%nat
                (zero_counts (length children)) h) as [[[sub k] us'] h1 | e h1 |] eqn:Hr1;
      [| | done].
    + destruct (IHm (m - 1)%nat ltac:(lia)
                  (loop_add_errors
                     (add_loop loop0 (fst (build_tree_finish children xid (sub, k, us'))))
                     (loop_errors (fst (build_tree_finish children xid (sub, k, us')))))
                  (c0 + k)%nat (increment usage0 i) h1 ltac:(lia)) as [n2 Hn2].
      exists (S (Nat.max n1 n2)). intros [| fuel] Hfu; [lia |].
      rewrite build_tree_while_S, Hcur. unfold bind at 1. rewrite Hf.
      unfold bind at 1.
      rewrite (build_tree_while_mono self n1 fuel) by first [lia | by rewrite Hr1].
      rewrite Hr1. cbn [build_tree_finish fst] in *. apply Hn2. lia.
    + exists (S n1). intros [| fuel] Hfu; [lia |].
      rewrite build_tree_while_S, Hcur. unfold bind at 1. rewrite Hf.
      unfold bind at 1.
      rewrite (build_tree_while_mono self n1 fuel) by first [lia | by rewrite Hr1].
      by rewrite Hr1.
Qed.

(** ** What [_build_tree] returns *)

(** With enough fuel [_build_tree] returns or raises; what it returns is
    the state in which its loop exits, closed by the check of the required
    nodes. *)
Lemma build_tree_result (self : EdiParser) (segs : list loc) (nodes : list StructureChild)
    (parent : string) (h : heap) :
  exists n, forall fuel, (n <= fuel)%nat ->
    match build_tree_while fuel self segs nodes (new_loop parent) 0%nat
            (zero_counts (length nodes)) h with
    | Ret (loop0, c, usage_counts) h' =>
        _build_tree fuel self segs nodes parent h
        = Ret (loop_add_errors loop0 (required_missing parent usage_counts nodes), c) h'
        /\ grows segs (new_loop parent) 0 loop0 c
    | Raise e h' => _build_tree fuel self segs nodes parent h = Raise e h'
    | OutOfFuel => False
    end.
Proof.
  destruct (build_tree_while_terminates self (nodes_depth nodes) nodes (Nat.le_refl _)
              segs _ (new_loop parent) 0%nat (zero_counts (length nodes)) h (Nat.le_refl _))
    as [n Hn].
  exists n. intros fuel Hfuel. specialize (Hn fuel Hfuel).
  pose proof (build_tree_while_grows fuel self segs nodes (new_loop parent) 0%nat
                (zero_counts (length nodes)) h) as Hg.
  unfold _build_tree. rewrite bind_unfold.
  destruct (build_tree_while fuel self segs nodes _ _ _ h) as [[[loop0 c] u] h' | e h' |];
    [by split | done | done].
Qed.


(** ** Best-match selection *)

(** C1, as stated, fails: with the usage of a [">1"] loop at 99999 the
    loop passes the three gates as the claim words them (no limit, the
    starting id matches, the trial validation is clean), and the matcher
    selects no sibling. *)
Lemma best_match_limit_counterexample :
  spec_usage_gate {[0%nat := 99999]} 0%nat loop_2400
  /\ start_gate lx_heap 0%nat loop_2400
  /\ trial_gate (validator lx_parser) lx_heap 0%nat loop_2400
  /\ _find_best_schema_match lx_parser 0%nat [loop_2400] {[0%nat := 99999]} lx_heap
     = Ret None lx_heap.
Proof.
  split_and!.
  - exact I.
  - reflexivity.
  - exists []. split; [reflexivity | constructor].
  - reflexivity.
Qed.

(** C1 (amended): at every step of the loop, [_find_best_schema_match]
    leaves the store as it is and selects the earliest sibling, in schema
    order, that passes the three gates: its usage is strictly below its
    repeat limit ([max_use] of a segment node, [repeat] of a loop node,
    99999 for a repeat token that [int] does not accept: one that is no
    number, or one of more than 4300 digits); its starting segment
    id is the id of the current segment; its trial validation returns no
    finding with [is_identifier_error].  If no sibling passes, nothing is
    selected, and the loop of [_build_tree] exits with the cursor on the
    current segment, which is not consumed.  The scan stops on the first
    candidate whose trial validation raises. *)
Theorem best_match_selection (self : EdiParser) (current_segment : loc)
    (schema_nodes : list StructureChild) (usage_counts : gmap nat Z) (h : heap) :
  match _find_best_schema_match self current_segment schema_nodes usage_counts h with
  | Ret (Some (node, i)) h' =>
      h' = h /\ schema_nodes !! i = Some node
      /\ all_gates (validator self) h current_segment usage_counts i node
      /\ (forall j m, (j < i)%nat -> schema_nodes !! j = Some m ->
            ~ all_gates (validator self) h current_segment usage_counts j m)
  | Ret None h' =>
      h' = h
      /\ (forall j m, schema_nodes !! j = Some m ->
            ~ all_gates (validator self) h current_segment usage_counts j m)
      /\ (forall fuel before after cdm_loop,
            build_tree_while (S fuel) self (before ++ current_segment :: after) schema_nodes
              cdm_loop (length before) usage_counts h
            = Ret (cdm_loop, length before, usage_counts) h)
  | Raise e h' =>
      h' = h
      /\ exists j m, schema_nodes !! j = Some m
           /\ usage_gate usage_counts j m /\ start_gate h current_segment m
           /\ validate (validator self) current_segment (trial_context_id m) h = Raise e h
           /\ (forall j' m', (j' < j)%nat -> schema_nodes !! j' = Some m' ->
                 ~ all_gates (validator self) h current_segment usage_counts j' m')
  | OutOfFuel => False
  end.
Proof.
  pose proof (find_best_from_spec (validator self) h current_segment usage_counts
                schema_nodes 0) as Hs.
  unfold _find_best_schema_match in *.
  destruct (find_best_from (validator self) current_segment usage_counts 0 schema_nodes h)
    as [[[node i] |] h' | e h' |] eqn:Hf; [| | | done].
  - destruct Hs as (-> & j & -> & Hj & Hg & Hb). by split_and!.
  - destruct Hs as (-> & Hb). split_and!; [done | |].
    + intros j m Hj. apply (Hb j m); [by eapply lookup_lt_Some | done].
    + intros fuel before after cdm_loop. rewrite build_tree_while_S.
      rewrite list_lookup_middle by done.
      rewrite bind_unfold. unfold _find_best_schema_match. by rewrite Hf.
  - destruct Hs as (-> & j & m & Hj & Hu & Hst & Hv & Hb). split; [done |].
    exists j, m. by split_and!.
Qed.

(** ** Required children that are missing *)





(** ** Segment conservation and source order *)







(** ** What the matcher changes in the store *)

Lemma findings_added_refl (s : CdmSegment) : findings_added s s.
Proof. split_and!; try done. exists []. by rewrite app_nil_r. Qed.

Lemma findings_added_trans (s1 s2 s3 : CdmSegment) :
  findings_added s1 s2 -> findings_added s2 s3 -> findings_added s1 s3.
Proof.
  intros (? & ? & ? & ? & es1 & He1) (? & ? & ? & ? & es2 & He2).
  split_and!; try congruence. exists (es1 ++ es2). by rewrite He2, He1, app_assoc.
Qed.

Lemma touched_refl (ls : list loc) (h : heap) : touched ls h h.
Proof. intros l. split; [apply findings_added_refl | done]. Qed.

Lemma touched_trans (ls1 ls2 : list loc) (h1 h2 h3 : heap) :
  touched ls1 h1 h2 -> touched ls2 h2 h3 -> touched (ls1 ++ ls2) h1 h3.
Proof.
  intros H12 H23 l. destruct (H12 l) as [Ha1 Hn1]. destruct (H23 l) as [Ha2 Hn2]. split.
  - by eapply findings_added_trans.
  - intros Hl. rewrite elem_of_app in Hl. rewrite Hn2, Hn1; [done | |]; tauto.
Qed.

Lemma touched_extend (cur : loc) (es : list CdmValidationError) (h : heap) :
  touched [cur] h (alter (extend_errors es) cur h).
Proof.
  intros l. unfold deref. rewrite !nth_lookup, list_lookup_alter.
  destruct (decide (cur = l)) as [-> | Hne].
  - split; [| intros Hl; exfalso; apply Hl; by constructor].
    destruct (h !! l) as [s |]; simpl; [| apply findings_added_refl].
    split_and!; try done. by exists es.
  - split; [apply findings_added_refl | done].
Qed.

(** The matcher adds findings to objects of its window only: to those
    between the cursor it started on and the cursor it exits on when it
    returns, to some after the cursor it started on when it raises. *)
Lemma build_tree_while_touched (fuel : nat) (self : EdiParser) :
  forall segs nodes loop0 c0 usage0 h,
    match build_tree_while fuel self segs nodes loop0 c0 usage0 h with
    | Ret (_, c, _) h' => touched (slice c0 c segs) h h'
    | Raise _ h' => touched (drop c0 segs) h h'
    | OutOfFuel => True
    end.
Proof.
  induction fuel as [| fuel IH]; intros; [done |].
  pose proof (build_tree_while_grows (S fuel) self segs nodes loop0 c0 usage0 h) as Hgrow.
  rewrite build_tree_while_S in *.
  destruct (segs !! c0) as [cur |] eqn:Hcur; [| cbn [ret]; rewrite slice_nil; apply touched_refl].
  rewrite bind_unfold in *.
  destruct (read_only_find_best_schema_match self cur nodes usage0 h)
    as [[found Hf] | [e Hf]]; rewrite Hf in *; [| apply touched_refl].
  destruct found as [[[s | xid nm us rp children] i] |];
    [| | cbn [ret]; rewrite slice_nil; apply touched_refl].
  - rewrite bind_unfold in *.
    destruct (read_only_validate (validator self) cur (contextDefinitionId s) h)
      as [[errs Hv] | [e Hv]]; rewrite Hv in *; [| apply touched_refl].
    rewrite bind_unfold in *. unfold errors_extend at 1. unfold errors_extend at 1 in Hgrow.
    specialize (IH segs nodes (loop_add_segment loop0 cur) (S c0) (increment usage0 i)
                  (alter (extend_errors errs) cur h)).
    pose proof (build_tree_while_grows fuel self segs nodes (loop_add_segment loop0 cur)
                  (S c0) (increment usage0 i) (alter (extend_errors errs) cur h)) as Hg2.
    destruct (build_tree_while fuel self segs nodes _ _ _ _) as [[[loop c] usage] h' | e h' |];
      [| | done].
    + destruct Hg2 as (Hle & _).
      rewrite (slice_app c0 (S c0) c) by lia. rewrite (slice_one _ _ _ Hcur).
      eapply touched_trans; [apply touched_extend | exact IH].
    + rewrite (drop_S _ _ _ Hcur).
      exact (touched_trans [cur] _ _ _ _ (touched_extend cur errs h) IH).
  - rewrite bind_unfold in *.
    pose proof (IH (drop c0 segs) children (new_loop xid) 0%nat
                  (zero_counts (length children)) h) as IHsub.
    pose proof (build_tree_while_grows fuel self (drop c0 segs) children (new_loop xid) 0%nat
                  (zero_counts (length children)) h) as Hg1.
    destruct (build_tree_while fuel self (drop c0 segs) children _ _ _ _)
      as [[[sub n] us'] h1 | e h1 |]; [| by rewrite drop_0 in IHsub | done].
    cbn [build_tree_finish] in *. rewrite slice_drop in IHsub.
    match goal with
    | |- match build_tree_while fuel self segs nodes ?l ?c ?u ?hh with _ => _ end =>
        specialize (IH segs nodes l c u hh);
        pose proof (build_tree_while_grows fuel self segs nodes l c u hh) as Hg2;
        destruct (build_tree_while fuel self segs nodes l c u hh)
          as [[[loop c'] usage] h' | e h' |]; [| | done]
    end.
    + destruct Hg2 as (Hle & _).
      rewrite (slice_app c0 (c0 + n) c') by lia.
      by eapply touched_trans.
    + replace (drop c0 segs) with (slice c0 (c0 + n) segs ++ drop (c0 + n) segs).
      * by eapply touched_trans.
      * unfold slice. replace (c0 + n - c0)%nat with n by lia.
        rewrite <- drop_drop. apply take_drop.
Qed.


(** ** The validator is effect-free *)


(** ** [parse] can raise *)

(** C2 fails on the code: on this input [parse] raises the [ValueError]
    of [int] out of [_validate_format], called on the [ISA] segment
    outside the [try] of [_parse_transaction_set]; whatever the fuel, no
    interchange is returned. *)
Theorem parse_raises_on_superscript_time (fuel : nat) :
  exists h,
    parse_edi fuel superscript_time_edi isa_time_schema
    = Raise (ValueError ("invalid literal for int() with base 10: '"
                         +:+ String superscript_two (String superscript_two "'"))) h.
Proof. eexists. vm_compute. reflexivity. Qed.

(** The part of C2 that holds: without an [ISA] or without an [IEA] after
    it, [parse] returns an interchange with two new segments for header
    and trailer and the finding [ISA/IEA envelope not found.] *)
Lemma parse_envelope_not_found (fuel : nat) (self : EdiParser) (h : heap)
    (isa iea : option nat) :
  _find_next_segment "ISA" (all_segments self) 0 h = Ret isa h ->
  _find_next_segment "IEA" (all_segments self) (default 0%nat isa) h = Ret iea h ->
  isa = None \/ iea = None ->
  parse fuel self h
  = Ret (mkInterchange (length h) (S (length h)) []
           [error_of_message "ISA/IEA envelope not found."])
        (h ++ [mkSegment "ISA" [] 0 "" []] ++ [mkSegment "IEA" [] 0 "" []]).
Proof.
  intros Hisa Hiea Hnone. unfold parse. rewrite bind_unfold, Hisa, bind_unfold, Hiea.
  assert (Hgoal : (let* dummy_isa := alloc (mkSegment "ISA" [] 0 "" []) in
                   let* dummy_iea := alloc (mkSegment "IEA" [] 0 "" []) in
                   ret (mkInterchange dummy_isa dummy_iea []
                          [error_of_message "ISA/IEA envelope not found."])) h
                  = Ret (mkInterchange (length h) (S (length h)) []
                           [error_of_message "ISA/IEA envelope not found."])
                        (h ++ [mkSegment "ISA" [] 0 "" []] ++ [mkSegment "IEA" [] 0 "" []])).
  { rewrite bind_unfold. unfold alloc at 1. rewrite bind_unfold. unfold alloc, ret.
    rewrite length_app. simpl. rewrite Nat.add_1_r. by rewrite <- app_assoc. }
  destruct Hnone as [-> | ->]; [exact Hgoal |]. by destruct isa.
Qed.

Lemma parse_envelope_not_found_witness :
  parse 0 (mkParser lx_schema "*"%char "~"%char ":"%char [0%nat] (mkValidator lx_schema ":"%char))
        lx_heap
  = Ret (mkInterchange 1%nat 2%nat [] [error_of_message "ISA/IEA envelope not found."])
        (lx_heap ++ [mkSegment "ISA" [] 0 "" []] ++ [mkSegment "IEA" [] 0 "" []]).
Proof.
  apply (parse_envelope_not_found 0 _ lx_heap None None); [reflexivity | reflexivity | by left].
Defined.

(** ** The TA1 generator *)

Lemma append_cons (x : ascii) (a b : string) : String x a +:+ b = String x (a +:+ b).
Proof. reflexivity. Qed.

Lemma append_nil (b : string) : "" +:+ b = b.
Proof. reflexivity. Qed.

Lemma append_assoc (a b c : string) : (a +:+ b) +:+ c = a +:+ (b +:+ c).
Proof. induction a as [| x a IH]; [done |]. rewrite !append_cons. by f_equal. Qed.

Lemma segment_text_cons (f g : string) (fs : list string) (rest : string) :
  segment_text (f :: g :: fs) +:+ rest = f +:+ "*" +:+ (segment_text (g :: fs) +:+ rest).
Proof. unfold segment_text. cbn [PyStr.join]. by rewrite !append_assoc. Qed.

Lemma segment_text_one (f : string) (rest : string) :
  segment_text [f] +:+ rest = f +:+ "~" +:+ rest.
Proof. unfold segment_text. cbn [PyStr.join]. by rewrite !append_assoc. Qed.

(** The text [generate] returns, field by field. *)
Lemma generate_fields (now : datetime) (isa : CdmSegment) (errs : list InterchangeError)
    (force : bool) (s : string) :
  TA1Generator.generate now isa errs force = Some s ->
  let get := seg_get_element isa in
  let icn := PyStr.zfill 9 (strftime_ymd now +:+ strftime_HM now) in
  let date := default "" (get 9) in
  s = segment_text
        ["ISA"; or_str (get 1) "00"; or_str (get 2) (PyStr.spaces 10);
         or_str (get 3) "00"; or_str (get 4) (PyStr.spaces 10);
         or_str (get 7) "ZZ"; or_str (get 8) (PyStr.spaces 15);
         or_str (get 5) "ZZ"; or_str (get 6) (PyStr.spaces 15);
         strftime_ymd now; strftime_HM now; or_str (get 11) "^"; or_str (get 12) "00501";
         icn; "0"; or_str (get 15) "P"; or_str (get 16) ">"]
      +:+ segment_text
            ["TA1"; PyStr.zfill 9 (PyStr.strip (default "" (get 13)));
             if PyStr.len date =? 8 then PyStr.drop 2 date else date;
             default "" (get 10); ack_field errs; note_field errs]
      +:+ segment_text ["IEA"; "1"; icn].
Proof.
  unfold TA1Generator.generate. cbv zeta.
  destruct (length (elements isa) <? 16)%nat; [done |].
  destruct errs as [| e errs'];
    (match goal with |- (if ?b then _ else _) = _ -> _ => destruct b; [done |] end);
    intros Hs; injection Hs as <-;
    rewrite !segment_text_cons, !segment_text_one; unfold segment_text;
    cbn [PyStr.join ack_field note_field ack_code_value note_code_value];
    repeat (rewrite append_assoc || rewrite append_cons || rewrite append_nil);
    reflexivity.
Qed.

(** C4, as stated, fails in both directions: a header of 15 elements with
    ISA14 equal to [1] gets nothing, and a header whose ISA14 is [1]
    followed by a space, which is not [1], gets an acknowledgement. *)
Lemma ta1_suppression_counterexample :
  (TA1Generator.generate a_time (isa_header "ZZ" "1" ["P"]) [] false = None
   /\ seg_get_element (isa_header "ZZ" "1" ["P"]) 14 = Some "1")
  /\ (TA1Generator.generate a_time (isa_header "ZZ" "1 " ["P"; ":"]) [] false <> None
      /\ seg_get_element (isa_header "ZZ" "1 " ["P"; ":"]) 14 = Some "1 "
      /\ "1 " <> "1").
Proof. by split_and!. Qed.

(** C4 (amended): with no error and no forcing, [generate] returns
    nothing if and only if the header has fewer than 16 elements or its
    ISA14, trimmed of surrounding white space, is not [1]. *)
Theorem ta1_suppression (now : datetime) (isa : CdmSegment) :
  TA1Generator.generate now isa [] false = None
  <-> (length (elements isa) < 16)%nat \/ ~ ack_requested isa.
Proof.
  unfold TA1Generator.generate, ack_requested. cbv zeta.
  destruct (length (elements isa) <? 16)%nat eqn:Hlen.
  { apply Nat.ltb_lt in Hlen. split; [by left | done]. }
  apply Nat.ltb_ge in Hlen.
  destruct (seg_get_element isa 14) as [v |] eqn:Hv.
  - destruct (negb (String.eqb v "") && String.eqb (PyStr.strip v) "1") eqn:Hreq;
      cbn [negb andb].
    + apply andb_true_iff in Hreq as [_ Hs]. apply String.eqb_eq in Hs.
      split; [done |]. intros [Hlt | Hn]; [lia |]. exfalso. apply Hn. by exists v.
    + split; [| done]. intros _. right. intros (v' & Hv' & Hs). injection Hv' as <-.
      apply andb_false_iff in Hreq as [Hne | Hne].
      * apply negb_false_iff, String.eqb_eq in Hne. by subst.
      * apply String.eqb_neq in Hne. done.
  - cbn [negb andb]. split; [| done]. intros _. right. by intros (v' & Hv' & _).
Qed.

(** C5, as stated, fails: for a header whose receiver qualifier (ISA07)
    is empty, the sender qualifier of the response is [ZZ]. *)
Lemma ta1_swap_counterexample :
  exists s,
    TA1Generator.generate a_time (isa_header "" "1" ["P"; ":"]) [] false = Some s
    /\ seg_get_element (isa_header "" "1" ["P"; ":"]) 7 = Some ""
    /\ nth 5 (PyStr.split "*"%char s) "" = "ZZ".
Proof. eexists. split; [vm_compute; reflexivity |]. by split. Qed.

Lemma or_str_nonempty (v d : string) : v <> "" -> or_str (Some v) d = v.
Proof. intros Hv. unfold or_str. apply String.eqb_neq in Hv. by rewrite Hv. Qed.

(** Splitting on [*] gives back a first field that holds no [*]. *)
Lemma split_star_field (f rest : string) :
  star_free f ->
  PyStr.split "*"%char (f +:+ "*" +:+ rest) = f :: PyStr.split "*"%char rest.
Proof.
  rewrite (append_cons "*"%char "" rest), append_nil.
  unfold star_free. induction f as [| c f IH]; intros Hf; [reflexivity |].
  simpl in Hf. apply andb_true_iff in Hf as [Hc Hf].
  rewrite append_cons. cbn [PyStr.split].
  apply negb_true_iff in Hc. rewrite Hc, (IH Hf). reflexivity.
Qed.

(** C5 (amended): the text [generate] returns is an [ISA] segment, a
    [TA1] segment and an [IEA] segment.  The sender qualifier and id of
    the [ISA] are the receiver qualifier and id of the input (ISA07,
    ISA08), its receiver qualifier and id the sender qualifier and id of
    the input (ISA05, ISA06), where an empty qualifier is replaced by [ZZ]
    and an empty id by 15 spaces; when the first eight fields hold no [*],
    these are the fields 5 to 8 of the text split on [*].  The
    acknowledgement code is [A] when the error list is empty and [R]
    otherwise; the note code is [000] on acceptance and the note code of
    the first error on rejection. *)
Theorem ta1_swap_and_codes (now : datetime) (isa : CdmSegment)
    (errs : list InterchangeError) (force : bool) :
  match TA1Generator.generate now isa errs force with
  | Some s =>
      let receiver_qual := or_str (seg_get_element isa 7) "ZZ" in
      let receiver_id := or_str (seg_get_element isa 8) (PyStr.spaces 15) in
      let sender_qual := or_str (seg_get_element isa 5) "ZZ" in
      let sender_id := or_str (seg_get_element isa 6) (PyStr.spaces 15) in
      exists a1 a2 a3 a4 date time std ver icn ti cs icn0 date0 time0,
        s = segment_text
              ["ISA"; a1; a2; a3; a4; receiver_qual; receiver_id; sender_qual; sender_id;
               date; time; std; ver; icn; "0"; ti; cs]
            +:+ segment_text
                  ["TA1"; icn0; date0; time0;
                   match errs with [] => "A" | _ :: _ => "R" end;
                   match errs with
                   | [] => "000"
                   | e :: _ => note_code_value (note_code e)
                   end]
            +:+ segment_text ["IEA"; "1"; icn]
        /\ (Forall star_free [a1; a2; a3; a4; receiver_qual; receiver_id; sender_qual; sender_id] ->
            nth 5 (PyStr.split "*"%char s) "" = receiver_qual
            /\ nth 6 (PyStr.split "*"%char s) "" = receiver_id
            /\ nth 7 (PyStr.split "*"%char s) "" = sender_qual
            /\ nth 8 (PyStr.split "*"%char s) "" = sender_id)
  | None => True
  end.
Proof.
  destruct (TA1Generator.generate now isa errs force) as [s |] eqn:Hs; [| done].
  apply generate_fields in Hs. cbv zeta in Hs. cbv zeta.
  do 14 eexists. split; [exact Hs |].
  intros Hfree.
  repeat match goal with
         | H : Forall _ (_ :: _) |- _ => apply Forall_cons_1 in H; destruct H
         end.
  rewrite Hs, !segment_text_cons.
  rewrite !split_star_field by (done || reflexivity).
  by split_and!.
Qed.

(** C9, as stated, fails: for the header of the tests, whose ISA16 is
    [:], the ISA16 of the response is [:], not [>]. *)
Lemma ta1_component_separator_counterexample :
  exists s,
    TA1Generator.generate a_time (isa_header "ZZ" "1" ["P"; ":"]) [] false = Some s
    /\ nth 16 (PyStr.split "*"%char (hd "" (PyStr.split "~"%char s))) "" = ":".
Proof. eexists. split; [vm_compute; reflexivity |]. reflexivity. Qed.

(** C9 (amended): in the text [generate] returns the fields of each
    segment are joined by [*] and each segment is closed by [~], whatever
    the delimiters of the incoming interchange; the character at offset 3
    is [*].  ISA16 of the response is ISA16 of the header it was given,
    and [>] when that is empty. *)
Theorem ta1_wire_format (now : datetime) (isa : CdmSegment)
    (errs : list InterchangeError) (force : bool) :
  match TA1Generator.generate now isa errs force with
  | Some s =>
      (exists isa_fields ta1_fields iea_fields,
         s = segment_text (["ISA"] ++ isa_fields ++ [or_str (seg_get_element isa 16) ">"])
             +:+ segment_text ("TA1" :: ta1_fields)
             +:+ segment_text ("IEA" :: iea_fields)
         /\ length isa_fields = 15%nat /\ length ta1_fields = 5%nat
         /\ length iea_fields = 2%nat)
      /\ PyStr.index s 3 = Some "*"%char
  | None => True
  end.
Proof.
  destruct (TA1Generator.generate now isa errs force) as [s |] eqn:Hs; [| done].
  apply generate_fields in Hs. cbv zeta in Hs. split.
  - eexists [_; _; _; _; _; _; _; _; _; _; _; _; _; _; _], [_; _; _; _; _], [_; _].
    split; [exact Hs | done].
  - rewrite Hs. reflexivity.
Qed.

(** ** The delimiter self-test of the envelope validator *)







(** * Further properties *)

(** ** [_find_next_segment] *)

Lemma find_from_spec (sid : string) (segs : list loc) (h : heap) : forall i,
  match find_from sid i segs h with
  | Ret (Some k) h' =>
      h' = h /\ exists j l, k = (i + j)%nat /\ segs !! j = Some l
                /\ segment_id (deref h l) = sid
                /\ forall j' l', (j' < j)%nat -> segs !! j' = Some l' ->
                     segment_id (deref h l') <> sid
  | Ret None h' =>
      h' = h /\ forall j l, segs !! j = Some l -> segment_id (deref h l) <> sid
  | Raise _ _ | OutOfFuel => False
  end.
Proof.
  induction segs as [| l r IH]; intros i; simpl.
  - split; [done |]. intros j l Hj. done.
  - rewrite bind_unfold. cbn [read].
    destruct (String.eqb (segment_id (deref h l)) sid) eqn:He.
    + apply String.eqb_eq in He. cbn [ret]. split; [done |].
      exists 0%nat, l. rewrite Nat.add_0_r. split_and!; try done. intros j' l' Hlt. lia.
    + apply String.eqb_neq in He. specialize (IH (S i)).
      destruct (find_from sid (S i) r h) as [[k |] h' | |]; [| | done | done].
      * destruct IH as (-> & j & l0 & -> & Hj & Hid & Hmin). split; [done |].
        exists (S j), l0. split_and!; [lia | done | done |].
        intros [| j'] l' Hlt Hl'; simpl in Hl'.
        -- by injection Hl' as <-.
        -- apply (Hmin j' l'); [lia | done].
      * destruct IH as (-> & Hnone). split; [done |].
        intros [| j] l0 Hl0; simpl in Hl0.
        -- by injection Hl0 as <-.
        -- by apply (Hnone j l0).
Qed.

(** What [_find_next_segment] returns: the store is left as it is; an
    index is in the list, not before the start, on a segment with the id
    that is looked for. *)
Lemma find_next_segment_bounds (sid : string) (segs : list loc) (start : nat) (h : heap) :
  exists r, _find_next_segment sid segs start h = Ret r h
    /\ match r with
       | Some k => (start <= k < length segs)%nat
                   /\ segment_id (deref h (nth k segs 0%nat)) = sid
       | None => True
       end.
Proof.
  unfold _find_next_segment.
  pose proof (find_from_spec sid (drop start segs) h start) as Hs.
  destruct (find_from sid start (drop start segs) h) as [[k |] h' | |]; [| | done | done].
  - destruct Hs as (-> & j & l & -> & Hj & Hid & _). eexists. split; [done |].
    rewrite lookup_drop in Hj. pose proof (lookup_lt_Some _ _ _ Hj) as Hlt.
    split; [lia |]. by rewrite (nth_lookup_Some _ _ _ _ Hj).
  - destruct Hs as (-> & _). by eexists.
Qed.

(** [_find_next_segment] returns the least index from [start] on whose
    segment has the id [sid], and [None] (for -1) when no segment from
    [start] on has it; it leaves the store as it is and does not raise. *)
Theorem find_next_segment_least (sid : string) (segs : list loc) (start : nat) (h : heap) :
  match _find_next_segment sid segs start h with
  | Ret (Some k) h' =>
      h' = h /\ (start <= k)%nat
      /\ (exists l, segs !! k = Some l /\ segment_id (deref h l) = sid)
      /\ (forall j l, (start <= j < k)%nat -> segs !! j = Some l ->
            segment_id (deref h l) <> sid)
  | Ret None h' =>
      h' = h
      /\ (forall j l, (start <= j)%nat -> segs !! j = Some l -> segment_id (deref h l) <> sid)
  | Raise _ _ | OutOfFuel => False
  end.
Proof.
  unfold _find_next_segment.
  pose proof (find_from_spec sid (drop start segs) h start) as Hs.
  destruct (find_from sid start (drop start segs) h) as [[k |] h' | |]; [| | done | done].
  - destruct Hs as (-> & j & l & -> & Hj & Hid & Hmin). rewrite lookup_drop in Hj.
    split_and!; [done | lia | by exists l |].
    intros j' l' Hj' Hl'. apply (Hmin (j' - start)%nat l'); [lia |].
    rewrite lookup_drop. by replace (start + (j' - start))%nat with j' by lia.
  - destruct Hs as (-> & Hnone). split; [done |].
    intros j l Hj Hl. apply (Hnone (j - start)%nat l).
    rewrite lookup_drop. by replace (start + (j - start))%nat with j by lia.
Qed.

(** ** Stores that differ by findings only *)

Lemma only_findings_refl (h : heap) : only_findings h h.
Proof. intros l. apply findings_added_refl. Qed.

Lemma only_findings_trans (h1 h2 h3 : heap) :
  only_findings h1 h2 -> only_findings h2 h3 -> only_findings h1 h3.
Proof. intros H12 H23 l. eapply findings_added_trans; [apply H12 | apply H23]. Qed.

Lemma touched_only_findings (ls : list loc) (h h' : heap) :
  touched ls h h' -> only_findings h h'.
Proof. intros Ht l. apply (Ht l). Qed.

Lemma only_findings_extend (l : loc) (es : list CdmValidationError) (h : heap) :
  only_findings h (alter (extend_errors es) l h).
Proof. eapply touched_only_findings. apply touched_extend. Qed.

Lemma only_findings_id (h h' : heap) (l : loc) :
  only_findings h h' -> segment_id (deref h' l) = segment_id (deref h l).
Proof. intros Hf. apply (Hf l). Qed.

Lemma transaction_enveloped_mono (h h' : heap) (t : CdmTransaction) :
  only_findings h h' -> transaction_enveloped h t -> transaction_enveloped h' t.
Proof.
  intros Hf [Hs He]. split; by rewrite (only_findings_id h h' _ Hf).
Qed.

Lemma group_enveloped_mono (h h' : heap) (g : CdmFunctionalGroup) :
  only_findings h h' -> group_enveloped h g -> group_enveloped h' g.
Proof.
  intros Hf (Hs & He & Ht). split_and!; try by rewrite (only_findings_id h h' _ Hf).
  eapply Forall_impl; [exact Ht |]. intros t. by apply transaction_enveloped_mono.
Qed.

(** ** Termination of [parse] *)

(** From some fuel on [_build_tree] gives one result, which is not the
    lack of fuel; the store it ends in differs from the one it started in
    by findings only. *)
Lemma build_tree_stable (self : EdiParser) (segs : list loc) (nodes : list StructureChild)
    (parent : string) (h : heap) :
  exists n,
    (forall fuel, (n <= fuel)%nat ->
       _build_tree fuel self segs nodes parent h = _build_tree n self segs nodes parent h)
    /\ match _build_tree n self segs nodes parent h with
       | Ret _ h' | Raise _ h' => only_findings h h'
       | OutOfFuel => False
       end.
Proof.
  destruct (build_tree_while_terminates self (nodes_depth nodes) nodes (Nat.le_refl _)
              segs _ (new_loop parent) 0%nat (zero_counts (length nodes)) h (Nat.le_refl _))
    as [n Hn].
  exists n. split.
  - intros fuel Hfuel. unfold _build_tree. rewrite !bind_unfold.
    by rewrite (build_tree_while_mono self n fuel) by (try done; by apply Hn).
  - pose proof (Hn n (Nat.le_refl _)) as Hne.
    pose proof (build_tree_while_touched n self segs nodes (new_loop parent) 0%nat
                  (zero_counts (length nodes)) h) as Ht.
    unfold _build_tree. rewrite bind_unfold.
    destruct (build_tree_while n self segs nodes _ _ _ h) as [[[loop0 c] u] h' | e h' |];
      [| | done].
    + cbn [ret]. by eapply touched_only_findings.
    + by eapply touched_only_findings.
Qed.

(** From some fuel on [_parse_transaction_set] returns one transaction,
    for a block that is not empty: it does not raise. *)
Lemma parse_transaction_set_stable (self : EdiParser) (st : loc) (rest : list loc) (h : heap) :
  exists n txn h',
    (forall fuel, (n <= fuel)%nat ->
       _parse_transaction_set fuel self (st :: rest) h = Ret txn h')
    /\ only_findings h h'
    /\ txn_header txn = st /\ txn_trailer txn = List.last (st :: rest) st.
Proof.
  unfold _parse_transaction_set.
  destruct (st_loop_children_of (schema self)) as [children0 | e] eqn:Hst.
  2: { exists 0%nat. eexists _, h. split.
       { intros fuel _. unfold try_except. rewrite bind_unfold. cbn [lift raise].
         rewrite bind_unfold. cbn [read ret]. reflexivity. }
       split; [apply only_findings_refl | by split]. }
  remember (filter (fun child => negb (str_in (node_xid child) ["ST"; "SE"]) = true)
                   children0) as children eqn:Hch.
  destruct (build_tree_stable self (middle (st :: rest)) children "ST_LOOP" h)
    as (n & Hstable & Hres).
  exists n.
  destruct (_build_tree n self (middle (st :: rest)) children "ST_LOOP" h)
    as [[body_loop consumed] h1 | e h1 |] eqn:Hb; [| | done].
  - destruct (drop consumed (middle (st :: rest))) as [| p tail] eqn:Hd.
    + eexists _, h1. split.
      { intros fuel Hfuel. unfold try_except. rewrite bind_unfold. cbn [lift ret].
        rewrite bind_unfold, <- Hch, (Hstable fuel Hfuel), Hd. reflexivity. }
      split; [done | by split].
    + eexists _, h1. split.
      { intros fuel Hfuel. unfold try_except. rewrite bind_unfold. cbn [lift ret].
        rewrite bind_unfold, <- Hch, (Hstable fuel Hfuel), Hd.
        rewrite bind_unfold. cbn [read ret]. reflexivity. }
      split; [done | by split].
  - eexists _, h1. split.
    { intros fuel Hfuel. unfold try_except. rewrite bind_unfold. cbn [lift ret].
      rewrite bind_unfold, <- Hch, (Hstable fuel Hfuel).
      rewrite bind_unfold. cbn [read ret]. reflexivity. }
    split; [done | by split].
Qed.

Lemma slice_block {A} (a b : nat) (l : list A) (d : A) :
  (a <= b < length l)%nat ->
  exists rest, slice a (S b) l = nth a l d :: rest
               /\ List.last (nth a l d :: rest) (nth a l d) = nth b l d.
Proof.
  intros [Hab Hb].
  destruct (lookup_lt_is_Some_2 l b Hb) as [y Hy].
  assert (Ha : (a < length l)%nat) by lia.
  destruct (lookup_lt_is_Some_2 l a Ha) as [x Hx].
  rewrite (nth_lookup_Some _ _ _ _ Hx), (nth_lookup_Some _ _ _ _ Hy).
  rewrite (slice_app a b (S b)) by lia. rewrite (slice_one _ _ _ Hy).
  destruct (decide (a = b)) as [-> | Hne].
  - rewrite slice_nil. exists []. simpl. split; congruence.
  - rewrite (slice_app a (S a) b) by lia. rewrite (slice_one _ _ _ Hx).
    exists (slice (S a) b l ++ [y]). split; [by rewrite <- app_assoc |].
    rewrite app_comm_cons. apply last_last.
Qed.

Lemma parse_transactions_S (fuel : nat) (self : EdiParser) (transaction_segments : list loc)
    (ts_cursor : nat) (txns : list CdmTransaction) (ich_errs : list CdmValidationError) :
  parse_transactions (S fuel) self transaction_segments ts_cursor txns ich_errs =
  if (ts_cursor <? length transaction_segments)%nat then
    let* st := _find_next_segment "ST" transaction_segments ts_cursor in
    match st with
    | None => ret (txns, ich_errs)
    | Some st_idx =>
        let* se := _find_next_segment "SE" transaction_segments st_idx in
        match se with
        | None =>
            let* s := read (nth st_idx transaction_segments 0%nat) in
            ret (txns, ich_errs ++ [error_of_message
                   ("Unclosed transaction set at line " +:+ PyStr.of_Z (line_number s) +:+ ".")])
        | Some se_idx =>
            let* cdm_transaction :=
              _parse_transaction_set fuel self (slice st_idx (S se_idx) transaction_segments) in
            parse_transactions fuel self transaction_segments (S se_idx)
              (txns ++ [cdm_transaction]) ich_errs
        end
    end
  else ret (txns, ich_errs).
Proof. reflexivity. Qed.

(** From some fuel on the loop over the transaction sets returns one
    result: it does not raise; the transactions it adds are enveloped by
    an [ST] and an [SE]. *)
Lemma parse_transactions_stable (self : EdiParser) (ts : list loc) :
  forall m cursor txns errs h,
    (length ts - cursor <= m)%nat ->
    exists n txns' errs' h',
      (forall fuel, (n <= fuel)%nat ->
         parse_transactions fuel self ts cursor txns errs h = Ret (txns', errs') h')
      /\ only_findings h h'
      /\ exists new es, txns' = txns ++ new /\ errs' = errs ++ es
                        /\ Forall (transaction_enveloped h') new.
Proof.
  induction m as [m IH] using lt_wf_ind. intros cursor txns errs h Hm.
  assert (Hstop : forall es,
    (forall fuel, parse_transactions (S fuel) self ts cursor txns errs h
                  = Ret (txns, errs ++ es) h) ->
    exists n txns' errs' h',
      (forall fuel, (n <= fuel)%nat ->
         parse_transactions fuel self ts cursor txns errs h = Ret (txns', errs') h')
      /\ only_findings h h'
      /\ exists new es, txns' = txns ++ new /\ errs' = errs ++ es
                        /\ Forall (transaction_enveloped h') new).
  { intros es Hes. exists 1%nat, txns, (errs ++ es), h. split.
    - intros [| fuel] Hfuel; [lia | apply Hes].
    - split; [apply only_findings_refl |]. exists [], es. by rewrite app_nil_r. }
  destruct (cursor <? length ts)%nat eqn:Hc.
  2: { apply (Hstop []). intros fuel. rewrite parse_transactions_S, Hc. by rewrite app_nil_r. }
  apply Nat.ltb_lt in Hc.
  destruct (find_next_segment_bounds "ST" ts cursor h) as (st & Hst & Hstb).
  destruct st as [st_idx |].
  2: { apply (Hstop []). intros fuel. rewrite parse_transactions_S.
       apply Nat.ltb_lt in Hc. rewrite Hc, bind_unfold, Hst. by rewrite app_nil_r. }
  destruct Hstb as [Hsti Hstid].
  destruct (find_next_segment_bounds "SE" ts st_idx h) as (se & Hse & Hseb).
  destruct se as [se_idx |].
  2: { eapply Hstop. intros fuel. rewrite parse_transactions_S.
       apply Nat.ltb_lt in Hc. rewrite Hc, bind_unfold, Hst, bind_unfold, Hse.
       rewrite bind_unfold. cbn [read ret]. reflexivity. }
  destruct Hseb as [Hsei Hseid].
  destruct (slice_block st_idx se_idx ts 0%nat ltac:(lia)) as (rest & Hblock & Hlast).
  destruct (parse_transaction_set_stable self (nth st_idx ts 0%nat) rest h)
    as (n1 & txn & h1 & Hn1 & Hf1 & Hhd & Htl).
  destruct (IH (m - 1)%nat ltac:(lia) (S se_idx) (txns ++ [txn]) errs h1 ltac:(lia))
    as (n2 & txns' & errs' & h' & Hn2 & Hf2 & new & es & -> & -> & Hnew).
  exists (S (Nat.max n1 n2)), (txns ++ [txn] ++ new), (errs ++ es), h'. split.
  - intros [| fuel] Hfuel; [lia |]. rewrite parse_transactions_S.
    apply Nat.ltb_lt in Hc. rewrite Hc, bind_unfold, Hst, bind_unfold, Hse.
    rewrite bind_unfold, Hblock, (Hn1 fuel) by lia.
    rewrite (Hn2 fuel) by lia. by rewrite <- app_assoc.
  - split; [by eapply only_findings_trans |].
    exists (txn :: new), es. split_and!; [done | done |].
    constructor; [| done].
    apply (transaction_enveloped_mono h h'); [by eapply only_findings_trans |].
    split; [by rewrite Hhd | by rewrite Htl, Hlast].
Qed.

Lemma parse_groups_S (fuel : nat) (self : EdiParser) (group_segments : list loc)
    (cursor : nat) (groups : list CdmFunctionalGroup) (ich_errs : list CdmValidationError) :
  parse_groups (S fuel) self group_segments cursor groups ich_errs =
  if (cursor <? length group_segments)%nat then
    let* gs := _find_next_segment "GS" group_segments cursor in
    match gs with
    | None => ret (groups, ich_errs)
    | Some gs_idx =>
        let* ge := _find_next_segment "GE" group_segments gs_idx in
        match ge with
        | None =>
            let* s := read (nth gs_idx group_segments 0%nat) in
            ret (groups, ich_errs ++ [error_of_message
                   ("Unclosed functional group at line " +:+ PyStr.of_Z (line_number s) +:+ ".")])
        | Some ge_idx =>
            let gs_segment := nth gs_idx group_segments 0%nat in
            let ge_segment := nth ge_idx group_segments 0%nat in
            let* gs_errors := validate (validator self) gs_segment None in
            let* _ := errors_extend gs_segment gs_errors in
            let* ge_errors := validate (validator self) ge_segment None in
            let* _ := errors_extend ge_segment ge_errors in
            let* r := parse_transactions fuel self (slice (S gs_idx) ge_idx group_segments)
                        0%nat [] ich_errs in
            let '(txns, ich_errs') := r in
            parse_groups fuel self group_segments (S ge_idx)
              (groups ++ [mkGroup gs_segment ge_segment txns []]) ich_errs'
        end
    end
  else ret (groups, ich_errs).
Proof. reflexivity. Qed.

Lemma raised_by_validation_mono (self : EdiParser) (segs : list loc) (ids : list string)
    (h h1 : heap) (e : exn) (h' : heap) :
  only_findings h h1 -> raised_by_validation self segs ids h1 e h' ->
  raised_by_validation self segs ids h e h'.
Proof.
  intros Hf (l & Hl & Hid & Hf' & Hv). exists l. split_and!; try done.
  - by rewrite <- (only_findings_id h h1 l Hf).
  - by eapply only_findings_trans.
Qed.

(** From some fuel on the loop over the functional groups gives one
    result: the groups it adds are enveloped by a [GS] and a [GE]; an
    exception comes from the validation of a [GS] or of a [GE]. *)
Lemma parse_groups_stable (self : EdiParser) (gsegs : list loc) :
  forall m cursor groups errs h,
    (length gsegs - cursor <= m)%nat ->
    exists n out,
      (forall fuel, (n <= fuel)%nat ->
         parse_groups fuel self gsegs cursor groups errs h = out)
      /\ match out with
         | Ret (groups', errs') h' =>
             only_findings h h'
             /\ exists new es, groups' = groups ++ new /\ errs' = errs ++ es
                               /\ Forall (group_enveloped h') new
         | Raise e h' => raised_by_validation self gsegs ["GS"; "GE"] h e h'
         | OutOfFuel => False
         end.
Proof.
  induction m as [m IH] using lt_wf_ind. intros cursor groups errs h Hm.
  assert (Hstop : forall es,
    (forall fuel, parse_groups (S fuel) self gsegs cursor groups errs h
                  = Ret (groups, errs ++ es) h) ->
    exists n out,
      (forall fuel, (n <= fuel)%nat ->
         parse_groups fuel self gsegs cursor groups errs h = out)
      /\ match out with
         | Ret (groups', errs') h' =>
             only_findings h h'
             /\ exists new es, groups' = groups ++ new /\ errs' = errs ++ es
                               /\ Forall (group_enveloped h') new
         | Raise e h' => raised_by_validation self gsegs ["GS"; "GE"] h e h'
         | OutOfFuel => False
         end).
  { intros es Hes. exists 1%nat, (Ret (groups, errs ++ es) h). split.
    - intros [| fuel] Hfuel; [lia | apply Hes].
    - split; [apply only_findings_refl |]. exists [], es. by rewrite app_nil_r. }
  destruct (cursor <? length gsegs)%nat eqn:Hc.
  2: { apply (Hstop []). intros fuel. rewrite parse_groups_S, Hc. by rewrite app_nil_r. }
  apply Nat.ltb_lt in Hc.
  destruct (find_next_segment_bounds "GS" gsegs cursor h) as (gs & Hgs & Hgsb).
  destruct gs as [gs_idx |].
  2: { apply (Hstop []). intros fuel. rewrite parse_groups_S.
       apply Nat.ltb_lt in Hc. rewrite Hc, bind_unfold, Hgs. by rewrite app_nil_r. }
  destruct Hgsb as [Hgsi Hgsid].
  destruct (find_next_segment_bounds "GE" gsegs gs_idx h) as (ge & Hge & Hgeb).
  destruct ge as [ge_idx |].
  2: { eapply Hstop. intros fuel. rewrite parse_groups_S.
       apply Nat.ltb_lt in Hc. rewrite Hc, bind_unfold, Hgs, bind_unfold, Hge.
       rewrite bind_unfold. cbn [read ret]. reflexivity. }
  destruct Hgeb as [Hgei Hgeid].
  set (gs_segment := nth gs_idx gsegs 0%nat) in *.
  set (ge_segment := nth ge_idx gsegs 0%nat) in *.
  assert (Hgs_in : gs_segment ∈ gsegs).
  { apply list_elem_of_In, nth_In. lia. }
  assert (Hge_in : ge_segment ∈ gsegs).
  { apply list_elem_of_In, nth_In. lia. }
  assert (Hstep : forall fuel,
    parse_groups (S fuel) self gsegs cursor groups errs h =
    (let* gs_errors := validate (validator self) gs_segment None in
     let* _ := errors_extend gs_segment gs_errors in
     let* ge_errors := validate (validator self) ge_segment None in
     let* _ := errors_extend ge_segment ge_errors in
     let* r := parse_transactions fuel self (slice (S gs_idx) ge_idx gsegs) 0%nat [] errs in
     let '(txns, ich_errs') := r in
     parse_groups fuel self gsegs (S ge_idx)
       (groups ++ [mkGroup gs_segment ge_segment txns []]) ich_errs') h).
  { intros fuel. rewrite parse_groups_S.
    apply Nat.ltb_lt in Hc. rewrite Hc, bind_unfold, Hgs, bind_unfold, Hge. reflexivity. }
  destruct (read_only_validate (validator self) gs_segment None h) as [[gs_errors Hv1] | [e Hv1]].
  2: { exists 1%nat, (Raise e h). split.
       - intros [| fuel] Hfuel; [lia |]. by rewrite Hstep, bind_unfold, Hv1.
       - exists gs_segment. split_and!; [done | | apply only_findings_refl | done].
         rewrite Hgsid. by constructor. }
  set (h1 := alter (extend_errors gs_errors) gs_segment h).
  assert (Hf1 : only_findings h h1) by apply only_findings_extend.
  destruct (read_only_validate (validator self) ge_segment None h1) as [[ge_errors Hv2] | [e Hv2]].
  2: { exists 1%nat, (Raise e h1). split.
       - intros [| fuel] Hfuel; [lia |].
         rewrite Hstep, bind_unfold, Hv1, bind_unfold. unfold errors_extend at 1.
         fold h1. by rewrite bind_unfold, Hv2.
       - exists ge_segment. split_and!; [done | | done | done].
         rewrite Hgeid. by do 2 constructor. }
  set (h2 := alter (extend_errors ge_errors) ge_segment h1).
  assert (Hf2 : only_findings h h2).
  { eapply only_findings_trans; [exact Hf1 | apply only_findings_extend]. }
  destruct (parse_transactions_stable self (slice (S gs_idx) ge_idx gsegs) _ 0%nat [] errs h2
              (Nat.le_refl _))
    as (n1 & txns & errs1 & h3 & Hn1 & Hf3 & new1 & es1 & Htx & -> & Hnew1).
  simpl in Htx. subst txns.
  destruct (IH (m - 1)%nat ltac:(lia) (S ge_idx)
              (groups ++ [mkGroup gs_segment ge_segment new1 []]) (errs ++ es1) h3 ltac:(lia))
    as (n2 & out & Hn2 & Hout).
  assert (Hf03 : only_findings h h3) by (by eapply only_findings_trans).
  exists (S (Nat.max n1 n2)), out. split.
  - intros [| fuel] Hfuel; [lia |].
    rewrite Hstep, bind_unfold, Hv1, bind_unfold. unfold errors_extend at 1. fold h1.
    rewrite bind_unfold, Hv2, bind_unfold. unfold errors_extend at 1. fold h2.
    rewrite bind_unfold, (Hn1 fuel) by lia. apply Hn2. lia.
  - destruct out as [[groups' errs'] h' | e h' |]; [| | done].
    + destruct Hout as (Hf4 & new & es & -> & -> & Hnew).
      assert (Hf04 : only_findings h h') by (by eapply only_findings_trans).
      split; [done |].
      exists (mkGroup gs_segment ge_segment new1 [] :: new), (es1 ++ es).
      split_and!; [by rewrite <- app_assoc | by rewrite app_assoc |].
      constructor; [| done].
      split_and!; cbn [grp_header grp_trailer transactions].
      * by rewrite (only_findings_id h h' _ Hf04).
      * by rewrite (only_findings_id h h' _ Hf04).
      * eapply Forall_impl; [exact Hnew1 |]. intros t. by apply transaction_enveloped_mono.
    + by eapply raised_by_validation_mono.
Qed.

(** From some fuel on [parse] gives one result.  It returns an
    interchange whose header, trailer, groups and transaction sets are
    enveloped by segments of the right kind, or it raises an exception of
    the validation of an [ISA], [IEA], [GS] or [GE] segment; the segments
    of the store it started in only gain findings. *)
Lemma parse_stable (self : EdiParser) (h : heap) :
  exists n out,
    (forall fuel, (n <= fuel)%nat -> parse fuel self h = out)
    /\ match out with
       | Ret ic h' =>
           (forall l, (l < length h)%nat -> findings_added (deref h l) (deref h' l))
           /\ segment_id (deref h' (header ic)) = "ISA"
           /\ segment_id (deref h' (trailer ic)) = "IEA"
           /\ Forall (group_enveloped h') (functional_groups ic)
       | Raise e h' =>
           raised_by_validation self (all_segments self) ["ISA"; "IEA"; "GS"; "GE"] h e h'
       | OutOfFuel => False
       end.
Proof.
  destruct (find_next_segment_bounds "ISA" (all_segments self) 0 h) as (isa & Hisa & Hisab).
  destruct (find_next_segment_bounds "IEA" (all_segments self) (default 0%nat isa) h)
    as (iea & Hiea & Hieab).
  assert (Hnone : isa = None \/ iea = None ->
    exists n out,
      (forall fuel, (n <= fuel)%nat -> parse fuel self h = out)
      /\ match out with
         | Ret ic h' =>
             (forall l, (l < length h)%nat -> findings_added (deref h l) (deref h' l))
             /\ segment_id (deref h' (header ic)) = "ISA"
             /\ segment_id (deref h' (trailer ic)) = "IEA"
             /\ Forall (group_enveloped h') (functional_groups ic)
         | Raise e h' =>
             raised_by_validation self (all_segments self) ["ISA"; "IEA"; "GS"; "GE"] h e h'
         | OutOfFuel => False
         end).
  { intros Hn. exists 0%nat. eexists. split.
    - intros fuel _. apply (parse_envelope_not_found fuel self h isa iea Hisa Hiea Hn).
    - cbn [header trailer functional_groups]. split_and!.
      + intros l Hl. unfold deref. rewrite app_nth1 by done. apply findings_added_refl.
      + unfold deref. rewrite app_nth2 by lia. by rewrite Nat.sub_diag.
      + unfold deref. rewrite app_nth2 by lia.
        by replace (S (length h) - length h)%nat with 1%nat by lia.
      + constructor. }
  destruct isa as [isa_idx |]; [| apply Hnone; by left].
  destruct iea as [iea_idx |]; [| apply Hnone; by right].
  destruct Hisab as [Hisai Hisaid]. destruct Hieab as [Hieai Hieaid]. simpl in Hieai.
  set (segs := all_segments self) in *.
  set (isa_segment := nth isa_idx segs 0%nat) in *.
  set (iea_segment := nth iea_idx segs 0%nat) in *.
  assert (Hisa_in : isa_segment ∈ segs) by (apply list_elem_of_In, nth_In; lia).
  assert (Hiea_in : iea_segment ∈ segs) by (apply list_elem_of_In, nth_In; lia).
  assert (Hstep : forall fuel,
    parse fuel self h =
    (let* isa_errors := validate (validator self) isa_segment None in
     let* _ := errors_extend isa_segment isa_errors in
     let* iea_errors := validate (validator self) iea_segment None in
     let* _ := errors_extend iea_segment iea_errors in
     let* r := parse_groups fuel self (slice (S isa_idx) iea_idx segs) 0%nat [] [] in
     let '(groups, ich_errs) := r in
     ret (mkInterchange isa_segment iea_segment groups ich_errs)) h).
  { intros fuel. unfold parse. fold segs. rewrite bind_unfold, Hisa, bind_unfold, Hiea.
    reflexivity. }
  destruct (read_only_validate (validator self) isa_segment None h)
    as [[isa_errors Hv1] | [e Hv1]].
  2: { exists 0%nat, (Raise e h). split.
       - intros fuel _. by rewrite Hstep, bind_unfold, Hv1.
       - exists isa_segment. split_and!; [done | | apply only_findings_refl | done].
         rewrite Hisaid. by constructor. }
  set (h1 := alter (extend_errors isa_errors) isa_segment h).
  assert (Hf1 : only_findings h h1) by apply only_findings_extend.
  destruct (read_only_validate (validator self) iea_segment None h1)
    as [[iea_errors Hv2] | [e Hv2]].
  2: { exists 0%nat, (Raise e h1). split.
       - intros fuel _.
         rewrite Hstep, bind_unfold, Hv1, bind_unfold. unfold errors_extend at 1.
         fold h1. by rewrite bind_unfold, Hv2.
       - exists iea_segment. split_and!; [done | | done | done].
         rewrite Hieaid. by do 2 constructor. }
  set (h2 := alter (extend_errors iea_errors) iea_segment h1).
  assert (Hf2 : only_findings h h2).
  { eapply only_findings_trans; [exact Hf1 | apply only_findings_extend]. }
  destruct (parse_groups_stable self (slice (S isa_idx) iea_idx segs) _ 0%nat [] [] h2
              (Nat.le_refl _)) as (n & out & Hn & Hout).
  assert (Hrun : forall fuel, (n <= fuel)%nat ->
    parse fuel self h =
    match out with
    | Ret (groups, ich_errs) h' => Ret (mkInterchange isa_segment iea_segment groups ich_errs) h'
    | Raise e h' => Raise e h'
    | OutOfFuel => OutOfFuel
    end).
  { intros fuel Hfuel.
    rewrite Hstep, bind_unfold, Hv1, bind_unfold. unfold errors_extend at 1. fold h1.
    rewrite bind_unfold, Hv2, bind_unfold. unfold errors_extend at 1. fold h2.
    rewrite bind_unfold, (Hn fuel Hfuel). by destruct out as [[groups ich_errs] h' | |]. }
  exists n. eexists. split; [exact Hrun |].
  destruct out as [[groups ich_errs] h' | e h' |]; [| | done].
  - destruct Hout as (Hf3 & new & es & -> & -> & Hnew).
    assert (Hf : only_findings h h') by (by eapply only_findings_trans).
    cbn [header trailer functional_groups]. split_and!.
    + intros l _. apply Hf.
    + by rewrite (only_findings_id h h' _ Hf).
    + by rewrite (only_findings_id h h' _ Hf).
    + done.
  - destruct Hout as (l & Hl & Hid & Hf3 & Hv).
    exists l. split_and!.
    + apply (elem_of_sublist (slice (S isa_idx) iea_idx segs)); [done |].
      etrans; [apply slice_sublist_drop | apply sublist_drop].
    + rewrite <- (only_findings_id h h2 l Hf2).
      revert Hid. rewrite !elem_of_cons. tauto.
    + by eapply only_findings_trans.
    + done.
Qed.

(** With enough fuel [parse] returns or raises, and an exception it
    raises is one that [validate], called without a context, raised on an
    [ISA], [IEA], [GS] or [GE] segment of the input, in the store [parse]
    had reached: no other exception leaves [parse]. *)
Theorem parse_raises_only_from_envelope_validation (self : EdiParser) (h : heap) :
  exists n, forall fuel, (n <= fuel)%nat ->
    match parse fuel self h with
    | Ret _ _ => True
    | Raise e h' =>
        exists l, l ∈ all_segments self
          /\ segment_id (deref h l) ∈ ["ISA"; "IEA"; "GS"; "GE"]
          /\ validate (validator self) l None h' = Raise e h'
    | OutOfFuel => False
    end.
Proof.
  destruct (parse_stable self h) as (n & out & Hn & Hout).
  exists n. intros fuel Hfuel. rewrite (Hn fuel Hfuel).
  destruct out as [ic h' | e h' |]; [done | | done].
  destruct Hout as (l & Hl & Hid & _ & Hv). by exists l.
Qed.

(** The interchange [parse] returns is enveloped: its header is an [ISA]
    and its trailer an [IEA] segment, the header and trailer of each of
    its functional groups a [GS] and a [GE] segment, those of each
    transaction set an [ST] and an [SE] segment. *)
Theorem parse_envelope_identifiers (self : EdiParser) (h : heap) :
  exists n, forall fuel, (n <= fuel)%nat ->
    match parse fuel self h with
    | Ret ic h' =>
        segment_id (deref h' (header ic)) = "ISA"
        /\ segment_id (deref h' (trailer ic)) = "IEA"
        /\ (forall g, g ∈ functional_groups ic ->
              segment_id (deref h' (grp_header g)) = "GS"
              /\ segment_id (deref h' (grp_trailer g)) = "GE"
              /\ forall t, t ∈ transactions g ->
                   segment_id (deref h' (txn_header t)) = "ST"
                   /\ segment_id (deref h' (txn_trailer t)) = "SE")
    | Raise _ _ => True
    | OutOfFuel => False
    end.
Proof.
  destruct (parse_stable self h) as (n & out & Hn & Hout).
  exists n. intros fuel Hfuel. rewrite (Hn fuel Hfuel).
  destruct out as [ic h' | e h' |]; [| done | done].
  destruct Hout as (_ & Hisa & Hiea & Hgroups). split_and!; [done | done |].
  intros g Hg. rewrite Forall_forall in Hgroups.
  destruct (Hgroups g Hg) as (Hgs & Hge & Htxns). split_and!; [done | done |].
  intros t Ht. rewrite Forall_forall in Htxns. apply (Htxns t Ht).
Qed.

(** [parse] changes no segment of the store it starts in otherwise than
    by adding findings at the end of its list: identifier, elements, line
    number and raw text stay as the decoder made them, whether [parse]
    returns or raises. *)
Theorem parse_only_adds_findings (self : EdiParser) (h : heap) :
  exists n, forall fuel, (n <= fuel)%nat ->
    match parse fuel self h with
    | Ret _ h' | Raise _ h' =>
        forall l, (l < length h)%nat ->
          segment_id (deref h' l) = segment_id (deref h l)
          /\ elements (deref h' l) = elements (deref h l)
          /\ line_number (deref h' l) = line_number (deref h l)
          /\ raw_segment (deref h' l) = raw_segment (deref h l)
          /\ exists es, errors (deref h' l) = errors (deref h l) ++ es
    | OutOfFuel => False
    end.
Proof.
  destruct (parse_stable self h) as (n & out & Hn & Hout).
  exists n. intros fuel Hfuel. rewrite (Hn fuel Hfuel).
  destruct out as [ic h' | e h' |]; [| | done].
  - destruct Hout as (Hf & _). intros l Hl. apply (Hf l Hl).
  - destruct Hout as (_ & _ & _ & Hf & _). intros l _. apply (Hf l).
Qed.

(** ** The validation service *)

Lemma alloc_all_ret (segs : list CdmSegment) : forall h,
  alloc_all segs h = Ret (seq (length h) (length segs)) (h ++ segs).
Proof.
  induction segs as [| s r IH]; intros h; simpl.
  - by rewrite app_nil_r.
  - rewrite bind_unfold. unfold alloc at 1. rewrite bind_unfold, IH.
    rewrite length_app. simpl. rewrite Nat.add_1_r, <- app_assoc. reflexivity.
Qed.

Lemma EdiParser_init_ret (edi_string : string) (sch : ImplementationGuideSchema) (h : heap) :
  exists p, EdiParser_init edi_string sch h = Ret p (h ++ _segmentize (element_delimiter p)
                                                         (segment_terminator p) edi_string)
            /\ schema p = sch
            /\ (element_delimiter p, segment_terminator p, component_separator p)
               = _detect_delimiters edi_string
            /\ all_segments p = seq (length h) (length (_segmentize (element_delimiter p)
                                                           (segment_terminator p) edi_string)).
Proof.
  unfold EdiParser_init. destruct (_detect_delimiters edi_string) as [[e t] c].
  rewrite bind_unfold, alloc_all_ret.
  exists (mkParser sch e t c (seq (length h) (length (_segmentize e t edi_string)))
                   (mkValidator sch c)).
  by split_and!.
Qed.

(** With enough fuel [validate_edi] returns a result and never raises,
    whatever the input and the schemas: an exception of the parser is
    turned into the one finding [Validation failed: ...] of an invalid
    result, and so is a schema name that is not loaded.  A result is
    valid exactly when it has no finding. *)
Theorem validate_edi_never_raises (self : EDIValidationService)
    (edi_content schema_name : string) (snip_level : Z) (h : heap) :
  exists n, forall fuel, (n <= fuel)%nat ->
    exists r h',
      validate_edi fuel self edi_content schema_name snip_level h = Ret r h'
      /\ (valid r = true <-> findings r = [])
      /\ (get_base_schema (schema_manager self) schema_name = None ->
          r = mkResult false
                [mkFinding "error" "VALIDATION_ERROR"
                   ("Validation failed: Schema not found: " +:+ schema_name)
                   (mkLocation "DOCUMENT" "DOCUMENT" 1)])
      /\ (forall sch e h1,
            get_base_schema (schema_manager self) schema_name = Some sch ->
            (let* parser := EdiParser_init edi_content sch in parse fuel parser) h
            = Raise e h1 ->
            r = mkResult false
                  [mkFinding "error" "VALIDATION_ERROR"
                     ("Validation failed: " +:+ exn_str e)
                     (mkLocation "DOCUMENT" "DOCUMENT" 1)]).
Proof.
  unfold validate_edi.
  destruct (get_base_schema (schema_manager self) schema_name) as [sch |].
  2: { exists 0%nat. intros fuel _. eexists _, _. split; [reflexivity |].
       split; [by split |]. split; [done | by intros]. }
  destruct (EdiParser_init_ret edi_content sch h) as (p & Hp & _).
  destruct (parse_stable p (h ++ _segmentize (element_delimiter p) (segment_terminator p)
                                   edi_content)) as (n & out & Hn & Hout).
  exists n. intros fuel Hfuel. unfold try_except.
  rewrite bind_unfold, Hp, bind_unfold, (Hn fuel Hfuel).
  destruct out as [ic h' | e h' |]; [| | done].
  - rewrite bind_unfold. unfold _collect_all_errors at 1. cbn [ret].
    eexists _, _. split; [reflexivity |]. split; [| split; [done |]].
    + cbn [valid findings]. destruct (map finding_of _); by split.
    + intros sch' e h1 [= <-] Hr. by rewrite bind_unfold, Hp, (Hn fuel Hfuel) in Hr.
  - eexists _, _. split; [reflexivity |]. split; [by split |]. split; [done |].
    intros sch' e0 h1 [= <-] Hr. rewrite bind_unfold, Hp, (Hn fuel Hfuel) in Hr.
    by injection Hr as <- _.
Qed.

(** ** Splitting, joining and trimming *)

Lemma split_not_nil (c : ascii) (s : string) : PyStr.split c s <> [].
Proof.
  destruct s as [| a r]; simpl; [done |].
  destruct (Ascii.eqb a c); [done |]. by destruct (PyStr.split c r).
Qed.

Lemma join_cons (sep x y : string) (l : list string) :
  PyStr.join sep (x :: y :: l) = x +:+ sep +:+ PyStr.join sep (y :: l).
Proof. reflexivity. Qed.

Lemma join_split (c : ascii) (s : string) :
  PyStr.join (PyStr.of_char c) (PyStr.split c s) = s.
Proof.
  induction s as [| a r IH]; [done |]. cbn [PyStr.split].
  pose proof (split_not_nil c r) as Hne.
  destruct (PyStr.split c r) as [| p ps] eqn:Hs; [done |].
  destruct (Ascii.eqb a c) eqn:Ha.
  - apply Ascii.eqb_eq in Ha. subst a. rewrite join_cons, IH. reflexivity.
  - destruct ps as [| q qs].
    + simpl in *. by rewrite IH.
    + rewrite join_cons, append_cons, <- join_cons. by rewrite IH.
Qed.

Lemma split_char_free (c : ascii) (s : string) :
  Forall (char_free c) (PyStr.split c s).
Proof.
  induction s as [| a r IH]; simpl.
  - by repeat constructor.
  - destruct (Ascii.eqb a c) eqn:Ha.
    + constructor; [done | exact IH].
    + destruct (PyStr.split c r) as [| p ps]; [repeat constructor |].
      * unfold char_free. simpl. by rewrite Ha.
      * inversion IH as [| ? ? Hp Hps]; subst. constructor; [| done].
        unfold char_free in *. simpl. by rewrite Ha.
Qed.

Lemma lstrip_by_forallb (p q : ascii -> bool) (s : string) :
  PyStr.forallb q s = true -> PyStr.forallb q (PyStr.lstrip_by p s) = true.
Proof.
  induction s as [| a r IH]; [done |]. intros Hq. simpl in *.
  apply andb_true_iff in Hq as [Ha Hr].
  destruct (p a); [by apply IH |]. simpl. by rewrite Ha, Hr.
Qed.

Lemma rstrip_by_forallb (p q : ascii -> bool) (s : string) :
  PyStr.forallb q s = true -> PyStr.forallb q (PyStr.rstrip_by p s) = true.
Proof.
  induction s as [| a r IH]; [done |]. intros Hq. simpl in *.
  apply andb_true_iff in Hq as [Ha Hr]. specialize (IH Hr).
  destruct (PyStr.rstrip_by p r) as [| b r'].
  - destruct (p a); [done |]. simpl. by rewrite Ha.
  - simpl in *. by rewrite Ha, IH.
Qed.

Lemma strip_char_free (c : ascii) (s : string) :
  char_free c s -> char_free c (PyStr.strip s).
Proof. intros Hs. by apply rstrip_by_forallb, lstrip_by_forallb. Qed.

Lemma rstrip_by_idem (p : ascii -> bool) (s : string) :
  PyStr.rstrip_by p (PyStr.rstrip_by p s) = PyStr.rstrip_by p s.
Proof.
  induction s as [| a r IH]; [done |]. simpl.
  destruct (PyStr.rstrip_by p r) as [| b r'] eqn:Hr.
  - destruct (p a) eqn:Ha; [done |]. simpl. by rewrite Ha.
  - change (PyStr.rstrip_by p (String a (String b r')))
      with (match PyStr.rstrip_by p (String b r') with
            | EmptyString => if p a then EmptyString else String a EmptyString
            | String x y => String a (String x y)
            end).
    by rewrite IH.
Qed.

(** What is left of a string trimmed on the left is empty or starts with
    a character that is kept; trimming on the right keeps that start. *)
Lemma lstrip_by_head (p : ascii -> bool) (s : string) :
  match PyStr.lstrip_by p s with
  | EmptyString => True
  | String a _ => p a = false
  end.
Proof.
  induction s as [| a r IH]; [done |]. simpl.
  destruct (p a) eqn:Ha; [exact IH | done].
Qed.

Lemma rstrip_by_head (p : ascii -> bool) (a : ascii) (r : string) :
  p a = false -> exists r', PyStr.rstrip_by p (String a r) = String a r'.
Proof.
  intros Ha. simpl. destruct (PyStr.rstrip_by p r) as [| b r'].
  - rewrite Ha. by eexists.
  - by eexists.
Qed.

Lemma strip_idem (s : string) : PyStr.strip (PyStr.strip s) = PyStr.strip s.
Proof.
  unfold PyStr.strip.
  pose proof (lstrip_by_head PyStr.isspace s) as Hh.
  destruct (PyStr.lstrip_by PyStr.isspace s) as [| a r] eqn:Hl; [done |].
  destruct (rstrip_by_head PyStr.isspace a r Hh) as [r' Hr].
  rewrite Hr. cbn [PyStr.lstrip_by]. rewrite Hh, <- Hr. apply rstrip_by_idem.
Qed.

(** ** The decoder ([_segmentize]) *)

Lemma enumerate_elements_value (parts : list string) : forall i,
  map value (enumerate_elements i parts) = parts.
Proof. induction parts as [| v r IH]; intros i; simpl; [done | by rewrite IH]. Qed.

Lemma enumerate_elements_length (parts : list string) : forall i,
  length (enumerate_elements i parts) = length parts.
Proof. induction parts as [| v r IH]; intros i; simpl; [done | by rewrite IH]. Qed.

Lemma enumerate_elements_nth (parts : list string) : forall i j,
  nth_error (enumerate_elements i parts) j
  = option_map (fun v => mkElement v (i + Z.of_nat j + 1)) (nth_error parts j).
Proof.
  induction parts as [| v r IH]; intros i [| j]; simpl; try done.
  - do 2 f_equal. lia.
  - rewrite IH. destruct (nth_error r j); simpl; [| done]. do 2 f_equal. lia.
Qed.

Lemma enumerate_elements_position (parts : list string) : forall i,
  map position (enumerate_elements i parts)
  = map (fun n => i + Z.of_nat n) (seq 1 (length parts)).
Proof.
  induction parts as [| v r IH]; intros i; [done |].
  cbn [enumerate_elements map length position]. rewrite <- cons_seq. cbn [map].
  rewrite IH, <- (seq_shift (length r) 1), map_map. f_equal; try lia.
  apply map_ext. intros n. lia.
Qed.

(** The dictionary of the values by position, for elements numbered from
    [i + 1] on. *)
Lemma elements_in_data_enumerate (parts : list string) : forall i (m : gmap Z string) k,
  fold_left (fun m el => <[position el := value el]> m) (enumerate_elements i parts) m !! k
  = if (i <? k) && (k <=? i + Z.of_nat (length parts))
    then nth_error parts (Z.to_nat (k - i - 1))
    else m !! k.
Proof.
  induction parts as [| v r IH]; intros i m k.
  - cbn [enumerate_elements fold_left length].
    destruct (Z.ltb_spec i k), (Z.leb_spec k (i + Z.of_nat 0)); simpl; try done. lia.
  - cbn [enumerate_elements fold_left position value]. rewrite IH.
    cbn [length].
    destruct (Z.ltb_spec (i + 1) k), (Z.leb_spec k (i + 1 + Z.of_nat (length r))),
             (Z.ltb_spec i k), (Z.leb_spec k (i + Z.of_nat (S (length r))));
      cbn [andb]; try lia.
    + replace (Z.to_nat (k - i - 1)) with (S (Z.to_nat (k - (i + 1) - 1))) by lia. done.
    + rewrite lookup_insert_ne by lia. done.
    + assert (k = i + 1) as -> by lia. rewrite lookup_insert_eq.
      by replace (Z.to_nat (i + 1 - i - 1)) with 0%nat by lia.
    + rewrite lookup_insert_ne by lia. done.
Qed.

(** The segments the loop of [_segmentize] makes: each comes from one
    piece of the input, trimmed and not empty, and is numbered by the
    index of its piece. *)
Lemma segmentize_from_shape (e : ascii) (raws : list string) : forall i,
  Forall (fun s => exists j raw,
            raws !! j = Some raw /\ PyStr.strip raw <> ""
            /\ s = mkSegment (hd "" (PyStr.split e (PyStr.strip raw)))
                             (enumerate_elements 0 (tl (PyStr.split e (PyStr.strip raw))))
                             (i + Z.of_nat j + 1) (PyStr.strip raw) [])
         (segmentize_from e i raws).
Proof.
  induction raws as [| raw r IH]; intros i; simpl; [constructor |].
  assert (Hrest : Forall (fun s => exists j raw0,
            (raw :: r) !! j = Some raw0 /\ PyStr.strip raw0 <> ""
            /\ s = mkSegment (hd "" (PyStr.split e (PyStr.strip raw0)))
                             (enumerate_elements 0 (tl (PyStr.split e (PyStr.strip raw0))))
                             (i + Z.of_nat j + 1) (PyStr.strip raw0) [])
         (segmentize_from e (i + 1) r)).
  { eapply Forall_impl; [apply IH |]. intros s (j & raw0 & Hj & Hne & ->).
    exists (S j), raw0. split_and!; [done | done |]. f_equal. lia. }
  destruct (String.eqb (PyStr.strip raw) "") eqn:Hraw; [exact Hrest |].
  apply String.eqb_neq in Hraw.
  assert (Hhere : exists j raw0,
            (raw :: r) !! j = Some raw0 /\ PyStr.strip raw0 <> ""
            /\ mkSegment (hd "" (PyStr.split e (PyStr.strip raw)))
                 (enumerate_elements 0 (tl (PyStr.split e (PyStr.strip raw))))
                 (i + 1) (PyStr.strip raw) []
               = mkSegment (hd "" (PyStr.split e (PyStr.strip raw0)))
                   (enumerate_elements 0 (tl (PyStr.split e (PyStr.strip raw0))))
                   (i + Z.of_nat j + 1) (PyStr.strip raw0) []).
  { exists 0%nat, raw. split_and!; [done | done |]. f_equal. lia. }
  destruct (String.eqb (hd "" (PyStr.split e (PyStr.strip raw))) "IEA");
    constructor; done || constructor.
Qed.

(** In every segment of the decoder the elements are numbered 1, 2, ...
    in their order, so that [get_element] and the dictionary of the values
    by position, which [validate] reads, give the same answer at every
    position. *)
Theorem segmentize_positions (e t : ascii) (edi_string : string) :
  Forall (fun s =>
            map position (elements s) = map Z.of_nat (seq 1 (length (elements s)))
            /\ forall k, elements_in_data (elements s) !! k = seg_get_element s k)
         (_segmentize e t edi_string).
Proof.
  unfold _segmentize. eapply Forall_impl; [apply segmentize_from_shape |].
  intros s (j & raw & _ & _ & ->). cbn [elements].
  set (parts := tl (PyStr.split e (PyStr.strip raw))). split.
  - rewrite enumerate_elements_length.
    rewrite enumerate_elements_position. apply map_ext. intros n. lia.
  - intros k. unfold elements_in_data, seg_get_element. cbn [elements].
    rewrite elements_in_data_enumerate, enumerate_elements_length, enumerate_elements_nth.
    replace (0 <? k) with (1 <=? k) by (apply eq_true_iff_eq; rewrite Z.ltb_lt, Z.leb_le; lia).
    replace (0 + Z.of_nat (length parts)) with (Z.of_nat (length parts)) by lia.
    destruct ((1 <=? k) && (k <=? Z.of_nat (length parts))); [| done].
    replace (k - 0 - 1) with (k - 1) by lia.
    by destruct (nth_error parts (Z.to_nat (k - 1))).
Qed.

(** Decoding loses nothing of a segment: the raw text of every segment
    of the decoder is trimmed and not empty, holds no segment terminator,
    and is its identifier and the values of its elements joined by the
    element delimiter, none of which holds the delimiter; a segment starts
    with no finding. *)
Theorem segmentize_round_trip (e t : ascii) (edi_string : string) :
  Forall (fun s =>
            raw_segment s <> "" /\ PyStr.strip (raw_segment s) = raw_segment s
            /\ PyStr.join (PyStr.of_char e) (segment_id s :: map value (elements s))
               = raw_segment s
            /\ Forall (char_free e) (segment_id s :: map value (elements s))
            /\ char_free t (raw_segment s)
            /\ errors s = [])
         (_segmentize e t edi_string).
Proof.
  unfold _segmentize.
  match goal with |- Forall _ (segmentize_from e 0 (PyStr.split t ?c)) => set (content := c) end.
  pose proof (segmentize_from_shape e (PyStr.split t content) 0) as Hshape.
  rewrite Forall_forall in Hshape. rewrite Forall_forall. intros s Hs.
  destruct (Hshape s Hs) as (j & raw & Hj & Hne & ->).
  cbn [raw_segment segment_id elements errors]. rewrite enumerate_elements_value.
  pose proof (split_not_nil e (PyStr.strip raw)) as Hparts.
  pose proof (join_split e (PyStr.strip raw)) as Hjoin.
  pose proof (split_char_free e (PyStr.strip raw)) as Hfree.
  destruct (PyStr.split e (PyStr.strip raw)) as [| x parts]; [done |]. cbn [hd tl].
  split_and!; [done | apply strip_idem | done | done | | done].
  apply strip_char_free.
  pose proof (split_char_free t content) as Ht. rewrite Forall_forall in Ht.
  apply Ht. by eapply list_elem_of_lookup_2.
Qed.

Lemma segmentize_from_lines (e : ascii) (raws : list string) : forall i,
  Forall (fun s => i + 1 <= line_number s <= i + Z.of_nat (length raws))
         (segmentize_from e i raws)
  /\ forall j1 j2 a b,
       (j1 < j2)%nat -> segmentize_from e i raws !! j1 = Some a ->
       segmentize_from e i raws !! j2 = Some b -> line_number a < line_number b.
Proof.
  induction raws as [| raw r IH]; intros i; cbn [segmentize_from].
  - split; [constructor | done].
  - destruct (IH (i + 1)) as [Hb Hs].
    assert (Hb' : Forall (fun s => i + 1 <= line_number s <= i + Z.of_nat (length (raw :: r)))
                         (segmentize_from e (i + 1) r)).
    { eapply Forall_impl; [exact Hb |]. cbn [length]. intros s. simpl. lia. }
    destruct (String.eqb (PyStr.strip raw) ""); [by split |].
    destruct (String.eqb (hd "" (PyStr.split e (PyStr.strip raw))) "IEA").
    + split.
      * constructor; [| constructor]. cbn [line_number length]. lia.
      * intros j1 [| j2] a b Hlt H1 H2; [lia | done].
    + split.
      * constructor; [| done]. cbn [line_number length]. lia.
      * intros [| j1] [| j2] a b Hlt H1 H2; try lia; simpl in H1, H2.
        -- injection H1 as <-. cbn [line_number].
           rewrite Forall_forall in Hb.
           pose proof (Hb b (list_elem_of_lookup_2 _ _ _ H2)). lia.
        -- apply (Hs j1 j2 a b); [lia | done | done].
Qed.

Lemma segmentize_from_iea (e : ascii) (raws : list string) : forall i,
  Forall (fun s => segment_id s <> "IEA") (removelast (segmentize_from e i raws)).
Proof.
  induction raws as [| raw r IH]; intros i; cbn [segmentize_from]; [constructor |].
  destruct (String.eqb (PyStr.strip raw) ""); [apply IH |].
  destruct (String.eqb (hd "" (PyStr.split e (PyStr.strip raw))) "IEA") eqn:Hid;
    [constructor |].
  apply String.eqb_neq in Hid. specialize (IH (i + 1)).
  cbn [removelast]. destruct (segmentize_from e (i + 1) r); [constructor |].
  by constructor.
Qed.

(** The decoder stops at the first [IEA] segment: no segment but the last
    one has the identifier [IEA]. *)
Theorem segmentize_stops_at_iea (e t : ascii) (edi_string : string) :
  Forall (fun s => segment_id s <> "IEA") (removelast (_segmentize e t edi_string)).
Proof. apply segmentize_from_iea. Qed.

(** The line numbers of the decoder are at least 1 and strictly
    increasing along the list of segments: a line number names one
    segment. *)
Theorem segmentize_line_numbers (e t : ascii) (edi_string : string) :
  Forall (fun s => 1 <= line_number s) (_segmentize e t edi_string)
  /\ forall j1 j2 a b,
       (j1 < j2)%nat -> _segmentize e t edi_string !! j1 = Some a ->
       _segmentize e t edi_string !! j2 = Some b -> line_number a < line_number b.
Proof.
  unfold _segmentize.
  match goal with |- context [segmentize_from e 0 ?p] =>
    destruct (segmentize_from_lines e p 0) as [Hb Hs] end.
  split; [| exact Hs].
  eapply Forall_impl; [exact Hb |]. intros s. simpl. lia.
Qed.

(** ** Lookups in the loops *)

Lemma dict_get_loops_append (k : string) (l : CdmLoop) (d : list (string * list CdmLoop))
    (k' : string) :
  dict_get k' (loops_append k l d)
  = if String.eqb k k' then option_map (fun ls => ls ++ [l]) (dict_get k' d)
    else dict_get k' d.
Proof.
  induction d as [| [k0 ls] r IH]; simpl; [by destruct (String.eqb k k') |].
  destruct (String.eqb k0 k) eqn:H0k; simpl.
  - apply String.eqb_eq in H0k. subst k0.
    destruct (String.eqb k k') eqn:Hkk; [done | done].
  - destruct (String.eqb k0 k') eqn:H0k'; [| exact IH].
    apply String.eqb_eq in H0k'. subst k0. by rewrite String.eqb_sym, H0k.
Qed.

Lemma dict_get_app (k : string) (d1 d2 : list (string * list CdmLoop)) :
  dict_get k (d1 ++ d2) = match dict_get k d1 with
                          | Some ls => Some ls
                          | None => dict_get k d2
                          end.
Proof.
  induction d1 as [| [k0 ls] r IH]; simpl; [done |].
  by destruct (String.eqb k0 k).
Qed.

Lemma loops_has_dict_get (k : string) (d : list (string * list CdmLoop)) :
  loops_has k d = match dict_get k d with Some _ => true | None => false end.
Proof.
  induction d as [| [k0 ls] r IH]; simpl; [done |].
  destruct (String.eqb k0 k); [done | exact IH].
Qed.

(** [add_loop] then [get_loops]: the loop is filed last under its own
    identifier and the lists of the other identifiers are left as they
    are; [get_loop] on that identifier does not raise and gives the first
    loop filed under it. *)
Theorem add_loop_get_loops (self loop : CdmLoop) (k : string) :
  get_loops (add_loop self loop) k
  = (if String.eqb (loop_id loop) k then get_loops self k ++ [loop] else get_loops self k)
  /\ get_loop (add_loop self loop) (loop_id loop)
     = Ok (Some (hd loop (get_loops self (loop_id loop)))).
Proof.
  unfold get_loops, get_loop, add_loop. cbn [loops].
  rewrite !dict_get_loops_append, String.eqb_refl, loops_has_dict_get.
  split.
  - destruct (String.eqb (loop_id loop) k) eqn:Hk.
    + apply String.eqb_eq in Hk. subst k.
      destruct (dict_get (loop_id loop) (loops self)) as [ls |] eqn:Hd.
      * by rewrite Hd.
      * rewrite dict_get_app, Hd. simpl. by rewrite String.eqb_refl.
    + destruct (dict_get (loop_id loop) (loops self)) as [ls |] eqn:Hd; [done |].
      rewrite dict_get_app. destruct (dict_get k (loops self)); [done |].
      simpl. by rewrite Hk.
  - destruct (dict_get (loop_id loop) (loops self)) as [ls |] eqn:Hd.
    + rewrite Hd. simpl. by destruct ls.
    + rewrite dict_get_app, Hd. simpl. by rewrite String.eqb_refl.
Qed.

Lemma loops_append_keys (k : string) (l : CdmLoop) (d : list (string * list CdmLoop)) :
  map fst (loops_append k l d) = map fst d.
Proof.
  induction d as [| [k0 ls] r IH]; simpl; [done |].
  destruct (String.eqb k0 k); simpl; [done | by rewrite IH].
Qed.

Lemma loops_append_filed (k : string) (l : CdmLoop) (d : list (string * list CdmLoop)) :
  loop_id l = k -> NoDup (map fst d) ->
  Forall (fun kv => (kv.2 <> [] \/ kv.1 = k) /\ Forall (fun c => loop_id c = kv.1) kv.2) d ->
  loops_has k d = true ->
  Forall (fun kv => kv.2 <> [] /\ Forall (fun c => loop_id c = kv.1) kv.2)
         (loops_append k l d).
Proof.
  intros Hl. induction d as [| [k0 ls] r IH]; intros Hnd Hd Hhas; [done |].
  simpl in Hhas. cbn [loops_append]. inversion Hnd as [| ? ? Hnotin Hnd']; subst.
  inversion Hd as [| ? ? [Hne Hids] Hr]; subst. cbn [fst snd] in *.
  destruct (String.eqb k0 (loop_id l)) eqn:Hk.
  - apply String.eqb_eq in Hk. subst k0. constructor.
    + cbn [fst snd]. split; [by destruct ls |].
      apply Forall_app. split; [done | by constructor].
    + rewrite Forall_forall in Hr. rewrite Forall_forall. intros [k1 ls1] Hin.
      destruct (Hr _ Hin) as [[Hne1 | Heq] Hids1]; cbn [fst snd] in *; [done |].
      subst k1. exfalso. apply Hnotin. apply list_elem_of_fmap. by exists (loop_id l, ls1).
  - apply String.eqb_neq in Hk. constructor.
    + cbn [fst snd]. split; [| done]. by destruct Hne.
    + apply IH; done.
Qed.

Lemma add_loop_filed (self sub : CdmLoop) :
  filed_by_id self -> filed_by_id (add_loop self sub).
Proof.
  intros [Hnd Hd]. unfold filed_by_id, add_loop. cbn [loops].
  rewrite loops_append_keys.
  destruct (loops_has (loop_id sub) (loops self)) eqn:Hhas.
  - split; [done |]. apply loops_append_filed; try done.
    eapply Forall_impl; [exact Hd |]. intros kv [Hne Hids]. split; [by left | done].
  - split.
    + rewrite map_app. simpl. apply NoDup_app. split_and!; [done | | apply NoDup_singleton].
      intros x Hx Hx'. apply list_elem_of_singleton in Hx'. subst x.
      apply list_elem_of_fmap in Hx as ([k0 ls] & Hk & Hin). simpl in Hk. subst k0.
      assert (Hhas' : loops_has (loop_id sub) (loops self) = true); [| congruence].
      unfold loops_has. apply existsb_exists. exists (loop_id sub, ls).
      split; [by apply list_elem_of_In | simpl; apply String.eqb_refl].
    + apply loops_append_filed; try done.
      * rewrite map_app. simpl. apply NoDup_app. split_and!; [done | | apply NoDup_singleton].
        intros x Hx Hx'. apply list_elem_of_singleton in Hx'. subst x.
        apply list_elem_of_fmap in Hx as ([k0 ls] & Hk & Hin). simpl in Hk. subst k0.
        assert (Hhas' : loops_has (loop_id sub) (loops self) = true); [| congruence].
        unfold loops_has. apply existsb_exists. exists (loop_id sub, ls).
        split; [by apply list_elem_of_In | simpl; apply String.eqb_refl].
      * apply Forall_app. split.
        -- eapply Forall_impl; [exact Hd |]. intros kv [Hne Hids]. split; [by left | done].
        -- constructor; [| constructor]. cbn [fst snd]. split; [by right | constructor].
      * rewrite loops_has_app. simpl. by rewrite String.eqb_refl, orb_true_r.
Qed.

Lemma dict_get_in (k : string) (d : list (string * list CdmLoop)) (ls : list CdmLoop) :
  dict_get k d = Some ls -> (k, ls) ∈ d.
Proof.
  induction d as [| [k0 ls0] r IH]; simpl; [done |].
  destruct (String.eqb k0 k) eqn:Hk.
  - apply String.eqb_eq in Hk. subst k0. intros [= ->]. by constructor.
  - intros Hd. constructor. by apply IH.
Qed.

(** In a loop that is filed by identifier [get_loop] does not raise, and
    the loops [get_loops] gives have the identifier that was asked. *)
Lemma filed_get_loop (lp : CdmLoop) (k : string) :
  filed_by_id lp ->
  get_loop lp k = Ok (head (get_loops lp k))
  /\ Forall (fun c => loop_id c = k) (get_loops lp k).
Proof.
  intros [_ Hd]. unfold get_loop, get_loops.
  destruct (dict_get k (loops lp)) as [ls |] eqn:Hk; [| by split].
  apply dict_get_in in Hk. rewrite Forall_forall in Hd.
  destruct (Hd _ Hk) as [Hne Hids]. cbn [fst snd] in *.
  destruct ls; [done |]. by split.
Qed.

Lemma all_loops_filed (l : CdmLoop) :
  Forall filed_by_id (all_loops l)
  <-> filed_by_id l /\ Forall filed_by_id (flat_map all_loops (child_loops l)).
Proof. rewrite all_loops_eq. apply Forall_cons. Qed.

(** The loop of the matcher keeps the loops filed by identifier. *)
Lemma build_tree_while_filed (fuel : nat) (self : EdiParser) :
  forall segs nodes loop0 c0 usage0 h,
    Forall filed_by_id (all_loops loop0) ->
    match build_tree_while fuel self segs nodes loop0 c0 usage0 h with
    | Ret (loop, _, _) _ => Forall filed_by_id (all_loops loop)
    | _ => True
    end.
Proof.
  induction fuel as [| fuel IH]; intros segs nodes loop0 c0 usage0 h H0; [done |].
  rewrite build_tree_while_S.
  destruct (segs !! c0) as [cur |] eqn:Hcur; [| done].
  unfold bind at 1.
  destruct (read_only_find_best_schema_match self cur nodes usage0 h)
    as [[found Hf] | [e Hf]]; rewrite Hf; [| done].
  destruct found as [[[s | xid nm us rp children] i] |]; [| | done].
  - unfold bind at 1.
    destruct (read_only_validate (validator self) cur (contextDefinitionId s) h)
      as [[errs Hv] | [e Hv]]; rewrite Hv; [| done].
    unfold bind at 1, errors_extend at 1.
    apply IH. apply all_loops_filed. apply all_loops_filed in H0. exact H0.
  - unfold bind at 1.
    pose proof (IH (drop c0 segs) children (new_loop xid) 0%nat
                  (zero_counts (length children)) h) as IHsub.
    destruct (build_tree_while fuel self (drop c0 segs) children _ _ _ _)
      as [[[sub n] us'] h1 | |]; [| done | done].
    cbn [build_tree_finish].
    apply IH. apply all_loops_filed. apply all_loops_filed in H0 as [H0 H0c].
    assert (Hsub : Forall filed_by_id (all_loops sub)).
    { apply IHsub. repeat constructor. }
    apply all_loops_filed in Hsub as [Hs Hsc].
    split.
    + apply (add_loop_filed loop0 _ H0).
    + change (child_loops (loop_add_errors (add_loop loop0
                (loop_add_errors sub (required_missing xid us' children)))
                (loop_errors (loop_add_errors sub (required_missing xid us' children)))))
        with (child_loops (add_loop loop0
                (loop_add_errors sub (required_missing xid us' children)))).
      rewrite (flat_map_perm _ _ _ (child_loops_add_loop loop0 _)), flat_map_app.
      apply Forall_app. split; [done |]. cbn [flat_map]. rewrite app_nil_r.
      apply all_loops_filed. split; [exact Hs | exact Hsc].
Qed.

(** The loops the matcher builds are filed by identifier, at every
    depth: in the dictionary of child loops no key occurs twice, no list
    is empty and a loop is filed under its own identifier; so [get_loop]
    does not raise on them and gives the first loop of [get_loops], whose
    loops have the identifier that was asked. *)
Theorem matcher_files_loops_by_id (self : EdiParser) (segs : list loc)
    (schema_nodes : list StructureChild) (parent_loop_id : string) (h : heap) :
  exists n, forall fuel, (n <= fuel)%nat ->
    match _build_tree fuel self segs schema_nodes parent_loop_id h with
    | Ret (cdm_loop, _) _ =>
        Forall (fun lp =>
                  filed_by_id lp
                  /\ forall k, get_loop lp k = Ok (head (get_loops lp k))
                               /\ Forall (fun c => loop_id c = k) (get_loops lp k))
               (all_loops cdm_loop)
    | Raise _ _ => True
    | OutOfFuel => False
    end.
Proof.
  destruct (build_tree_result self segs schema_nodes parent_loop_id h) as [n Hn].
  exists n. intros fuel Hfuel. specialize (Hn fuel Hfuel).
  pose proof (build_tree_while_filed fuel self segs schema_nodes (new_loop parent_loop_id)
                0%nat (zero_counts (length schema_nodes)) h) as Hfiled.
  destruct (build_tree_while fuel self segs schema_nodes _ _ _ h)
    as [[[loop0 c] u] h' | e h' |] eqn:Hw; [| by rewrite Hn | done].
  destruct Hn as [-> _].
  assert (H0 : Forall filed_by_id (all_loops loop0)).
  { apply Hfiled. repeat constructor. }
  apply all_loops_filed in H0 as [H0 H0c].
  assert (Hall : Forall filed_by_id
                   (all_loops (loop_add_errors loop0
                                 (required_missing parent_loop_id u schema_nodes)))).
  { apply all_loops_filed. split; [exact H0 | exact H0c]. }
  eapply Forall_impl; [exact Hall |]. intros lp Hlp. split; [done |].
  intros k. by apply filed_get_loop.
Qed.

(** [get_segment] gives the first of the segments [get_segments] gives,
    which are the segments of the loop with the identifier that was
    asked, in the order of the loop; both leave the store as it is. *)
Theorem get_segment_first_of_get_segments (self : CdmLoop) (sid : string) (h : heap) :
  let found := filter (fun l => segment_id (deref h l) = sid) (segments self) in
  get_segments self sid h = Ret found h
  /\ get_segment self sid h = Ret (head found) h.
Proof.
  unfold get_segments, get_segment. induction (segments self) as [| l r [IH1 IH2]]; [done |].
  cbn [get_segments_from get_segment_from]. rewrite !bind_unfold. cbn [read].
  rewrite bind_unfold, IH1. cbn [ret]. rewrite filter_cons.
  destruct (String.eqb (segment_id (deref h l)) sid) eqn:He.
  - apply String.eqb_eq in He. by rewrite decide_True.
  - apply String.eqb_neq in He. by rewrite decide_False.
Qed.

(** ** The summary of the findings *)

(** Induction on a loop, with the property for the loops of its
    dictionary. *)
Lemma CdmLoop_nested_ind (P : CdmLoop -> Prop) :
  (forall id segs d errs,
     Forall (fun kv => Forall P kv.2) d -> P (mkLoop id segs d errs)) ->
  forall l, P l.
Proof.
  intros H. fix IH 1. intros [id segs d errs]. apply H.
  induction d as [| [k ls] r IHd]; constructor; [| exact IHd].
  cbn [snd]. induction ls as [| x xs IHls]; constructor; [apply IH | exact IHls].
Qed.

Lemma collect_loop_errors_findings (h : heap) (loop : CdmLoop) : forall path,
  map snd (collect_loop_errors h loop path) = flat_map (own_findings h) (all_loops loop).
Proof.
  induction loop as [id segs d errs IH] using CdmLoop_nested_ind. intros path.
  cbn [collect_loop_errors all_loops flat_map loop_errors segments loops].
  rewrite !map_app. unfold own_findings at 1. cbn [loop_errors segments].
  rewrite <- app_assoc. f_equal.
  { rewrite map_map. apply map_id. }
  f_equal.
  { induction segs as [| l r IHs]; [done |]. cbn [flat_map]. rewrite map_app, IHs.
    f_equal. rewrite map_map. apply map_id. }
  induction d as [| [k ls] r IHd]; [done |].
  inversion IH as [| ? ? Hls Hr]; subst. cbn [snd] in Hls.
  cbn [flat_map]. rewrite map_app, flat_map_app. rewrite (IHd Hr). f_equal.
  clear IHd Hr IH. generalize 0 as i.
  induction ls as [| x xs IHx]; intros i; [done |].
  inversion Hls as [| ? ? Hx Hxs]; subst.
  cbn [flat_map]. rewrite map_app, flat_map_app, Hx, (IHx Hxs). reflexivity.
Qed.

(** The summary [_collect_all_errors] makes lists, in this order: the
    findings of the interchange; for each group its findings; for each
    transaction set its findings and then, for each loop of its body in
    pre-order, the findings of the loop followed by those of the segments
    of the loop.  The store is only read; the header and trailer segments
    of the interchange, of the groups and of the transaction sets are not
    visited. *)
Theorem collect_all_errors_lists (interchange : CdmInterchange) (h : heap) :
  exists all_errors,
    _collect_all_errors interchange h = Ret all_errors h
    /\ map snd all_errors = interchange_findings h interchange.
Proof.
  eexists. split; [reflexivity |].
  unfold interchange_findings. rewrite map_app, map_map, map_id. f_equal.
  induction (functional_groups interchange) as [| g gs IHg]; [done |].
  cbn [flat_map]. rewrite map_app, IHg. f_equal.
  unfold collect_group_errors, group_findings. rewrite map_app, map_map, map_id. f_equal.
  induction (transactions g) as [| t ts IHt]; [done |].
  cbn [flat_map]. rewrite map_app, IHt. f_equal.
  unfold collect_transaction_errors, transaction_findings.
  rewrite map_app, map_map, map_id. f_equal. apply collect_loop_errors_findings.
Qed.

(** ** The envelope validator *)

Lemma add_error_if_NoDup (b : bool) (c : TA1NoteCode) (errs : list InterchangeError) :
  NoDup (codes errs) -> NoDup (codes (add_error_if b c errs)).
Proof.
  intros Hnd. unfold add_error_if, add_error. destruct b; [| done].
  destruct (existsb (fun e => note_code_eqb (note_code e) c) errs) eqn:He; [done |].
  unfold codes. rewrite map_app. simpl. apply NoDup_app. split_and!; [done | | apply NoDup_singleton].
  intros x Hx Hx'. apply list_elem_of_singleton in Hx'. subst x.
  apply list_elem_of_fmap in Hx as (e & Hc & Hin).
  assert (Ht : existsb (fun e => note_code_eqb (note_code e) c) errs = true); [| congruence].
  apply existsb_exists. exists e. split; [by apply list_elem_of_In |].
  unfold note_code_eqb. rewrite <- Hc. apply String.eqb_refl.
Qed.

Lemma get_element_ret (l : loc) (pos : Z) (h : heap) :
  get_element l pos h = Ret (seg_get_element (deref h l) pos) h.
Proof. reflexivity. Qed.

Lemma seg_get_element_some (s : CdmSegment) (pos : Z) :
  1 <= pos <= Z.of_nat (length (elements s)) -> exists v, seg_get_element s pos = Some v.
Proof.
  intros Hpos. unfold seg_get_element.
  replace ((1 <=? pos) && (pos <=? Z.of_nat (length (elements s)))) with true
    by (symmetry; apply andb_true_iff; lia).
  destruct (nth_error (elements s) (Z.to_nat (pos - 1))) as [el |] eqn:Hn; [by eexists |].
  apply nth_error_None in Hn. lia.
Qed.

Lemma seg_get_element_none (s : CdmSegment) (pos : Z) :
  Z.of_nat (length (elements s)) < pos -> seg_get_element s pos = None.
Proof.
  intros Hpos. unfold seg_get_element.
  replace (pos <=? Z.of_nat (length (elements s))) with false by lia.
  by rewrite andb_false_r.
Qed.

Lemma get_strip_cases (l : loc) (pos : Z) (h : heap) :
  match seg_get_element (deref h l) pos with
  | Some v => get_strip l pos h = Ret (PyStr.strip v) h
  | None => get_strip l pos h
            = Raise (AttributeError "'NoneType' object has no attribute 'strip'") h
  end.
Proof.
  unfold get_strip. rewrite bind_unfold, get_element_ret.
  by destruct (seg_get_element (deref h l) pos).
Qed.

Lemma string_get_lt (s : string) : forall i,
  (i < String.length s)%nat -> exists c, String.get i s = Some c.
Proof.
  induction s as [| a r IH]; intros i Hi; simpl in Hi; [lia |].
  destruct i as [| i]; simpl; [by eexists |]. apply IH. lia.
Qed.

Lemma seg_get_element_none_inv (s : CdmSegment) (pos : Z) :
  seg_get_element s pos = None -> 1 <= pos -> Z.of_nat (length (elements s)) < pos.
Proof.
  intros Hn Hpos. destruct (Z.lt_ge_cases (Z.of_nat (length (elements s))) pos); [done |].
  destruct (seg_get_element_some s pos ltac:(lia)) as [v Hv]. congruence.
Qed.

Ltac env_step :=
  first
  [ rewrite bind_unfold;
    lazymatch goal with
    | |- context [get_strip ?l ?p ?h] =>
        let H := fresh "Hs" in
        pose proof (get_strip_cases l p h) as H;
        destruct (seg_get_element (deref h l) p) eqn:?; rewrite H; clear H
    | |- context [get_element ?l ?p ?h] => rewrite (get_element_ret l p h)
    | |- context [(if ?c then _ else _) ?h] => destruct c eqn:?
    end
  | lazymatch goal with
    | |- context [ret ?v ?h] => change (ret v h) with (Ret v h); cbv beta iota
    end ].

Ltac env_raise Hhd Htl :=
  cbv beta iota; split_and!; [done | done | done | done |];
  match goal with
  | H : seg_get_element (deref _ (header _)) _ = None |- _ =>
      left; apply seg_get_element_none_inv in H; [rewrite Hhd in H; lia | lia]
  | H : seg_get_element (deref _ (trailer _)) _ = None |- _ =>
      right; apply seg_get_element_none_inv in H; [rewrite Htl in H; lia | lia]
  end.

Lemma envelope_checks_outcome (ic : CdmInterchange) (h : heap) :
  match envelope_checks ic h with
  | Ret errs h' => h' = h /\ NoDup (codes errs)
  | Raise e h' =>
      h' = h /\ e = AttributeError "'NoneType' object has no attribute 'strip'"
      /\ elements (deref h (header ic)) <> [] /\ elements (deref h (trailer ic)) <> []
      /\ ((length (elements (deref h (header ic))) < 13)%nat
          \/ (length (elements (deref h (trailer ic))) < 2)%nat)
  | OutOfFuel => False
  end.
Proof.
  unfold envelope_checks. rewrite bind_unfold. cbn [read]. rewrite bind_unfold. cbn [read].
  destruct (elements (deref h (header ic))) as [| x xs] eqn:Hhd.
  { cbn [ret]. split; [done |]. repeat constructor. set_solver. }
  destruct (elements (deref h (trailer ic))) as [| y ys] eqn:Htl.
  { cbn [ret]. split; [done |]. repeat constructor. set_solver. }
  all: repeat (env_step; try (solve [env_raise Hhd Htl])).
  all: split; [done |].
  all: repeat apply add_error_if_NoDup; constructor.
Qed.

(** On a header of fewer than 13 elements, or a trailer of fewer than 2,
    neither empty, the checks on the decoded envelope raise. *)
Lemma envelope_checks_raises (ic : CdmInterchange) (h : heap) :
  elements (deref h (header ic)) <> [] -> elements (deref h (trailer ic)) <> [] ->
  (length (elements (deref h (header ic))) < 13)%nat
  \/ (length (elements (deref h (trailer ic))) < 2)%nat ->
  envelope_checks ic h
  = Raise (AttributeError "'NoneType' object has no attribute 'strip'") h.
Proof.
  intros Hhd Htl Hshort.
  unfold envelope_checks. rewrite bind_unfold. cbn [read]. rewrite bind_unfold. cbn [read].
  destruct (elements (deref h (header ic))) as [| x xs] eqn:Ehd; [done |].
  destruct (elements (deref h (trailer ic))) as [| y ys] eqn:Etl; [done |].
  rewrite bind_unfold.
  pose proof (get_strip_cases (header ic) 13 h) as H13.
  destruct (seg_get_element (deref h (header ic)) 13) as [v |] eqn:E13.
  - rewrite H13, bind_unfold.
    pose proof (get_strip_cases (trailer ic) 2 h) as H2.
    rewrite seg_get_element_none in H2; [by rewrite H2 |].
    
    destruct Hshort as [Hs | Hs]; [| rewrite Etl; lia].
    exfalso. rewrite seg_get_element_none in E13; [done |]. rewrite Ehd. lia.
  - by rewrite H13.
Qed.

(** The delimiters [validate_interchange_envelope] reads are those of
    [_detect_delimiters]. *)
Lemma validate_envelope_unfold (ic : CdmInterchange) (raw : string) :
  PyStr.startswith "ISA" (PyStr.strip raw) && (106 <=? PyStr.len (PyStr.strip raw)) = true ->
  exists e t c,
    _detect_delimiters raw = (e, t, c)
    /\ validate_interchange_envelope ic raw
       = match delimiter_errors e t c with
         | [] => envelope_checks ic
         | x :: xs => ret (x :: xs)
         end.
Proof.
  intros Hok. unfold validate_interchange_envelope, _detect_delimiters. rewrite Hok.
  apply andb_true_iff in Hok as [_ Hlen]. apply Z.leb_le in Hlen. unfold PyStr.len in Hlen.
  unfold PyStr.index.
  destruct (string_get_lt (PyStr.strip raw) 3 ltac:(lia)) as [e ->].
  destruct (string_get_lt (PyStr.strip raw) 105 ltac:(lia)) as [t ->].
  destruct (string_get_lt (PyStr.strip raw) 104 ltac:(lia)) as [c ->].
  by exists e, t, c.
Qed.

(** [validate_interchange_envelope] leaves the store as it is and lists
    no note code twice; the only exception it raises is the
    [AttributeError] of [strip] on an element that is missing. *)
Theorem envelope_validation_lists_codes_once (interchange : CdmInterchange)
    (raw_edi_string : string) (h : heap) :
  match validate_interchange_envelope interchange raw_edi_string h with
  | Ret errs h' => h' = h /\ NoDup (codes errs)
  | Raise e h' =>
      h' = h /\ e = AttributeError "'NoneType' object has no attribute 'strip'"
  | OutOfFuel => False
  end.
Proof.
  destruct (PyStr.startswith "ISA" (PyStr.strip raw_edi_string)
            && (106 <=? PyStr.len (PyStr.strip raw_edi_string))) eqn:Hok.
  - destruct (validate_envelope_unfold interchange raw_edi_string Hok)
      as (e & t & c & _ & ->).
    assert (Hd : NoDup (codes (delimiter_errors e t c))).
    { unfold delimiter_errors. repeat apply add_error_if_NoDup. constructor. }
    destruct (delimiter_errors e t c) as [| x xs]; [| by split].
    pose proof (envelope_checks_outcome interchange h) as Ho.
    destruct (envelope_checks interchange h) as [errs h' | ex h' |]; [done | | done].
    by destruct Ho as (-> & -> & _).
  - unfold validate_interchange_envelope. rewrite Hok. cbn [negb ret].
    split; [done |]. repeat constructor. set_solver.
Qed.

(** [validate_interchange_envelope] raises exactly when the raw input has
    the [ISA] structure (it starts with [ISA] and has 106 characters at
    least) and valid delimiters, and the decoded header and trailer both
    have elements but the header fewer than 13 or the trailer fewer than
    2: it then stops on [get_element(...).strip()] instead of listing a
    note code. *)
Theorem envelope_validation_raises_on_short_envelope (interchange : CdmInterchange)
    (raw_edi_string : string) (h : heap) :
  (exists e, validate_interchange_envelope interchange raw_edi_string h = Raise e h)
  <-> (PyStr.startswith "ISA" (PyStr.strip raw_edi_string)
       && (106 <=? PyStr.len (PyStr.strip raw_edi_string)) = true
       /\ (let '(e, t, c) := _detect_delimiters raw_edi_string in delimiter_errors e t c = [])
       /\ elements (deref h (header interchange)) <> []
       /\ elements (deref h (trailer interchange)) <> []
       /\ ((length (elements (deref h (header interchange))) < 13)%nat
           \/ (length (elements (deref h (trailer interchange))) < 2)%nat)).
Proof.
  destruct (PyStr.startswith "ISA" (PyStr.strip raw_edi_string)
            && (106 <=? PyStr.len (PyStr.strip raw_edi_string))) eqn:Hok.
  2: { split; [| by intros [? _]]. intros [e He].
       unfold validate_interchange_envelope in He. rewrite Hok in He. done. }
  destruct (validate_envelope_unfold interchange raw_edi_string Hok)
    as (e & t & c & -> & ->).
  destruct (delimiter_errors e t c) as [| x xs].
  2: { split; [by intros [? ?] | by intros (_ & ? & _)]. }
  split.
  - intros [ex He]. pose proof (envelope_checks_outcome interchange h) as Ho.
    rewrite He in Ho. destruct Ho as (_ & _ & Hhd & Htl & Hshort). by split_and!.
  - intros (_ & _ & Hhd & Htl & Hshort). eexists.
    by apply envelope_checks_raises.
Qed.

(** ** More on the TA1 generator *)

(** [generate] returns nothing in two cases only: a header of fewer than
    16 elements, or no error, no forcing and no request in ISA14.  With an
    error, or when forced, a header of 16 elements always gets its
    acknowledgement. *)
Theorem generate_none_iff (now : datetime) (isa : CdmSegment)
    (errs : list InterchangeError) (force : bool) :
  TA1Generator.generate now isa errs force = None
  <-> (length (elements isa) < 16)%nat
      \/ (errs = [] /\ force = false /\ ~ ack_requested isa).
Proof.
  unfold TA1Generator.generate, ack_requested. cbv zeta.
  destruct (length (elements isa) <? 16)%nat eqn:Hlen.
  { apply Nat.ltb_lt in Hlen. split; [by left | done]. }
  apply Nat.ltb_ge in Hlen.
  destruct errs as [| e errs'].
  2: { cbn [negb andb]. split; [done |]. intros [Hlt | (Hn & _)]; [lia | done]. }
  destruct force.
  { rewrite andb_false_r. split; [done |]. intros [Hlt | (_ & Hn & _)]; [lia | done]. }
  rewrite andb_true_r. cbn [negb andb].
  destruct (seg_get_element isa 14) as [v |] eqn:Hv.
  - destruct (negb (String.eqb v "") && String.eqb (PyStr.strip v) "1") eqn:Hreq;
      cbn [negb].
    + apply andb_true_iff in Hreq as [_ Hs]. apply String.eqb_eq in Hs.
      split; [done |]. intros [Hlt | (_ & _ & Hn)]; [lia |]. exfalso. apply Hn. by exists v.
    + split; [| done]. intros _. right. split_and!; [done | done |].
      intros (v' & Hv' & Hs). injection Hv' as <-.
      apply andb_false_iff in Hreq as [Hne | Hne].
      * apply negb_false_iff, String.eqb_eq in Hne. by subst.
      * apply String.eqb_neq in Hne. done.
  - cbn [negb]. split; [| done]. intros _. right. split_and!; [done | done |].
    by intros (v' & Hv' & _).
Qed.

Lemma append_length (a b : string) :
  String.length (a +:+ b) = (String.length a + String.length b)%nat.
Proof. induction a as [| x a IH]; [done |]. rewrite append_cons. simpl. by rewrite IH. Qed.





Lemma rstrip_by_kept (p : ascii -> bool) (s : string) :
  PyStr.forallb (fun c => negb (p c)) s = true -> PyStr.rstrip_by p s = s.
Proof.
  induction s as [| a r IH]; [done |]. simpl. intros H.
  apply andb_true_iff in H as [Ha Hr]. rewrite (IH Hr).
  apply negb_true_iff in Ha. rewrite Ha. by destruct r.
Qed.

Lemma forallb_impl (p q : ascii -> bool) (s : string) :
  (forall c, p c = true -> q c = true) ->
  PyStr.forallb p s = true -> PyStr.forallb q s = true.
Proof.
  intros Hpq. induction s as [| a r IH]; [done |]. simpl. intros H.
  apply andb_true_iff in H as [Ha Hr]. by rewrite (Hpq a Ha), (IH Hr).
Qed.





Lemma zeros_length (k : nat) :
  String.length (string_of_list_ascii (repeat "0"%char k)) = k.
Proof. induction k as [| k IH]; [done |]. simpl. by rewrite IH. Qed.

(** [zfill] pads to the width and never shortens. *)
Lemma zfill_length (n : nat) (s : string) :
  String.length (PyStr.zfill n s) = Nat.max n (String.length s).
Proof.
  unfold PyStr.zfill. destruct s as [| c r].
  - rewrite zeros_length. simpl. lia.
  - destruct (Ascii.eqb c "+" || Ascii.eqb c "-").
    + cbn [String.length]. rewrite append_length, zeros_length. simpl. lia.
    + rewrite append_length, zeros_length. simpl. lia.
Qed.

Lemma zfill_long (n : nat) (s : string) :
  (n <= String.length s)%nat -> PyStr.zfill n s = s.
Proof.
  intros Hn. unfold PyStr.zfill.
  replace (n - String.length s)%nat with 0%nat by lia. cbn [repeat string_of_list_ascii].
  destruct s as [| c r]; [done |]. by destruct (Ascii.eqb c "+" || Ascii.eqb c "-").
Qed.

Lemma drop_length (k : nat) (s : string) :
  String.length (PyStr.drop k s) = (String.length s - k)%nat.
Proof.
  revert s. induction k as [| k IH]; intros s; [simpl; lia |].
  destruct s as [| c r]; [done |]. simpl. apply IH.
Qed.

(** The [TA1] segment names the interchange it answers: its first field
    is ISA13 of the input, trimmed and padded with zeros to nine
    characters at least (the trimmed ISA13 itself when that has nine
    characters or more), its second field ISA09, or the last six
    characters of an ISA09 of eight, its third field ISA10. *)
Theorem ta1_echoes_header (now : datetime) (isa : CdmSegment)
    (errs : list InterchangeError) (force : bool) :
  match TA1Generator.generate now isa errs force with
  | Some s =>
      exists isa13 isa09 isa10 isa_fields ta101 ta102 iea_fields,
        seg_get_element isa 13 = Some isa13
        /\ seg_get_element isa 9 = Some isa09
        /\ seg_get_element isa 10 = Some isa10
        /\ s = segment_text ("ISA" :: isa_fields)
               +:+ segment_text ["TA1"; ta101; ta102; isa10; ack_field errs; note_field errs]
               +:+ segment_text ("IEA" :: iea_fields)
        /\ ta101 = PyStr.zfill 9 (PyStr.strip isa13)
        /\ String.length ta101 = Nat.max 9 (String.length (PyStr.strip isa13))
        /\ ((9 <= String.length (PyStr.strip isa13))%nat -> ta101 = PyStr.strip isa13)
        /\ ta102 = (if Nat.eqb (String.length isa09) 8 then PyStr.drop 2 isa09 else isa09)
        /\ (String.length isa09 = 8%nat -> String.length ta102 = 6%nat)
  | None => True
  end.
Proof.
  destruct (TA1Generator.generate now isa errs force) as [s |] eqn:Hs; [| done].
  assert (Hlen : (16 <= length (elements isa))%nat).
  { unfold TA1Generator.generate in Hs.
    destruct (length (elements isa) <? 16)%nat eqn:Hl; [done |]. by apply Nat.ltb_ge in Hl. }
  apply generate_fields in Hs. cbv zeta in Hs.
  destruct (seg_get_element_some isa 13 ltac:(lia)) as [isa13 H13].
  destruct (seg_get_element_some isa 9 ltac:(lia)) as [isa09 H9].
  destruct (seg_get_element_some isa 10 ltac:(lia)) as [isa10 H10].
  rewrite H13, H9, H10 in Hs. cbn [from_option id] in Hs.
  exists isa13, isa09, isa10. eexists _, _, _, _.
  split_and!; [done | done | done | exact Hs | reflexivity | apply zfill_length
              | apply zfill_long | |].
  - unfold PyStr.len. destruct (Nat.eqb (String.length isa09) 8) eqn:E.
    + apply Nat.eqb_eq in E. by rewrite E.
    + apply Nat.eqb_neq in E.
      replace (Z.of_nat (String.length isa09) =? 8) with false; [done |].
      symmetry. apply Z.eqb_neq. lia.
  - intros H8. unfold PyStr.len. rewrite H8. change (Z.of_nat 8 =? 8) with true.
    cbv iota. rewrite drop_length, H8. reflexivity.
Qed.

(** ** The repeat limits *)

Lemma usage_of_zero_counts (n i : nat) : usage_of (zero_counts n) i = 0.
Proof.
  induction n as [| n IH]; [done |]. simpl. unfold usage_of in *.
  destruct (decide (n = i)) as [-> | Hne].
  - by rewrite lookup_insert_eq.
  - by rewrite lookup_insert_ne.
Qed.

Lemma total_usage_zero (n : nat) (nodes : list StructureChild) : forall i,
  total_usage (zero_counts n) i nodes = 0.
Proof.
  induction nodes as [| m r IH]; intros i; [done |]. simpl.
  by rewrite usage_of_zero_counts, IH.
Qed.

Lemma total_usage_increment_other (usage_counts : gmap nat Z) (k : nat)
    (nodes : list StructureChild) :
  forall i, (k < i)%nat ->
    total_usage (increment usage_counts k) i nodes = total_usage usage_counts i nodes.
Proof.
  induction nodes as [| n r IH]; intros i Hlt; simpl; [done |].
  rewrite usage_of_increment, decide_False by lia.
  by rewrite IH by lia.
Qed.

Lemma total_usage_increment (usage_counts : gmap nat Z) (nodes : list StructureChild) :
  forall i j n,
    nodes !! j = Some n ->
    total_usage (increment usage_counts (i + j)) i nodes = total_usage usage_counts i nodes + 1.
Proof.
  induction nodes as [| m r IH]; intros i j n Hj; [done |].
  destruct j as [| j]; simpl in Hj; simpl.
  - rewrite Nat.add_0_r. rewrite usage_of_increment, decide_True by done.
    rewrite total_usage_increment_other by lia. lia.
  - rewrite usage_of_increment, decide_False by lia.
    specialize (IH (S i) j n Hj). replace (S i + j)%nat with (i + S j)%nat in IH by lia.
    rewrite IH. lia.
Qed.

Lemma total_usage_capacity (usage_counts : gmap nat Z) (nodes : list StructureChild) :
  forall i,
    (forall j n, nodes !! j = Some n ->
       usage_of usage_counts (i + j) <= Z.max 0 (max_repeats n)) ->
    total_usage usage_counts i nodes <= capacity nodes.
Proof.
  induction nodes as [| m r IH]; intros i Hb; [done |]. simpl.
  pose proof (Hb 0%nat m eq_refl) as H0. rewrite Nat.add_0_r in H0.
  assert (Hr : total_usage usage_counts (S i) r <= capacity r).
  { apply IH. intros j n Hj. specialize (Hb (S j) n Hj).
    by replace (i + S j)%nat with (S i + j)%nat in Hb by lia. }
  unfold capacity in *. lia.
Qed.

Lemma within_limits_increment (nodes : list StructureChild) (usage_counts : gmap nat Z)
    (i : nat) (n : StructureChild) :
  within_limits nodes usage_counts -> nodes !! i = Some n ->
  usage_of usage_counts i < max_repeats n ->
  within_limits nodes (increment usage_counts i).
Proof.
  intros Hw Hi Hlt k. rewrite usage_of_increment.
  destruct (decide (i = k)) as [<- | Hne]; [| apply Hw].
  destruct (Hw i) as [H0 _]. split; [lia |].
  intros n' Hn'. rewrite Hi in Hn'. injection Hn' as <-. lia.
Qed.

Lemma members_add_loop (self sub : CdmLoop) (es : list CdmValidationError) :
  members (loop_add_errors (add_loop self sub) es) = S (members self).
Proof.
  unfold members.
  change (child_loops (loop_add_errors (add_loop self sub) es))
    with (child_loops (add_loop self sub)).
  rewrite (Permutation_length (child_loops_add_loop self sub)), length_app. simpl. lia.
Qed.

(** The loop of the matcher keeps the usage counts within the limits, and
    counts one use for every member it gives the loop. *)
Lemma build_tree_while_usage (fuel : nat) (self : EdiParser) :
  forall segs nodes loop0 c0 usage0 h,
    within_limits nodes usage0 ->
    match build_tree_while fuel self segs nodes loop0 c0 usage0 h with
    | Ret (loop, _, usage_counts) _ =>
        within_limits nodes usage_counts
        /\ Z.of_nat (members loop) - total_usage usage_counts 0 nodes
           = Z.of_nat (members loop0) - total_usage usage0 0 nodes
    | _ => True
    end.
Proof.
  induction fuel as [| fuel IH]; intros segs nodes loop0 c0 usage0 h Hw; [done |].
  rewrite build_tree_while_S.
  destruct (segs !! c0) as [cur |] eqn:Hcur; [| by split].
  unfold bind at 1.
  destruct (read_only_find_best_schema_match self cur nodes usage0 h)
    as [[found Hf] | [e Hf]]; rewrite Hf; [| done].
  destruct found as [[[s | xid nm us rp children] i] |]; [| | by split].
  - destruct (find_best_found _ _ _ _ _ _ _ _ Hf) as (_ & Hi & Hu).
    unfold bind at 1.
    destruct (read_only_validate (validator self) cur (contextDefinitionId s) h)
      as [[errs Hv] | [e Hv]]; rewrite Hv; [| done].
    unfold bind at 1, errors_extend at 1.
    specialize (IH segs nodes (loop_add_segment loop0 cur) (S c0) (increment usage0 i)
                  (alter (extend_errors errs) cur h)
                  (within_limits_increment nodes usage0 i _ Hw Hi Hu)).
    destruct (build_tree_while fuel self segs nodes _ _ _ _) as [[[loop c] usage] h' | |];
      [| done | done].
    destruct IH as [Hw' Hsum]. split; [done |]. rewrite Hsum.
    pose proof (total_usage_increment usage0 nodes 0 i _ Hi) as Ht. cbn [Nat.add] in Ht.
    rewrite Ht. unfold members. cbn [segments loop_add_segment]. rewrite length_app. simpl.
    change (child_loops (loop_add_segment loop0 cur)) with (child_loops loop0). lia.
  - destruct (find_best_found _ _ _ _ _ _ _ _ Hf) as (_ & Hi & Hu).
    unfold bind at 1.
    destruct (build_tree_while fuel self (drop c0 segs) children _ _ _ _)
      as [[[sub n] us'] h1 | |]; [| done | done].
    cbn [build_tree_finish].
    match goal with
    | |- match build_tree_while fuel self segs nodes ?l ?c ?u ?hh with _ => _ end =>
        specialize (IH segs nodes l c u hh
                      (within_limits_increment nodes usage0 i _ Hw Hi Hu));
        destruct (build_tree_while fuel self segs nodes l c u hh)
          as [[[loop c'] usage] h' | |]; [| done | done]
    end.
    destruct IH as [Hw' Hsum]. split; [done |]. rewrite Hsum.
    pose proof (total_usage_increment usage0 nodes 0 i _ Hi) as Ht. cbn [Nat.add] in Ht.
    rewrite Ht, members_add_loop. lia.
Qed.

(** The matcher respects the repeat limits: when the loop of
    [_build_tree] exits, the usage count of every node is between 0 and
    its limit ([max_use], [repeat], 99999 for a token that [int] does not
    accept; 0 for a negative limit), and the usage counts add up to the
    number of members of the loop, its segments and its child loops; so a
    loop never holds more members than the limits of its schema nodes
    allow in all. *)
Theorem matcher_respects_repeat_limits (self : EdiParser) (segs : list loc)
    (schema_nodes : list StructureChild) (parent_loop_id : string) (h : heap) :
  exists n, forall fuel, (n <= fuel)%nat ->
    match _build_tree fuel self segs schema_nodes parent_loop_id h with
    | Ret (cdm_loop, cursor) h' =>
        exists loop0 usage_counts,
          build_tree_while fuel self segs schema_nodes (new_loop parent_loop_id) 0%nat
            (zero_counts (length schema_nodes)) h = Ret (loop0, cursor, usage_counts) h'
          /\ (forall i node, schema_nodes !! i = Some node ->
                0 <= usage_of usage_counts i <= Z.max 0 (max_repeats node))
          /\ Z.of_nat (members cdm_loop) = total_usage usage_counts 0 schema_nodes
          /\ Z.of_nat (members cdm_loop) <= capacity schema_nodes
    | Raise _ _ => True
    | OutOfFuel => False
    end.
Proof.
  destruct (build_tree_result self segs schema_nodes parent_loop_id h) as [n Hn].
  exists n. intros fuel Hfuel. specialize (Hn fuel Hfuel).
  assert (Hw0 : within_limits schema_nodes (zero_counts (length schema_nodes))).
  { intros i. rewrite usage_of_zero_counts. split; [done |]. intros. lia. }
  pose proof (build_tree_while_usage fuel self segs schema_nodes (new_loop parent_loop_id)
                0%nat (zero_counts (length schema_nodes)) h Hw0) as Hu.
  destruct (build_tree_while fuel self segs schema_nodes _ _ _ h)
    as [[[loop0 c] u] h' | e h' |] eqn:Hw; [| by rewrite Hn | done].
  destruct Hn as [-> _]. destruct Hu as [Hlim Hsum].
  rewrite total_usage_zero in Hsum. change (members (new_loop parent_loop_id)) with 0%nat in Hsum.
  assert (Hmem : Z.of_nat (members (loop_add_errors loop0
                              (required_missing parent_loop_id u schema_nodes)))
                 = total_usage u 0 schema_nodes).
  { change (members (loop_add_errors loop0 (required_missing parent_loop_id u schema_nodes)))
      with (members loop0). lia. }
  exists loop0, u. split_and!; [done | | done |].
  - intros i node Hi. destruct (Hlim i) as [H0 Hb]. split; [done | by apply Hb].
  - rewrite Hmem. apply total_usage_capacity. intros j node Hj. simpl.
    destruct (Hlim j) as [_ Hb]. by apply Hb.
Qed.

(** ** Findings of the validator *)

(** Induction on an element definition, with the property for its
    sub-elements. *)
Lemma BaseElement_nested_ind (P : BaseElement -> Prop) :
  (forall e, (forall l, sub_elements e = SubList l -> Forall P l) -> P e) ->
  forall e, P e.
Proof.
  intros H. fix IH 1. intros [x u sq dt mn mx fm vc sub idf].
  apply H. cbn [sub_elements]. destruct sub as [| l |]; intros l' Hl; try discriminate Hl.
  injection Hl as <-. induction l as [| a r IHl]; constructor; [apply IH | exact IHl].
Qed.

Lemma flag_in_sub (b : bool) (e : BaseElement) (l : list BaseElement) (s : BaseElement) :
  sub_elements e = SubList l -> s ∈ l -> flag_in b s -> flag_in b e.
Proof.
  intros Hl Hs Hf. destruct e as [x u sq dt mn mx fm vc sub idf]. cbn [sub_elements] in Hl.
  subst sub. right. cbn [sub_elements].
  induction Hs as [s r | s s' r Hs IH]; [by left | right; exact (IH Hf)].
Qed.

(** The findings of the checks on a value carry the identifier flag of
    the element. *)
Lemma scalar_checks_findings (e : BaseElement) (full_xid value : string)
    (errors0 errs : list CdmValidationError) (Q : CdmValidationError -> Prop) :
  (forall m, Q (element_error m full_xid (is_identifier e))) ->
  Forall Q errors0 ->
  scalar_checks e full_xid value errors0 = Ok errs -> Forall Q errs.
Proof.
  intros HQ H0. unfold scalar_checks. cbv zeta.
  destruct (match format e with
            | Some data_format =>
                if format_truthy data_format
                then let+ ok := _validate_format value data_format in
                     Ok (if ok then [] else _)
                else Ok []
            | None => Ok []
            end) as [format_errors | ex] eqn:Hfmt; [| done].
  cbn [rbind]. intros [= <-].
  assert (Hf : Forall Q format_errors).
  { destruct (format e) as [f |]; [| by injection Hfmt as <-].
    destruct (format_truthy f); [| by injection Hfmt as <-].
    destruct (_validate_format value f) as [ok | ex]; [| done]. cbn [rbind] in Hfmt.
    injection Hfmt as <-. destruct ok; repeat constructor. apply HQ. }
  repeat apply Forall_app_2; try done.
  - destruct (minLength e) as [mn |]; [| constructor].
    destruct (PyStr.len value <? mn); repeat constructor. apply HQ.
  - destruct (maxLength e) as [mx |]; [| constructor].
    destruct (mx <? PyStr.len value); repeat constructor. apply HQ.
  - destruct (negb (String.eqb (dataType e) "")
              && negb (_validate_data_type value (dataType e))); repeat constructor.
    apply HQ.
  - destruct (valid_codes e) as [[| c cs] |]; try constructor.
    match goal with |- Forall _ (if ?b then _ else _) => destruct b end;
      repeat constructor. apply HQ.
Qed.

(** Every finding of an element is a finding of an element, and carries
    the identifier flag of the element or of one of its sub-elements. *)
Lemma validate_element_findings (sep : ascii) (e : BaseElement) :
  forall value parent errs,
    _validate_element_recursively sep e value parent = Ok errs ->
    Forall (fun f => element_finding f /\ flag_in (is_identifier_error f) e) errs.
Proof.
  induction e as [e IH] using BaseElement_nested_ind. intros value parent errs.
  destruct e as [x u sq dt mn mx fm vc sub idf]. cbn [sub_elements] in IH.
  cbn [_validate_element_recursively el_xid el_usage is_identifier dataType sub_elements].
  set (full_xid := match parent with
                   | Some p => if String.eqb p "" then x else p +:+ "-" +:+ x
                   | None => x
                   end).
  set (e := mkBaseElement x u sq dt mn mx fm vc sub idf).
  assert (HQ : forall m, (fun f => element_finding f /\ flag_in (is_identifier_error f) e)
                           (element_error m full_xid idf)).
  { intros m. split; [by split_and! | by left]. }
  destruct (String.eqb u "R" && negb (negb (String.eqb value ""))).
  { intros [= <-]. repeat constructor; apply HQ. }
  match goal with |- context [if String.eqb u "N" && ?c then ?a else ?b] =>
    remember (if String.eqb u "N" && c then a else b) as acc0 eqn:Hacc0 end.
  assert (H0 : Forall (fun f => element_finding f /\ flag_in (is_identifier_error f) e) acc0).
  { subst acc0. destruct (String.eqb u "N" && negb (String.eqb value ""));
      repeat constructor; apply HQ. }
  clear Hacc0.
  destruct (negb (negb (String.eqb value ""))); [by intros [= <-] |].
  destruct (String.eqb dt "Composite").
  2: { intros Hs. eapply (scalar_checks_findings e full_xid value); [exact HQ | exact H0 |].
       exact Hs. }
  destruct sub as [| l |]; [by intros [= <-] | | by intros [= <-]].
  specialize (IH l eq_refl). revert acc0 H0.
  assert (Hsub : forall s, s ∈ l -> forall b, flag_in b s -> flag_in b e).
  { intros s Hs b. by apply (flag_in_sub b e l s). }
  clearbody e. clear HQ.
  induction l as [| sub_def rest IHl]; intros acc Hacc; [by intros [= <-] |].
  inversion IH as [| ? ? Hhere Hrest]; subst.
  destruct (el_seq sub_def =? 0).
  { apply IHl; [done | | done]. intros s Hs. apply Hsub. by constructor. }
  destruct (if el_seq sub_def - 1 <? Z.of_nat (length (PyStr.split sep value))
            then py_list_index (PyStr.split sep value) (el_seq sub_def - 1)
            else Ok "") as [sub_value | ex]; [| done].
  cbn [rbind].
  destruct (_validate_element_recursively sep sub_def sub_value (Some full_xid))
    as [es | ex] eqn:Hes; [| done].
  cbn [rbind]. apply IHl; [done | |].
  - intros s Hs. apply Hsub. by constructor.
  - apply Forall_app_2; [done |].
    eapply Forall_impl; [exact (Hhere _ _ _ Hes) |].
    intros f [Hf Hflag]. split; [done |]. apply (Hsub sub_def); [by constructor | done].
Qed.

Lemma each_element_findings (sep : ascii) (data : gmap Z string) (defs : list BaseElement) :
  forall errs,
    each_element sep data defs = Ok errs ->
    Forall (fun f => element_finding f
                     /\ exists e, e ∈ defs /\ flag_in (is_identifier_error f) e) errs.
Proof.
  induction defs as [| e r IH]; intros errs; cbn [each_element]; [by intros [= <-] |].
  assert (Hr : forall errs',
    each_element sep data r = Ok errs' ->
    Forall (fun f => element_finding f
                     /\ exists e0, e0 ∈ e :: r /\ flag_in (is_identifier_error f) e0) errs').
  { intros errs' He. eapply Forall_impl; [exact (IH _ He) |].
    intros f (Hf & e0 & He0 & Hflag). split; [done |]. exists e0. split; [by constructor | done]. }
  destruct (el_seq e =? 0); [apply Hr |].
  destruct (_validate_element_recursively sep e (default "" (data !! el_seq e)) None)
    as [es | ex] eqn:Hes; [| done].
  cbn [rbind]. destruct (each_element sep data r) as [es' | ex]; [| done].
  cbn [rbind]. intros [= <-]. apply Forall_app_2; [| by apply Hr].
  eapply Forall_impl; [exact (validate_element_findings sep e _ _ _ Hes) |].
  intros f [Hf Hflag]. split; [done |]. exists e. split; [by constructor | done].
Qed.

Lemma assertion_result_findings (failed : bool) (rule_id log_detail : string) :
  Forall message_finding (assertion_result failed rule_id log_detail).
Proof. unfold assertion_result. destruct failed; repeat constructor. Qed.

Ltac bind_step :=
  lazymatch goal with
  | |- context [bind ?m ?k ?h] =>
      rewrite (bind_unfold m k h); destruct (m h) as [? ? | ? ? |]; try exact I
  end.

Lemma execute_assertion_findings (l : loc) (a : AssertionClause) (rule_id : string) (h : heap) :
  match _execute_assertion l a rule_id h with
  | Ret errs _ => Forall message_finding errs
  | _ => True
  end.
Proof.
  unfold _execute_assertion.
  destruct (assertion a); repeat bind_step; cbn [ret];
    first [apply assertion_result_findings | constructor].
Qed.

Lemma execute_assertions_findings (l : loc) (asserts : list AssertionClause)
    (rule_id : string) : forall h,
  match execute_assertions l asserts rule_id h with
  | Ret errs _ => Forall message_finding errs
  | _ => True
  end.
Proof.
  induction asserts as [| a r IH]; intros h; cbn [execute_assertions]; [constructor |].
  rewrite bind_unfold. pose proof (execute_assertion_findings l a rule_id h) as Ha.
  destruct (_execute_assertion l a rule_id h) as [es h1 | |]; [| done | done].
  rewrite bind_unfold. specialize (IH h1).
  destruct (execute_assertions l r rule_id h1) as [es' h2 | |]; [| done | done].
  cbn [ret]. by apply Forall_app_2.
Qed.

Lemma each_rule_findings (l : loc) (rs : list SyntaxRule) : forall h,
  match each_rule l rs h with
  | Ret errs _ => Forall message_finding errs
  | _ => True
  end.
Proof.
  induction rs as [| rule r IH]; intros h; cbn [each_rule]; [constructor |].
  rewrite bind_unfold.
  destruct (_evaluate_conditions l (conditions rule) h) as [met h1 | |]; [| done | done].
  rewrite bind_unfold.
  assert (Hes : match (if met then execute_assertions l (then_ rule) (ruleId rule) else ret []) h1
                with
                | Ret errs _ => Forall message_finding errs
                | _ => True
                end).
  { destruct met; [apply execute_assertions_findings | constructor]. }
  destruct ((if met then execute_assertions l (then_ rule) (ruleId rule) else ret []) h1)
    as [es h2 | |]; [| done | done].
  rewrite bind_unfold. specialize (IH h2).
  destruct (each_rule l r h2) as [es' h3 | |]; [| done | done].
  cbn [ret]. by apply Forall_app_2.
Qed.

(** The findings [validate] returns name neither a line nor a segment.
    A finding is an identifier error only when it is the finding of an
    element, or of a sub-element, that the effective definition (the base
    definition with the overrides of the context) marks [is_identifier];
    the findings of the syntax rules and of a missing base definition are
    messages only, never identifier errors. *)
Theorem validate_findings_shape (v : SegmentValidator) (segment : loc)
    (context_id : option string) (h : heap) :
  match validate v segment context_id h with
  | Ret errs _ =>
      Forall (fun f =>
                err_line_number f = None /\ err_segment_id f = None
                /\ (is_identifier_error f = true ->
                    element_xid f <> None
                    /\ exists base e,
                         segmentDefinitions (sv_schema v) !! segment_id (deref h segment)
                         = Some base
                         /\ e ∈ sd_elements (_get_effective_definition base
                                               (lookup_context (sv_schema v) context_id))
                         /\ flag_in true e))
             errs
  | _ => True
  end.
Proof.
  unfold validate. rewrite bind_unfold. cbn [read].
  destruct (segmentDefinitions (sv_schema v) !! segment_id (deref h segment))
    as [base |] eqn:Hbase.
  2: { cbn [ret]. constructor; [| constructor]. by split_and!. }
  rewrite bind_unfold. cbn [read]. rewrite bind_unfold.
  destruct (each_element (sv_component_separator v)
              (elements_in_data (elements (deref h segment)))
              (sd_elements (_get_effective_definition base
                              (lookup_context (sv_schema v) context_id))))
    as [errs | ex] eqn:He; [| done].
  cbn [lift ret]. rewrite bind_unfold. unfold _validate_syntax_rules.
  pose proof (each_rule_findings segment
                (default [] (rules (_get_effective_definition base
                                      (lookup_context (sv_schema v) context_id)))) h) as Hr.
  destruct (each_rule segment _ h) as [rule_errors h1 | |]; [| done | done].
  cbn [ret]. apply Forall_app_2.
  - eapply Forall_impl; [exact (each_element_findings _ _ _ _ He) |].
    intros f ((Hl & Hs & Hx) & e & Hin & Hflag). split_and!; [done | done |].
    intros Hid. split; [done |]. exists base, e. rewrite Hid in Hflag. by split_and!.
  - eapply Forall_impl; [exact Hr |].
    intros f (Hl & Hs & _ & Hid). split_and!; [done | done |]. intros Ht. congruence.
Qed.

(** ** Values of ASCII characters *)

Lemma isdigit_ascii (c : ascii) :
  PyStr.isdigit c = true -> (PyStr.code c <? 128) = true -> PyStr.isdecimal c = true.
Proof.
  unfold PyStr.isdigit. intros Hd Ha. apply Z.ltb_lt in Ha.
  destruct (PyStr.isdecimal c); [done |]. simpl in Hd.
  apply orb_true_iff in Hd as [Hd | Hd]; [apply orb_true_iff in Hd as [Hd | Hd] |];
    apply Z.eqb_eq in Hd; lia.
Qed.

Lemma isdecimal_code (c : ascii) :
  PyStr.isdecimal c = true -> 48 <= PyStr.code c <= 57.
Proof.
  unfold PyStr.isdecimal. intros H. apply andb_true_iff in H as [H1 H2].
  apply Z.leb_le in H1, H2. lia.
Qed.

Lemma code_inj_neq (c d : ascii) : PyStr.code c <> PyStr.code d -> Ascii.eqb c d = false.
Proof. intros Hne. apply Ascii.eqb_neq. intros ->. done. Qed.

Lemma isdecimal_not_numspace (c : ascii) :
  PyStr.isdecimal c = true -> PyStr.isnumspace c = false.
Proof.
  intros H. apply isdecimal_code in H. unfold PyStr.isnumspace.
  repeat (apply orb_false_iff; split); try apply andb_false_iff; lia.
Qed.

Lemma digit_group_decimals (d : string) (prev : bool) :
  PyStr.forallb PyStr.isdecimal d = true -> (d <> "" \/ prev = true) ->
  PyStr.digit_group prev d = Some d.
Proof.
  revert prev. induction d as [| c r IH]; intros prev Hd Hne.
  - destruct Hne as [Hne | ->]; done.
  - simpl in Hd. apply andb_true_iff in Hd as [Hc Hr]. cbn [PyStr.digit_group].
    rewrite Hc. rewrite (IH true Hr); [done | by right].
Qed.

(** [int] of a string of decimal digits, no more of them than the limit,
    is the number they write. *)
Lemma py_int_decimals (d : string) :
  PyStr.forallb PyStr.isdecimal d = true -> d <> "" ->
  PyStr.len d <= PyStr.int_max_str_digits ->
  PyStr.py_int d = Some (PyStr.digits_value 0 d).
Proof.
  intros Hd Hne Hlen. apply Z.leb_le in Hlen. unfold PyStr.py_int, PyStr.num_strip.
  assert (Hl : PyStr.lstrip_by PyStr.isnumspace d = d).
  { destruct d as [| a r]; [done |]. simpl in *. apply andb_true_iff in Hd as [Ha _].
    by rewrite (isdecimal_not_numspace a Ha). }
  rewrite Hl, rstrip_by_kept.
  2: { eapply forallb_impl; [| exact Hd]. intros c Hc. by rewrite (isdecimal_not_numspace c Hc). }
  destruct d as [| a r]; [done |]. cbn [PyStr.split_sign].
  assert (Ha : PyStr.isdecimal a = true) by (simpl in Hd; by apply andb_true_iff in Hd as [? _]).
  pose proof (isdecimal_code a Ha) as Hcode.
  rewrite (code_inj_neq a "-"), (code_inj_neq a "+") by (vm_compute (PyStr.code "-"); vm_compute (PyStr.code "+"); lia).
  rewrite digit_group_decimals by (done || by left). by rewrite Hlen.
Qed.

(** [int] refuses a string of decimal digits that has more of them than
    the limit, whatever the digits: zeros at the head count. *)
Lemma py_int_over_limit (d : string) :
  PyStr.forallb PyStr.isdecimal d = true ->
  PyStr.int_max_str_digits < PyStr.len d ->
  PyStr.py_int d = None
  /\ int_or_raise d
     = Err (ValueError ("Exceeds the limit (4300 digits) for integer string conversion: "
                        +:+ "value has " +:+ PyStr.of_Z (PyStr.len d)
                        +:+ " digits; use sys.set_int_max_str_digits() to increase the limit")).
Proof.
  intros Hd Hlen.
  assert (Hne : d <> "") by (intros ->; vm_compute in Hlen; discriminate).
  assert (Hl : PyStr.lstrip_by PyStr.isnumspace d = d).
  { destruct d as [| a r]; [done |]. simpl in *. apply andb_true_iff in Hd as [Ha _].
    by rewrite (isdecimal_not_numspace a Ha). }
  assert (Hstrip : PyStr.num_strip d = d).
  { unfold PyStr.num_strip. rewrite Hl, rstrip_by_kept; [done |].
    eapply forallb_impl; [| exact Hd]. intros c Hc. by rewrite (isdecimal_not_numspace c Hc). }
  assert (Hsign : PyStr.split_sign d = (false, d)).
  { destruct d as [| a r]; [done |]. cbn [PyStr.split_sign].
    assert (Ha : PyStr.isdecimal a = true)
      by (simpl in Hd; by apply andb_true_iff in Hd as [? _]).
    pose proof (isdecimal_code a Ha) as Hcode.
    by rewrite (code_inj_neq a "-"), (code_inj_neq a "+")
      by (vm_compute (PyStr.code "-"); vm_compute (PyStr.code "+"); lia). }
  assert (Hint : PyStr.py_int d = None).
  { unfold PyStr.py_int. rewrite Hstrip, Hsign.
    rewrite digit_group_decimals by (done || by left).
    by apply Z.leb_gt in Hlen as ->. }
  split; [exact Hint |].
  unfold int_or_raise. rewrite Hint. unfold PyStr.int_over_limit. rewrite Hstrip, Hsign.
  assert (Hcount : forall r, PyStr.forallb PyStr.isdecimal r = true ->
                     PyStr.count_digits false r = Some (PyStr.len r)).
  { induction r as [| c r IH]; [done |]. intros Hr. simpl in Hr.
    apply andb_true_iff in Hr as [Hc Hr]. cbn [PyStr.count_digits]. rewrite Hc, (IH Hr).
    unfold PyStr.len. cbn [String.length]. f_equal. lia. }
  destruct d as [| a r]; [done |].
  assert (Ha : PyStr.isdecimal a = true)
    by (simpl in Hd; by apply andb_true_iff in Hd as [? _]).
  pose proof (isdecimal_code a Ha) as Hcode.
  rewrite (code_inj_neq a "_") by (vm_compute (PyStr.code "_"); lia).
  rewrite (Hcount _ Hd). by apply Z.ltb_lt in Hlen as ->.
Qed.

(** A repeat token of more decimal digits than [int] accepts gives the
    limit 99999, as a token that is no number does. *)
Lemma max_repeats_over_limit (x nm u r : string) (children : list StructureChild) :
  PyStr.forallb PyStr.isdecimal r = true ->
  PyStr.int_max_str_digits < PyStr.len r ->
  max_repeats (Loop x nm u (RepeatStr r) children) = 99999.
Proof.
  intros Hd Hlen. cbn [max_repeats]. by rewrite (proj1 (py_int_over_limit r Hd Hlen)).
Qed.

(** With a repeat token of 4301 digits and the usage at 99999 no sibling
    is selected; with 4300 digits the token is the limit and the loop is
    selected. *)
Example best_match_long_repeat_token :
  _find_best_schema_match lx_parser 0%nat
    [Loop "2400" "Service Line" "S"
       (RepeatStr (string_of_list_ascii (repeat "1"%char 4301))) [lx_node]]
    {[0%nat := 99999]} lx_heap
  = Ret None lx_heap
  /\ _find_best_schema_match lx_parser 0%nat
       [Loop "2400" "Service Line" "S"
          (RepeatStr (string_of_list_ascii (repeat "1"%char 4300))) [lx_node]]
       {[0%nat := 99999]} lx_heap
     = Ret (Some (Loop "2400" "Service Line" "S"
                    (RepeatStr (string_of_list_ascii (repeat "1"%char 4300))) [lx_node],
                  0%nat)) lx_heap.
Proof. split; vm_compute; reflexivity. Qed.

Lemma forallb_take (p : ascii -> bool) (k : nat) (s : string) :
  PyStr.forallb p s = true -> PyStr.forallb p (PyStr.take k s) = true.
Proof.
  revert s. induction k as [| k IH]; intros s Hs; [done |].
  destruct s as [| c r]; [done |]. simpl in *. apply andb_true_iff in Hs as [Hc Hr].
  by rewrite Hc, IH.
Qed.

Lemma forallb_drop (p : ascii -> bool) (k : nat) (s : string) :
  PyStr.forallb p s = true -> PyStr.forallb p (PyStr.drop k s) = true.
Proof.
  revert s. induction k as [| k IH]; intros s Hs; [done |].
  destruct s as [| c r]; [done |]. simpl in *. apply andb_true_iff in Hs as [Hc Hr].
  by apply IH.
Qed.

Lemma forallb_and (p q : ascii -> bool) (s : string) :
  PyStr.forallb p s = true -> PyStr.forallb q s = true ->
  PyStr.forallb (fun c => p c && q c) s = true.
Proof.
  induction s as [| a r IH]; [done |]. simpl. intros Hp Hq.
  apply andb_true_iff in Hp as [Hpa Hpr]. apply andb_true_iff in Hq as [Hqa Hqr].
  by rewrite Hpa, Hqa, IH.
Qed.

(** On a value of ASCII characters [str.isdigit] is [str.isdecimal]. *)
Lemma str_isdigit_ascii (s : string) :
  ascii_only s -> PyStr.str_isdigit s = true ->
  s <> "" /\ PyStr.forallb PyStr.isdecimal s = true.
Proof.
  unfold PyStr.str_isdigit. intros Ha Hd. apply andb_true_iff in Hd as [Hne Hd].
  split; [by apply negb_true_iff, String.eqb_neq in Hne |].
  eapply forallb_impl; [| exact (forallb_and _ _ s Hd Ha)].
  intros c Hc. apply andb_true_iff in Hc as [H1 H2]. by apply isdigit_ascii.
Qed.

Lemma validate_format_hhmm_ascii (value : string) :
  ascii_only value ->
  _validate_format value (FmtStr "HHMM")
  = Ok (String.eqb value ""
        || ((PyStr.len value =? 4) && PyStr.forallb PyStr.isdecimal value
            && (PyStr.digits_value 0 (PyStr.take 2 value) <=? 23)
            && (PyStr.digits_value 0 (PyStr.drop 2 value) <=? 59))).
Proof.
  intros Ha.
  unfold _validate_format. destruct (String.eqb value "") eqn:He; [done |].
  cbn [String.eqb Ascii.eqb Bool.eqb orb].
  destruct (PyStr.len value =? 4) eqn:Hlen; [| done].
  destruct (PyStr.str_isdigit value) eqn:Hd; cbn [andb negb].
  2: { destruct (PyStr.forallb PyStr.isdecimal value) eqn:Hdec; [| done].
       exfalso. unfold PyStr.str_isdigit in Hd. rewrite He in Hd. cbn [negb andb] in Hd.
       assert (PyStr.forallb PyStr.isdigit value = true); [| congruence].
       eapply forallb_impl; [| exact Hdec]. intros c Hc. unfold PyStr.isdigit. by rewrite Hc. }
  destruct (str_isdigit_ascii value Ha Hd) as [Hne Hdec]. rewrite Hdec. cbn [andb].
  apply Z.eqb_eq in Hlen. unfold PyStr.len in Hlen.
  destruct value as [| a [| b [| c [| d [| x r]]]]]; simpl in Hlen; try lia.
  unfold int_or_raise.
  rewrite (py_int_decimals (PyStr.take 2 (String a (String b (String c (String d ""))))))
    by (done || (by apply forallb_take) || (by vm_compute)).
  cbn [rbind].
  assert (H0 : 0 <= PyStr.digits_value 0 (PyStr.take 2 (String a (String b (String c (String d "")))))).
  { simpl in Hdec. apply andb_true_iff in Hdec as [H1 Hdec].
    apply andb_true_iff in Hdec as [H2 _].
    apply isdecimal_code in H1, H2. simpl. lia. }
  replace (0 <=? PyStr.digits_value 0 (PyStr.take 2 (String a (String b (String c (String d ""))))))
    with true by (symmetry; by apply Z.leb_le).
  cbn [andb].
  destruct (PyStr.digits_value 0 (PyStr.take 2 (String a (String b (String c (String d "")))))
            <=? 23); cbn [negb andb]; [| done].
  rewrite (py_int_decimals (PyStr.drop 2 (String a (String b (String c (String d ""))))))
    by (done || (by apply forallb_drop) || (by vm_compute)).
  cbn [rbind].
  assert (H1 : 0 <= PyStr.digits_value 0 (PyStr.drop 2 (String a (String b (String c (String d "")))))).
  { simpl in Hdec. apply andb_true_iff in Hdec as [_ Hdec].
    apply andb_true_iff in Hdec as [_ Hdec]. apply andb_true_iff in Hdec as [H3 Hdec].
    apply andb_true_iff in Hdec as [H4 _].
    apply isdecimal_code in H3, H4. simpl. lia. }
  replace (0 <=? PyStr.digits_value 0 (PyStr.drop 2 (String a (String b (String c (String d ""))))))
    with true by (symmetry; by apply Z.leb_le).
  done.
Qed.

Lemma validate_format_ascii (value : string) (data_format : Format) :
  ascii_only value -> exists b, _validate_format value data_format = Ok b.
Proof.
  intros Ha. pose proof (validate_format_hhmm_ascii value Ha) as HHM.
  destruct data_format as [f | l].
  2: { unfold _validate_format. destruct (String.eqb value ""); by eexists. }
  destruct (String.eqb f "HHMM") eqn:Hf.
  { apply String.eqb_eq in Hf. subst f. rewrite HHM. by eexists. }
  unfold _validate_format. rewrite Hf.
  destruct (String.eqb value ""); [by eexists |].
  destruct (String.eqb f "CCYYMMDD"); [| by eexists].
  destruct (negb _); by eexists.
Qed.

(** On a value of ASCII characters [_validate_format] does not raise:
    [int] is called on decimal digits only.  For the format [HHMM] it
    accepts the empty value and the values of four decimal digits whose
    first two write an hour up to 23 and whose last two a minute up to
    59. *)
Theorem validate_format_returns_on_ascii (value : string) (data_format : Format) :
  ascii_only value ->
  (exists b, _validate_format value data_format = Ok b)
  /\ _validate_format value (FmtStr "HHMM")
     = Ok (String.eqb value ""
           || ((PyStr.len value =? 4) && PyStr.forallb PyStr.isdecimal value
               && (PyStr.digits_value 0 (PyStr.take 2 value) <=? 23)
               && (PyStr.digits_value 0 (PyStr.drop 2 value) <=? 59))).
Proof.
  intros Ha. split; [by apply validate_format_ascii | by apply validate_format_hhmm_ascii].
Qed.

Lemma validate_format_returns_on_ascii_witness :
  ascii_only "2359" /\ _validate_format "2359" (FmtStr "HHMM") = Ok true.
Proof.
  assert (Ha : ascii_only "2359") by reflexivity.
  split; [exact Ha |].
  by rewrite (proj2 (validate_format_returns_on_ascii "2359" (FmtStr "HHMM") Ha)).
Defined.

Lemma split_forallb (p : ascii -> bool) (c : ascii) (s : string) :
  PyStr.forallb p s = true -> Forall (fun x => PyStr.forallb p x = true) (PyStr.split c s).
Proof.
  induction s as [| a r IH]; intros Hs; [by repeat constructor |].
  simpl in Hs. apply andb_true_iff in Hs as [Ha Hr]. specialize (IH Hr). cbn [PyStr.split].
  destruct (Ascii.eqb a c); [by constructor |].
  destruct (PyStr.split c r) as [| x xs]; [repeat constructor; simpl; by rewrite Ha |].
  inversion IH as [| ? ? Hx Hxs]; subst. constructor; [| done]. simpl. by rewrite Ha, Hx.
Qed.

Lemma scalar_checks_returns (e : BaseElement) (full_xid value : string)
    (errors0 : list CdmValidationError) :
  ascii_only value -> exists errs, scalar_checks e full_xid value errors0 = Ok errs.
Proof.
  intros Ha. unfold scalar_checks. cbv zeta.
  destruct (format e) as [f |]; [| by eexists].
  destruct (format_truthy f); [| by eexists].
  destruct (validate_format_ascii value f Ha) as [b ->]. by eexists.
Qed.

Lemma subs_nonneg_sub (e : BaseElement) (l : list BaseElement) (s : BaseElement) :
  sub_elements e = SubList l -> s ∈ l -> subs_nonneg e -> 0 <= el_seq s /\ subs_nonneg s.
Proof.
  intros Hl Hs He. destruct e as [x u sq dt mn mx fm vc sub idf]. cbn [sub_elements] in Hl.
  subst sub. cbn [subs_nonneg sub_elements] in He.
  induction Hs as [s r | s s' r Hs IH]; [tauto | apply IH; tauto].
Qed.

(** On a value of ASCII characters, for an element without a negative
    [seq] below it, the validation of the element does not raise. *)
Lemma validate_element_returns (sep : ascii) (e : BaseElement) :
  forall value parent,
    ascii_only value -> subs_nonneg e ->
    exists errs, _validate_element_recursively sep e value parent = Ok errs.
Proof.
  induction e as [e IH] using BaseElement_nested_ind. intros value parent Ha Hnn.
  pose proof (fun l s Hl Hs => subs_nonneg_sub e l s Hl Hs Hnn) as Hsubs.
  clear Hnn.
  destruct e as [x u sq dt mn mx fm vc sub idf]. cbn [sub_elements] in IH, Hsubs.
  cbn [_validate_element_recursively el_xid el_usage is_identifier dataType sub_elements].
  set (full_xid := match parent with
                   | Some p => if String.eqb p "" then x else p +:+ "-" +:+ x
                   | None => x
                   end).
  destruct (String.eqb u "R" && negb (negb (String.eqb value ""))); [by eexists |].
  match goal with |- context [if String.eqb u "N" && ?c then ?a else ?b] =>
    generalize (if String.eqb u "N" && c then a else b) end.
  intros acc0.
  destruct (negb (negb (String.eqb value ""))); [by eexists |].
  destruct (String.eqb dt "Composite"); [| by apply scalar_checks_returns].
  destruct sub as [| l |]; [by eexists | | by eexists].
  specialize (IH l eq_refl). specialize (Hsubs l).
  pose proof (split_forallb _ sep value Ha) as Hparts.
  revert acc0.
  induction l as [| sub_def rest IHl]; intros acc; [by eexists |].
  inversion IH as [| ? ? Hhere Hrest]; subst.
  assert (Hrest' : forall s, s ∈ rest -> 0 <= el_seq s /\ subs_nonneg s).
  { intros s Hs. apply Hsubs; [done | by constructor]. }
  destruct (Hsubs sub_def eq_refl ltac:(by constructor)) as [Hseq Hnn].
  destruct (el_seq sub_def =? 0) eqn:Hz.
  { apply IHl; [done |]. intros s _ Hs. by apply Hrest'. }
  apply Z.eqb_neq in Hz.
  assert (Hval : exists sub_value,
            (if el_seq sub_def - 1 <? Z.of_nat (length (PyStr.split sep value))
             then py_list_index (PyStr.split sep value) (el_seq sub_def - 1)
             else Ok "") = Ok sub_value /\ ascii_only sub_value).
  { destruct (el_seq sub_def - 1 <? Z.of_nat (length (PyStr.split sep value))) eqn:Hlt;
      [| by eexists].
    apply Z.ltb_lt in Hlt. unfold py_list_index.
    replace (el_seq sub_def - 1 <? 0) with false by lia.
    replace ((0 <=? el_seq sub_def - 1)
             && (el_seq sub_def - 1 <? Z.of_nat (length (PyStr.split sep value))))
      with true by (symmetry; apply andb_true_iff; lia).
    eexists. split; [reflexivity |].
    destruct (nth_in_or_default (Z.to_nat (el_seq sub_def - 1)) (PyStr.split sep value) "")
      as [Hin | ->]; [| done].
    rewrite Forall_forall in Hparts. apply Hparts. by apply list_elem_of_In. }
  destruct Hval as (sub_value & -> & Hsv). cbn [rbind].
  destruct (Hhere sub_value (Some full_xid) Hsv Hnn) as [es ->]. cbn [rbind].
  apply IHl; [done |]. intros s _ Hs. by apply Hrest'.
Qed.

Lemma elements_in_data_value (els : list CdmElement) (k : Z) (v : string) :
  elements_in_data els !! k = Some v -> exists el, el ∈ els /\ value el = v.
Proof.
  unfold elements_in_data.
  assert (Hgen : forall (m : gmap Z string),
    fold_left (fun m el => <[position el := value el]> m) els m !! k = Some v ->
    m !! k = Some v \/ exists el, el ∈ els /\ value el = v).
  { induction els as [| el r IH]; intros m Hm; [by left |]. cbn [fold_left] in Hm.
    destruct (IH _ Hm) as [Hl | (el' & Hin & Hv)].
    - destruct (decide (position el = k)) as [<- | Hne].
      + rewrite lookup_insert_eq in Hl. injection Hl as <-. right. exists el.
        split; [by constructor | done].
      + rewrite lookup_insert_ne in Hl by done. by left.
    - right. exists el'. split; [by constructor | done]. }
  intros Hm. destruct (Hgen ∅ Hm) as [He | H]; [by rewrite lookup_empty in He | done].
Qed.

Lemma each_element_returns (sep : ascii) (data : gmap Z string) (defs : list BaseElement) :
  (forall k v, data !! k = Some v -> ascii_only v) -> Forall subs_nonneg defs ->
  exists errs, each_element sep data defs = Ok errs.
Proof.
  intros Hdata. induction defs as [| e r IH]; intros Hnn; cbn [each_element]; [by eexists |].
  inversion Hnn as [| ? ? He Hr]; subst. destruct (IH Hr) as [es' Hes'].
  destruct (el_seq e =? 0); [by eexists |].
  assert (Hv : ascii_only (default "" (data !! el_seq e))).
  { destruct (data !! el_seq e) as [v |] eqn:Hd; [by apply (Hdata _ _ Hd) | done]. }
  destruct (validate_element_returns sep e _ None Hv He) as [es ->]. cbn [rbind].
  rewrite Hes'. by eexists.
Qed.

(** [validate] without a context does not raise on a segment whose values
    are ASCII characters when the base definition of the segment is plain
    (no syntax rule, no negative [seq] below its elements) or missing. *)
Lemma validate_returns_on_ascii (v : SegmentValidator) (segment : loc) (h : heap) :
  Forall (fun el => ascii_only (value el)) (elements (deref h segment)) ->
  (forall base, segmentDefinitions (sv_schema v) !! segment_id (deref h segment) = Some base ->
     plain_definition_of base) ->
  exists errs, validate v segment None h = Ret errs h.
Proof.
  intros Hvals Hplain. unfold validate. rewrite bind_unfold. cbn [read].
  destruct (segmentDefinitions (sv_schema v) !! segment_id (deref h segment))
    as [base |] eqn:Hbase; [| by eexists].
  destruct (Hplain base eq_refl) as [Hrules Hnn].
  rewrite bind_unfold. cbn [read lookup_context _get_effective_definition].
  rewrite bind_unfold.
  destruct (each_element_returns (sv_component_separator v)
              (elements_in_data (elements (deref h segment))) (sd_elements base))
    as [errs ->]; [| done |].
  { intros k x Hk. apply elements_in_data_value in Hk as (el & Hin & <-).
    rewrite Forall_forall in Hvals. by apply Hvals. }
  cbn [lift ret]. rewrite bind_unfold. unfold _validate_syntax_rules. rewrite Hrules.
  cbn [each_rule ret]. by eexists.
Qed.

Lemma replace_crlf_cons2 (c d : ascii) (r : string) :
  PyStr.replace_crlf (String c (String d r)) =
  if Ascii.eqb c PyStr.CR && Ascii.eqb d PyStr.LF
  then String PyStr.LF (PyStr.replace_crlf r)
  else String c (PyStr.replace_crlf (String d r)).
Proof. reflexivity. Qed.

Lemma replace_crlf_forallb (p : ascii -> bool) (s : string) :
  p PyStr.LF = true -> PyStr.forallb p s = true ->
  PyStr.forallb p (PyStr.replace_crlf s) = true.
Proof.
  intros HLF.
  assert (Hgen : forall n s, (String.length s <= n)%nat -> PyStr.forallb p s = true ->
                             PyStr.forallb p (PyStr.replace_crlf s) = true).
  { induction n as [| n IH]; intros s0 Hn Hs.
    - destruct s0; [done | simpl in Hn; lia].
    - destruct s0 as [| c [| d r]]; [done | done |].
      rewrite replace_crlf_cons2.
      pose proof Hs as Hs'.
      simpl in Hs. apply andb_true_iff in Hs as [Hc Hs]. apply andb_true_iff in Hs as [Hd Hr].
      simpl in Hn.
      destruct (Ascii.eqb c PyStr.CR && Ascii.eqb d PyStr.LF).
      + cbn [PyStr.forallb]. rewrite HLF. apply IH; [lia | done].
      + cbn [PyStr.forallb]. rewrite Hc. apply IH; [simpl; lia |]. simpl. by rewrite Hd, Hr. }
  apply (Hgen (String.length s)). done.
Qed.

Lemma replace_char_forallb (p : ascii -> bool) (a b : ascii) (s : string) :
  p b = true -> PyStr.forallb p s = true ->
  PyStr.forallb p (PyStr.replace_char a b s) = true.
Proof.
  intros Hb. induction s as [| c r IH]; [done |]. simpl. intros Hs.
  apply andb_true_iff in Hs as [Hc Hr]. rewrite (IH Hr).
  by destruct (Ascii.eqb c a); [rewrite Hb | rewrite Hc].
Qed.

Lemma remove_char_forallb (p : ascii -> bool) (a : ascii) (s : string) :
  PyStr.forallb p s = true -> PyStr.forallb p (PyStr.remove_char a s) = true.
Proof.
  induction s as [| c r IH]; [done |]. simpl. intros Hs.
  apply andb_true_iff in Hs as [Hc Hr].
  destruct (Ascii.eqb c a); [by apply IH |]. simpl. by rewrite Hc, IH.
Qed.

(** The values the decoder makes of an input of ASCII characters are of
    ASCII characters. *)
Lemma segmentize_ascii (e t : ascii) (edi_string : string) :
  ascii_only edi_string ->
  Forall (fun s => Forall (fun el => ascii_only (value el)) (elements s))
         (_segmentize e t edi_string).
Proof.
  intros Ha. unfold _segmentize.
  match goal with |- Forall _ (segmentize_from e 0 (PyStr.split t ?c)) => set (content := c) end.
  assert (Hc : ascii_only content).
  { subst content. unfold ascii_only.
    assert (H0 : PyStr.forallb (fun c => PyStr.code c <? 128)
                   (PyStr.replace_char PyStr.CR PyStr.LF
                      (PyStr.replace_crlf (PyStr.strip edi_string))) = true).
    { apply replace_char_forallb; [done |]. apply replace_crlf_forallb; [done |].
      by apply rstrip_by_forallb, lstrip_by_forallb. }
    destruct (negb (Ascii.eqb t PyStr.LF)); [by apply remove_char_forallb | done]. }
  pose proof (segmentize_from_shape e (PyStr.split t content) 0) as Hshape.
  pose proof (split_forallb _ t content Hc) as Hpieces.
  rewrite Forall_forall in Hshape. rewrite Forall_forall in Hpieces.
  rewrite Forall_forall. intros s Hs.
  destruct (Hshape s Hs) as (j & raw & Hj & _ & ->). cbn [elements].
  assert (Hraw : ascii_only (PyStr.strip raw)).
  { apply rstrip_by_forallb, lstrip_by_forallb. apply Hpieces.
    by eapply list_elem_of_lookup_2. }
  pose proof (split_forallb _ e (PyStr.strip raw) Hraw) as Hparts.
  apply (proj1 (List.Forall_map value ascii_only _)). rewrite enumerate_elements_value.
  destruct (PyStr.split e (PyStr.strip raw)) as [| x xs]; [constructor |].
  by inversion Hparts.
Qed.

Lemma EdiParser_init_validator (edi_string : string) (sch : ImplementationGuideSchema)
    (h : heap) (p : EdiParser) (h' : heap) :
  EdiParser_init edi_string sch h = Ret p h' -> sv_schema (validator p) = sch.
Proof.
  unfold EdiParser_init. destruct (_detect_delimiters edi_string) as [[e t] c].
  rewrite bind_unfold, alloc_all_ret. intros [= <- _]. reflexivity.
Qed.

(** On an input of ASCII characters, with a schema whose definitions of
    [ISA], [IEA], [GS] and [GE] (those it has) carry no syntax rule and no
    negative [seq] below their elements, [parse_edi] returns an interchange:
    with enough fuel no exception comes out of it. *)
Theorem parse_edi_returns_on_ascii (edi_string : string) (sch : ImplementationGuideSchema) :
  ascii_only edi_string -> envelope_definitions_plain sch ->
  exists n ic h', forall fuel, (n <= fuel)%nat ->
    parse_edi fuel edi_string sch = Ret ic h'.
Proof.
  intros Hascii Hplain. unfold parse_edi.
  destruct (EdiParser_init_ret edi_string sch []) as (p & Hinit & Hsch & Hdel & Hsegs).
  pose proof (EdiParser_init_validator _ _ _ _ _ Hinit) as Hval.
  set (segs := _segmentize (element_delimiter p) (segment_terminator p) edi_string) in *.
  destruct (parse_stable p ([] ++ segs)) as (n & out & Hfuel & Hout).
  destruct out as [ic h' | e h' |]; [| | done].
  - exists n, ic, h'. intros fuel Hn. by rewrite bind_unfold, Hinit, Hfuel.
  - exfalso. destruct Hout as (l & Hl & Hid & Honly & Hraise).
    destruct (Honly l) as (Hsid & Hels & _).
    destruct (validate_returns_on_ascii (validator p) l h') as [errs Hret].
    + rewrite Hels. rewrite Hsegs in Hl. apply list_elem_of_In, in_seq in Hl.
      cbn [length Nat.add app] in Hl |- *.
      pose proof (segmentize_ascii (element_delimiter p) (segment_terminator p)
                    edi_string Hascii) as Hall.
      rewrite Forall_forall in Hall. apply Hall. fold segs.
      unfold deref. apply list_elem_of_In, nth_In. lia.
    + intros base Hbase. rewrite Hval, Hsid in Hbase. by eapply Hplain.
    + congruence.
Qed.

Lemma parse_edi_returns_on_ascii_witness :
  ascii_only stray_segment_edi /\ envelope_definitions_plain claim_schema
  /\ exists n ic h', forall fuel, (n <= fuel)%nat ->
       parse_edi fuel stray_segment_edi claim_schema = Ret ic h'.
Proof.
  assert (Ha : ascii_only stray_segment_edi) by reflexivity.
  assert (Hp : envelope_definitions_plain claim_schema).
  { intros id base Hid Hbase.
    repeat (apply elem_of_cons in Hid as [-> | Hid]);
      [vm_compute in Hbase; injection Hbase as <-; split; [reflexivity | repeat constructor] ..
      | by apply elem_of_nil in Hid]. }
  split; [exact Ha |]. split; [exact Hp |].
  exact (parse_edi_returns_on_ascii stray_segment_edi claim_schema Ha Hp).
Defined.

(** ** [get_guide_version_from_edi] *)





(** ** [_get_effective_definition] *)

Lemma merge_elements_layout (els : list BaseElement) :
  forall context_elements : gmap string ElemOverride,
    length (merge_elements context_elements els) = length els
    /\ forall k b, els !! k = Some b -> context_elements !! el_xid b = None ->
         merge_elements context_elements els !! k = Some b.
Proof.
  induction els as [| base_el r IH]; intros ce; [done |].
  cbn [merge_elements].
  destruct (ce !! el_xid base_el) as [overrides |] eqn:Hov.
  - assert (Hhead : forall x l,
              length l = length r ->
              (forall k b, r !! k = Some b -> ce !! el_xid b = None -> l !! k = Some b) ->
              length (x :: l) = length (base_el :: r)
              /\ forall k b, (base_el :: r) !! k = Some b -> ce !! el_xid b = None ->
                   (x :: l) !! k = Some b).
    { intros x l Hlen Hl. split; [simpl; by rewrite Hlen |].
      intros [| k] b Hk Hb; [| by apply Hl].
      injection Hk as <-. congruence. }
    destruct (o_sub_elements overrides) as [osub |];
      [destruct (has_sub base_el) |]; apply Hhead; try apply IH.
    intros k b Hk Hb. destruct (decide (el_xid base_el = el_xid b)) as [Heq | Hne].
    + rewrite Heq in Hov. congruence.
    + apply (proj2 (IH _)); [done |]. by rewrite lookup_insert_ne.
  - split; [simpl; by rewrite (proj1 (IH ce)) |].
    intros [| k] b Hk Hb; [done | by apply (proj2 (IH ce))].
Qed.

(** The overrides of a context leave the layout of a segment definition as
    it is: the effective definition has the identifier, the usage, the
    maximum use and the syntax rules of the base definition and as many
    elements, and at each position the base element itself when the
    context has no override under its xid. *)
Theorem effective_definition_keeps_layout (base_def : SegmentDefinition)
    (context_def : option ContextualDefinition) :
  let effective := _get_effective_definition base_def context_def in
  sd_id effective = sd_id base_def
  /\ sd_usage effective = sd_usage base_def
  /\ sd_max_use effective = sd_max_use base_def
  /\ rules effective = rules base_def
  /\ length (sd_elements effective) = length (sd_elements base_def)
  /\ forall k b cd ce,
       sd_elements base_def !! k = Some b ->
       context_def = Some cd -> cd_elements cd = Some ce -> ce !! el_xid b = None ->
       sd_elements effective !! k = Some b.
Proof.
  cbv zeta. unfold _get_effective_definition.
  destruct context_def as [cd |]; [| by split_and!].
  destruct (cd_elements cd) as [ce |] eqn:Hce; [| by split_and!].
  destruct (decide (ce = ∅)) as [He | He]; [by split_and! |].
  cbn [sd_id sd_usage sd_max_use rules sd_elements].
  split_and!; try done.
  - apply merge_elements_layout.
  - intros k b cd' ce' Hk [= <-] Hce' Hb. rewrite Hce in Hce'. injection Hce' as <-.
    by apply merge_elements_layout.
Qed.
